(** * frappe: module prediction pipeline, locale caches and the fill tool

    A shallow embedding of

    - [src/frappe/models/module.py]  (Predictor.get_class, Module.aggregate,
      Module.predict_scores),
    - [src/recommendation/language/models.py]  (Locale.save and the m2m cache
      handler),
    - [src/recommendation/management/commands/fill.py]  (FillTool),

    with the properties the specification states about them.

    Conventions.  Python exceptions are values of [pyexc]; a function that can
    raise returns [result A].  Python [str] values are [string]s (byte
    strings); floats are read as exact rationals [Q] (see the numpy values
    in [Frappe]); a Python [dict] is a
    [gmap] where the iteration order plays no role and a list of bindings
    where it does; a database table is a finite map from primary key to row. *)

From Stdlib Require Import ZArith QArith List Ascii String Lia Bool.
From stdpp Require Import base option list gmap strings pretty fin_maps.

Local Open Scope Z_scope.
Local Open Scope string_scope.

(** ** Python exceptions *)

Inductive pyexc : Type :=
| KeyError
| TypeError
| ValueError
| AttributeError (name : string)
| ImportError (name : string)
| AssertionError
| DoesNotExist
| IntegrityError
| FieldError (keyword : string).

Inductive result (A : Type) : Type :=
| Ok (a : A)
| Raise (e : pyexc).
Arguments Ok {A} a.
Arguments Raise {A} e.

#[global] Instance result_ret : MRet result := fun A a => Ok a.
#[global] Instance result_bind : MBind result := fun A B f r =>
  match r with
  | Ok a => f a
  | Raise e => Raise e
  end.

#[global] Instance result_fmap : FMap result := fun A B f r =>
  match r with
  | Ok a => Ok (f a)
  | Raise e => Raise e
  end.

(** [from_option e o]: the value of [o], raising [e] when there is none. *)
Definition lookup_or {A} (e : pyexc) (o : option A) : result A :=
  match o with
  | Some a => Ok a
  | None => Raise e
  end.

(** [for x in xs: st = body(st, x)] where the body can raise. *)
Fixpoint for_each {A S} (body : S -> A -> result S) (xs : list A) (st : S)
  : result S :=
  match xs with
  | [] => Ok st
  | x :: xs' => st' ← body st x; for_each body xs' st'
  end.

(** [d[key]] on a list of bindings. *)
Fixpoint assoc {A} (key : string) (d : list (string * A)) : option A :=
  match d with
  | [] => None
  | (k, v) :: d' => if String.eqb k key then Some v else assoc key d'
  end.

(** ** Python string operations *)

Module PyStr.

(** [s.split(sep)] for a one character separator: never the empty list. *)
Fixpoint split (sep : ascii) (s : string) : list string :=
  match s with
  | EmptyString => [EmptyString]
  | String c s' =>
      if Ascii.eqb c sep then EmptyString :: split sep s'
      else match split sep s' with
           | h :: t => String c h :: t
           | [] => [String c EmptyString]
           end
  end.

(** [sep.join(parts)] *)
Definition join (sep : string) (parts : list string) : string :=
  String.concat sep parts.

Definition is_upper_char (c : ascii) : bool :=
  (N.leb 65 (N_of_ascii c) && N.leb (N_of_ascii c) 90)%N.

Definition lower_char (c : ascii) : ascii :=
  if is_upper_char c then ascii_of_N (N_of_ascii c + 32) else c.

(** [s.lower()] on a byte string: the letters A to Z are mapped to a to z. *)
Fixpoint lower (s : string) : string :=
  match s with
  | EmptyString => EmptyString
  | String c s' => String (lower_char c) (lower s')
  end.

(** No character of [s] is an upper case letter. *)
Fixpoint no_upper (s : string) : bool :=
  match s with
  | EmptyString => true
  | String c s' => negb (is_upper_char c) && no_upper s'
  end.

Definition len (s : string) : nat := String.length s.

End PyStr.

(** ** Database tables

    A table maps primary keys to rows; a model instance carries [None] as
    primary key until it is written. *)

Module Db.

(** The key the database gives to the next inserted row. *)
Definition next_pk {A} (t : gmap Z A) : Z := fresh (dom t).

(** [Model.save()]: an instance without primary key is inserted under a new
    one, an instance with a primary key is written under that key.  Returns
    the key and the table. *)
Definition save {A} (pk : option Z) (row : A) (t : gmap Z A) : Z * gmap Z A :=
  let k := match pk with
           | None => next_pk t
           | Some k => k
           end in
  (k, <[k := row]> t).

(** The rows of a table with their keys, in the order a query returns them. *)
Definition rows {A} (t : gmap Z A) : list (Z * A) := map_to_list t.

(** One [INSERT].  An instance without primary key is given a new one.  The
    database refuses the row with [IntegrityError] when its primary key is
    taken, or when a stored row [clash]es with it: [clash] is the uniqueness
    constraint of the table besides the primary key. *)
Definition insert {A} (clash : A -> A -> bool) (pk : option Z) (row : A)
    (t : gmap Z A) : result (gmap Z A) :=
  let k := match pk with
           | None => next_pk t
           | Some k => k
           end in
  if bool_decide (is_Some (t !! k)) then Raise IntegrityError
  else if existsb (fun kr => clash kr.2 row) (rows t) then Raise IntegrityError
  else Ok (<[k := row]> t).

Definition with_pk {A} (objs : list (option Z * A)) : list (option Z * A) :=
  List.filter (fun o => bool_decide (is_Some o.1)) objs.

Definition without_pk {A} (objs : list (option Z * A)) : list (option Z * A) :=
  List.filter (fun o => negb (bool_decide (is_Some o.1))) objs.

(** Modelled from the spec: the managers [Item.objects], [User.objects],
    [Inventory.objects] are declared in [recommendation.models], which is not
    among the sources; the specification has the tool bound to the
    bulk-insert call of the object-relational layer, which is what
    [objects.bulk_create(objs)] is.  It inserts and never updates: the
    instances that carry a primary key are inserted first, under their key,
    then the ones without, each as [insert] does; the value is the table
    after the call, or the exception of the first insert that the database
    refuses.  The call is one transaction: when it raises, the table is as
    before the call. *)
Definition bulk_create {A} (clash : A -> A -> bool)
    (objs : list (option Z * A)) (t : gmap Z A) : result (gmap Z A) :=
  for_each (fun t o => insert clash o.1 o.2 t)
           (with_pk objs ++ without_pk objs) t.

(** [objects.filter(...)] with a row predicate. *)
Definition select {A} (p : Z -> A -> bool) (t : gmap Z A) : list (Z * A) :=
  List.filter (fun kr => p (fst kr) (snd kr)) (rows t).

End Db.

(** ** recommendation/language/models.py *)

Module Language.

Record Locale : Type := {
  language_code : string;
  country_code : string;
  name : string;
}.

(** [Locale.__str__] *)
Definition str (l : Locale) : string :=
  language_code l ++
  (if String.eqb (country_code l) "" then "" else "-" ++ country_code l).

(** [Locale.save]: both codes are lowered, then the instance is written.
    [pk] is the primary key of the instance, [None] before its first save.
    Returns the key and the fields of the instance after the call, and the
    table. *)
Definition save (pk : option Z) (self : Locale) (t : gmap Z Locale)
  : (Z * Locale) * gmap Z Locale :=
  let self1 := {| language_code := PyStr.lower (language_code self);
                  country_code := country_code self;
                  name := name self |} in
  let self2 := {| language_code := language_code self1;
                  country_code := PyStr.lower (country_code self1);
                  name := name self1 |} in
  let '(k, t') := Db.save pk self2 t in
  ((k, self2), t').

(** A stored locale has lower case codes. *)
Definition lower_codes (l : Locale) : Prop :=
  PyStr.no_upper (language_code l) = true /\
  PyStr.no_upper (country_code l) = true.

(** *** The locale caches

    Modelled from the spec: [CacheManager] comes from [recommendation.models],
    which is not among the sources; the specification calls it a generic
    cache manager, so a cache is a dictionary from keys to values with
    [get(key, default)], item reading and item assignment.  The four caches
    below map an item (or user) to a set of locale keys and a locale key to a
    set of items (or users). *)

Record caches : Type := {
  item_locales : gmap Z (gset Z);
  user_locales : gmap Z (gset Z);
  items_by_locale : gmap Z (gset Z);
  users_by_locale : gmap Z (gset Z);
}.

Definition no_caches : caches :=
  {| item_locales := ∅; user_locales := ∅;
     items_by_locale := ∅; users_by_locale := ∅ |}.

(** Code that mutates the caches and can raise: the mutations made before
    the exception stay. *)
Definition cacheM (A : Type) : Type := caches -> caches * result A.

#[global] Instance cacheM_ret : MRet cacheM := fun A a c => (c, Ok a).
#[global] Instance cacheM_bind : MBind cacheM := fun A B f m c =>
  match m c with
  | (c', Ok a) => f a c'
  | (c', Raise e) => (c', Raise e)
  end.

(** [Locale.<attr>] for a cache attribute: the class body binds
    [item_locales], [user_locales], [items_by_locale] and [users_by_locale]
    (and [all_locales], which holds instances); any other name raises. *)
Definition getattr (attr : string) : cacheM (gmap Z (gset Z)) := fun c =>
  if String.eqb attr "item_locales" then (c, Ok (item_locales c))
  else if String.eqb attr "user_locales" then (c, Ok (user_locales c))
  else if String.eqb attr "items_by_locale" then (c, Ok (items_by_locale c))
  else if String.eqb attr "users_by_locale" then (c, Ok (users_by_locale c))
  else (c, Raise (AttributeError attr)).

(** [Locale.<attr>[key] = value] *)
Definition setitem (attr : string) (key : Z) (value : gset Z) : cacheM unit :=
  fun c =>
  if String.eqb attr "item_locales" then
    ({| item_locales := <[key := value]> (item_locales c);
        user_locales := user_locales c;
        items_by_locale := items_by_locale c;
        users_by_locale := users_by_locale c |}, Ok tt)
  else if String.eqb attr "user_locales" then
    ({| item_locales := item_locales c;
        user_locales := <[key := value]> (user_locales c);
        items_by_locale := items_by_locale c;
        users_by_locale := users_by_locale c |}, Ok tt)
  else if String.eqb attr "items_by_locale" then
    ({| item_locales := item_locales c;
        user_locales := user_locales c;
        items_by_locale := <[key := value]> (items_by_locale c);
        users_by_locale := users_by_locale c |}, Ok tt)
  else if String.eqb attr "users_by_locale" then
    ({| item_locales := item_locales c;
        user_locales := user_locales c;
        items_by_locale := items_by_locale c;
        users_by_locale := <[key := value]> (users_by_locale c) |}, Ok tt)
  else (c, Raise (AttributeError attr)).

(** [cache.get(key, dflt)] *)
Definition get (cache : gmap Z (gset Z)) (key : Z) (dflt : gset Z) : gset Z :=
  default dflt (cache !! key).

(** [for i in pk_set: body(i)] *)
Fixpoint for_pks (body : Z -> cacheM unit) (pk_set : list Z) : cacheM unit :=
  match pk_set with
  | [] => mret tt
  | i :: rest => body i ≫= fun _ => for_pks body rest
  end.

(** The m2m_changed signal as the handler receives it. *)
Record m2m_changed : Type := {
  instance_pk : Z;
  action : string;
  pk_set : list Z;
}.

(** [add_item_locale_to_cache] *)
Definition add_item_locale_to_cache (ev : m2m_changed) : cacheM unit :=
  (if String.eqb (action ev) "post_save" then
     for_pks (fun i =>
       il ← getattr "item_locales";
       setitem "item_locales" i
         (get il i ((∅ : gset Z) ∪ {[instance_pk ev]})) ≫= fun _ =>
       ibl ← getattr "items_by_locale";
       setitem "items_by_locale" (instance_pk ev)
         (get ibl (instance_pk ev) ∅ ∪ {[i]})) (pk_set ev)
   else mret tt) ≫= fun _ =>
  if String.eqb (action ev) "post_remove" then
    for_pks (fun i =>
      il ← getattr "item_locales";
      let l := get il i ∅ ∖ {[instance_pk ev]} in
      setitem "item_locales" i l ≫= fun _ =>
      ibl ← getattr "items_by_locales";
      let l := get ibl (instance_pk ev) ∅ ∖ {[i]} in
      setitem "items_by_locales" (instance_pk ev) l) (pk_set ev)
  else mret tt.

(** [add_user_locale_to_cache] *)
Definition add_user_locale_to_cache (ev : m2m_changed) : cacheM unit :=
  (if String.eqb (action ev) "post_save" then
     for_pks (fun u =>
       ul ← getattr "user_locales";
       setitem "user_locales" u
         (get ul u ((∅ : gset Z) ∪ {[instance_pk ev]})) ≫= fun _ =>
       ubl ← getattr "users_by_locales";
       setitem "users_by_locales" (instance_pk ev)
         (get ubl (instance_pk ev) ((∅ : gset Z) ∪ {[u]}))) (pk_set ev)
   else mret tt) ≫= fun _ =>
  if String.eqb (action ev) "post_remove" then
    for_pks (fun u =>
      ul ← getattr "user_locales";
      let l := get ul u ∅ ∖ {[instance_pk ev]} in
      setitem "user_locales" u l ≫= fun _ =>
      ubl ← getattr "users_by_locales";
      let l := get ubl (instance_pk ev) ∅ ∖ {[u]} in
      setitem "users_by_locales" (instance_pk ev) l) (pk_set ev)
  else mret tt.

(** A stored locale as [load_locale] reads it: its key, and the keys of
    [instance.items.all()] and [instance.users.all()]. *)
Record stored_locale : Type := {
  locale_pk : Z;
  locale_items : list Z;
  locale_users : list Z;
}.

(** [for instance in Locale.objects.all(): body(instance)] *)
Fixpoint for_locales (body : stored_locale -> cacheM unit)
    (all : list stored_locale) : cacheM unit :=
  match all with
  | [] => mret tt
  | instance :: rest => body instance ≫= fun _ => for_locales body rest
  end.

(** [Locale.load_locale] *)
Definition load_locale (all : list stored_locale) : cacheM unit :=
  for_locales (fun instance =>
    for_pks (fun i =>
      il ← getattr "item_locales";
      setitem "item_locales" i
        (get il i ((∅ : gset Z) ∪ {[locale_pk instance]})) ≫= fun _ =>
      ibl ← getattr "items_by_locale";
      setitem "items_by_locale" (locale_pk instance)
        (get ibl (locale_pk instance) ∅ ∪ {[i]})) (locale_items instance)
    ≫= fun _ =>
    for_pks (fun u =>
      ul ← getattr "user_locales";
      setitem "user_locales" u
        (get ul u ((∅ : gset Z) ∪ {[locale_pk instance]})) ≫= fun _ =>
      ubl ← getattr "users_by_locales";
      setitem "users_by_locales" (locale_pk instance)
        (get ubl (locale_pk instance) ((∅ : gset Z) ∪ {[u]})))
      (locale_users instance)) all.

(** The caches after a sequence of signals, each handled on its own. *)
Definition handle_all (evs : list m2m_changed) (c : caches) : caches :=
  fold_left (fun c ev => fst (add_item_locale_to_cache ev c)) evs c.

(** The two item caches agree: a locale is recorded for an item exactly when
    the item is recorded for the locale. *)
Definition consistent (c : caches) : Prop :=
  forall item loc : Z,
    loc ∈ get (item_locales c) item ∅ <-> item ∈ get (items_by_locale c) loc ∅.

End Language.

(** ** frappe/models/module.py *)

Module Frappe.

(** *** numpy values

    A prediction is a float or a one dimensional array of floats.  numpy
    computes on IEEE doubles; here a float is an exact rational, and products
    and sums are exact.  The two agree where every value met on the way is a
    double (integers of moderate size, as in the worked values below); no
    property of this development equates a rational result with what numpy
    returns on other inputs. *)

Inductive ndarray : Type :=
| Scalar (x : Q)
| Array (xs : list Q).

(** [a * w] for a float [w] *)
Definition scale (a : ndarray) (w : Q) : ndarray :=
  match a with
  | Scalar x => Scalar (Qmult x w)
  | Array xs => Array (List.map (fun x => Qmult x w) xs)
  end.

Definition shape (a : ndarray) : option nat :=
  match a with
  | Scalar _ => None
  | Array xs => Some (length xs)
  end.

Definition entries (a : ndarray) : list Q :=
  match a with
  | Scalar x => [x]
  | Array xs => xs
  end.

Definition total (qs : list Q) : Q := fold_left Qplus qs (0 # 1)%Q.

(** [np.sum(xs)] of a Python list, no axis given: the list becomes one array
    and all its entries are added up, so the value is a single number also
    when the elements of the list are arrays.  The elements must have one
    shape; a ragged list is reported as [ValueError]. *)
Definition np_sum (xs : list ndarray) : result ndarray :=
  match xs with
  | [] => Ok (Scalar (0 # 1)%Q)
  | a :: rest =>
      if forallb (fun b => bool_decide (shape b = shape a)) rest
      then Ok (Scalar (total (concat (List.map entries xs))))
      else Raise ValueError
  end.

(** *** The Python module system

    A module binds class names (a class is identified by its qualified name)
    and has submodules. *)

#[local] Set Warnings "-register-all".
Inductive pymodule : Type :=
| PyModule (classes : list (string * string))
           (submodules : list (string * pymodule)).

Inductive pyobj : Type :=
| ObjClass (qualname : string)
| ObjModule (m : pymodule).

Definition classes_of (m : pymodule) : list (string * string) :=
  match m with PyModule cs _ => cs end.

Definition submodules_of (m : pymodule) : list (string * pymodule) :=
  match m with PyModule _ ss => ss end.

(** The module reached from [m] along the submodule names [path]. *)
Fixpoint submodule (m : pymodule) (path : list string) : option pymodule :=
  match path with
  | [] => Some m
  | p :: path' =>
      match assoc p (submodules_of m) with
      | Some m' => submodule m' path'
      | None => None
      end
  end.

(** [__import__(name)] with no [fromlist]: every module of the dotted name is
    imported, and the value is the TOP-LEVEL package, the one named by the
    part of [name] before the first dot.  The empty name is refused.  The
    second component is the list of the remaining parts of the name: the
    import binds the first of them as an attribute of the package. *)
Definition import_ (sys : list (string * pymodule)) (name : string)
  : result (pymodule * list string) :=
  if String.eqb name "" then Raise ValueError
  else
    match PyStr.split "." name with
    | [] => Raise ValueError
    | top :: rest =>
        m ← lookup_or (ImportError name) (assoc top sys);
        _ ← lookup_or (ImportError name) (submodule m rest);
        Ok (m, rest)
    end.

(** [getattr(m, attr)] on a package returned by [import_]: a class bound in
    the package, or the submodule the import has bound. *)
Definition getattr (imported : pymodule * list string) (attr : string)
  : result pyobj :=
  let '(m, rest) := imported in
  match assoc attr (classes_of m) with
  | Some c => Ok (ObjClass c)
  | None =>
      match rest with
      | r :: _ =>
          if String.eqb r attr
          then ObjModule <$> lookup_or (AttributeError attr)
                                       (assoc attr (submodules_of m))
          else Raise (AttributeError attr)
      | [] => Raise (AttributeError attr)
      end
  end.

(** [parts[:-1]] and [parts[-1]] *)
Definition init (parts : list string) : list string := removelast parts.
Definition final (parts : list string) : result string :=
  lookup_or KeyError (last parts).

(** *** Models *)

Record Predictor : Type := {
  identifier : string;
  python_class : string;
}.

Record PredictorWithAggregator : Type := {
  predictor_id : Z;
  module_id : Z;
  weight : option Q;
}.

Record Module : Type := {
  pk : Z;
  module_identifier : string;
}.

(** A predictor instance is called with (user, size), a filter or a
    re-ranker with (recommendation, size). *)
Definition predictor_fn : Type := Z -> Z -> result ndarray.
Definition stage_fn : Type := ndarray -> Z -> result ndarray.

(** What the module reads: the tables, the importable packages, and
    [load_predictor] of the resolved predictor class, which builds the
    instance for a predictor and a module. *)
Record world : Type := {
  predictors : gmap Z Predictor;
  modules : gmap Z Module;
  aggregators : gmap Z PredictorWithAggregator;
  sys_modules : list (string * pymodule);
  load_predictor : pyobj -> Predictor -> Module -> result predictor_fn;
}.

(** [Predictor.get_predictor]  ([Cached] memoises the call and is not
    modelled: the tables do not change during a prediction.) *)
Definition Predictor_get_predictor (w : world) (predictor_id : Z)
  : result Predictor :=
  lookup_or DoesNotExist (predictors w !! predictor_id).

(** [Predictor.get_class] *)
Definition get_class (w : world) (predictor_id : Z) : result pyobj :=
  p ← Predictor_get_predictor w predictor_id;
  let class_parts := PyStr.split "." (python_class p) in
  let module := PyStr.join "." (init class_parts) in
  cls ← final class_parts;
  m ← import_ (sys_modules w) module;
  getattr m cls.

(** [check_predictor], up to the instantiation of the class. *)
Definition check_predictor (w : world) (instance : Predictor) : result pyobj :=
  let class_parts := PyStr.split "." (python_class instance) in
  let module := PyStr.join "." (init class_parts) in
  cls ← final class_parts;
  m ← import_ (sys_modules w) module;
  getattr m cls.

(** The class a dotted path denotes: the class named by the last component
    in the module reached along the preceding components. *)
Definition denoted_class (sys : list (string * pymodule)) (path : string)
  : option string :=
  match init (PyStr.split "." path) with
  | [] => None
  | top :: rest =>
      m ← assoc top sys;
      m' ← submodule m rest;
      c ← last (PyStr.split "." path);
      assoc c (classes_of m')
  end.

(** [Module.get_module] *)
Definition get_module (w : world) (module_id : Z) : result Module :=
  lookup_or DoesNotExist (modules w !! module_id).

(** The names a keyword of [Predictor.objects.filter] can start with: the
    fields of [Predictor], [pk], and the relations that point to it (the
    modules, under the [related_name] of [Module.predictors], and the rows of
    [PredictorWithAggregator]). *)
Definition Predictor_names : list string :=
  ["id"; "pk"; "identifier"; "python_class"; "kwargs"; "data"; "modules";
   "predictorwithaggregator"].

(** The part of a filter keyword before the first double underscore, which
    is what the keyword is resolved by. *)
Fixpoint keyword_head (keyword : string) : string :=
  match keyword with
  | String "_" (String "_" _) => EmptyString
  | String c rest => String c (keyword_head rest)
  | EmptyString => EmptyString
  end.

(** The keys of the predictors related to the module, the relation being
    the table of [PredictorWithAggregator]. *)
Definition related_predictors (w : world) (module_id : Z) : list Z :=
  List.map fst
    (Db.select (fun k _ =>
       existsb (fun a => Z.eqb (predictor_id a.2) k &&
                         Z.eqb (Frappe.module_id a.2) module_id)
               (Db.rows (aggregators w)))
       (predictors w)).

(** [Predictor.objects.filter(keyword=module_id).values_list("pk")] for a
    keyword: one that starts with none of the names of [Predictor] is refused
    with [FieldError] when the query is built. *)
Definition filter_by_module (keyword : string) (w : world) (module_id : Z)
  : result (list Z) :=
  if existsb (String.eqb (keyword_head keyword)) Predictor_names
  then Ok (related_predictors w module_id)
  else Raise (FieldError keyword).

(** [Module.get_predictors]: the keyword of the source is [modules_id]. *)
Definition get_predictors (w : world) (module_id : Z) : result (list Z) :=
  filter_by_module "modules_id" w module_id.

(** [Module.get_predictor] *)
Definition get_predictor (w : world) (module_id predictor_id : Z)
  : result predictor_fn :=
  module ← get_module w module_id;
  predictor ← Predictor_get_predictor w predictor_id;
  predictor_class ← get_class w predictor_id;
  load_predictor w predictor_class predictor module.

(** [Module.get_aggregator]: the dictionary from predictor key to weight
    built from the rows of the module; a later row replaces an earlier one
    for the same predictor. *)
Definition get_aggregator (w : world) (module_id : Z) : gmap Z (option Q) :=
  fold_left (fun d a => <[predictor_id a.2 := weight a.2]> d)
    (Db.select (fun _ a => Z.eqb (Frappe.module_id a) module_id)
               (aggregators w))
    ∅.

(** [prediction * weight]: a null weight is [None], which cannot be
    multiplied. *)
Definition times (p : ndarray) (wt : option Q) : result ndarray :=
  match wt with
  | Some x => Ok (scale p x)
  | None => Raise TypeError
  end.

(** [map(f, xs)] for an [f] that can raise. *)
Fixpoint map_r {A B} (f : A -> result B) (xs : list A) : result (list B) :=
  match xs with
  | [] => Ok []
  | x :: xs' => y ← f x; ys ← map_r f xs'; Ok (y :: ys)
  end.

(** [Module.aggregate] *)
Definition aggregate (w : world) (self : Module) (predictions : gmap Z ndarray)
  : result ndarray :=
  let weights := get_aggregator w (pk self) in
  products ← map_r (fun pid =>
                      p ← lookup_or KeyError (predictions !! pid);
                      wt ← lookup_or KeyError (weights !! pid);
                      times p wt)
                   (map_to_list predictions).*1;
  np_sum products.

(** An accessor of the module class that yields the filter or re-ranker
    objects of a module. *)
Abbreviation accessor := (Z -> result (list stage_fn)) (only parsing).

(** The accessors that [Module] binds under the names [predict_scores]
    reads from [self]: the class body defines [get_module],
    [get_predictors], [get_predictor], [get_aggregator], [aggregate] and
    [predict_scores]; it defines neither [get_filters] nor [get_re_renkers],
    and its base class has no such attribute. *)
Definition Module_attrs : gmap string accessor := ∅.

(** The body of [predict_scores] from the point where
    [self.get_predictors(self.pk)] has been evaluated to [predictor_ids];
    [attrs] is where [self.<name>] is looked up for the two accessors. *)
Definition predict_scores_from (predictor_ids : list Z)
    (attrs : gmap string accessor) (w : world)
    (self : Module) (user size : Z) : result ndarray :=
  recommendations ←
    for_each (fun (d : gmap Z ndarray) predictor_id =>
                f ← get_predictor w (pk self) predictor_id;
                r ← f user size;
                Ok (<[predictor_id := r]> d))
             predictor_ids ∅;
  recommendation ← aggregate w self recommendations;
  get_filters ← lookup_or (AttributeError "get_filters")
                          (attrs !! "get_filters");
  filters ← get_filters (pk self);
  recommendation ←
    for_each (fun r (rfilter : stage_fn) => rfilter r size)
             filters recommendation;
  get_re_renkers ← lookup_or (AttributeError "get_re_renkers")
                             (attrs !! "get_re_renkers");
  rerankers ← get_re_renkers (pk self);
  for_each (fun r (reranker : stage_fn) => reranker r size)
           rerankers recommendation.

(** [Module.predict_scores] *)
Definition predict_scores (attrs : gmap string accessor) (w : world)
    (self : Module) (user size : Z) : result ndarray :=
  predictor_ids ← get_predictors w (pk self);
  predict_scores_from predictor_ids attrs w self user size.

(** The weighted sum of predictions, entry by entry: what adding
    [prediction * weight] over the predictors gives for arrays of one
    length. *)
Definition add_arrays (a b : ndarray) : option ndarray :=
  match a, b with
  | Scalar x, Scalar y => Some (Scalar (Qplus x y))
  | Array xs, Array ys =>
      if bool_decide (length xs = length ys)
      then Some (Array (List.map (fun xy => Qplus xy.1 xy.2) (combine xs ys)))
      else None
  | _, _ => None
  end.

Fixpoint weighted_sum (terms : list (ndarray * Q)) : option ndarray :=
  match terms with
  | [] => None
  | [(p, wt)] => Some (scale p wt)
  | (p, wt) :: rest => s ← weighted_sum rest; add_arrays (scale p wt) s
  end.

End Frappe.

(** ** recommendation/management/commands/fill.py *)

Module Fill.

Definition SQLITE_MAX_ROWS : nat := 950.

(** *** JSON objects as the tool reads them

    An identifier that the tool has already read with [str(obj[field])] is
    a component of the record; a field read with [obj.get(field, ...)] or
    [obj[field]] later on, or tested with [in], can be absent or null. *)

(** The value of an optional field that holds a string or a list of
    strings. *)
Inductive field : Type :=
| Absent
| Null
| One (s : string)
| Many (l : list string).

(** The Python values such a field evaluates to; [PUnit] is the empty
    tuple. *)
Inductive pyval : Type :=
| PNone
| PStr (s : string)
| PList (l : list string)
| PUnit.

(** [obj.get(field, None)] *)
Definition get (f : field) : pyval :=
  match f with
  | Absent | Null => PNone
  | One s => PStr s
  | Many l => PList l
  end.

(** [obj[field]] *)
Definition subscript (f : field) : result pyval :=
  match f with
  | Absent => Raise KeyError
  | Null => Ok PNone
  | One s => Ok (PStr s)
  | Many l => Ok (PList l)
  end.

Definition truthy (v : pyval) : bool :=
  match v with
  | PNone | PUnit => false
  | PStr s => negb (String.eqb s "")
  | PList l => negb (bool_decide (l = []))
  end.

(** [v or ()] *)
Definition or_unit (v : pyval) : pyval := if truthy v then v else PUnit.

Fixpoint chars (s : string) : list string :=
  match s with
  | EmptyString => []
  | String c s' => String c EmptyString :: chars s'
  end.

(** The elements a [for] loop or [set.union] takes from a value: a string
    gives its characters, [None] is not iterable. *)
Definition iterate (v : pyval) : result (list string) :=
  match v with
  | PNone => Raise TypeError
  | PStr s => Ok (chars s)
  | PList l => Ok l
  | PUnit => Ok []
  end.

Inductive name_value : Type :=
| NameStr (s : string)
| NameDict (d : list (string * string)).

(** An item object.  [is_item]: the file identifier field is in the object;
    [item_eid]: [str(obj[item_field])]. *)
Record json_item : Type := {
  is_item : bool;
  item_eid : string;
  json_name : option name_value;
  default_locale : option string;
  json_genres : field;
  json_locales : field;
}.

(** The value of a date field of an entry of a user's item list: the field
    is not in the entry, it is null, or it holds a text.  ([strptime] refuses
    any value that is not a string the way it refuses null.) *)
Inductive date_field : Type :=
| NoDate
| NullDate
| DateText (text : string).

(** An entry of a user's item list.  [listing_eid]:
    [str(item[user_item_identifier_field])]; [acquired] and [dropped]: the
    fields named by [user_item_acquisition_field] and
    [user_item_dropped_field]. *)
Record json_listing : Type := {
  listing_eid : string;
  acquired : date_field;
  dropped : date_field;
}.

(** A user object; [user_items] is [obj.get(user_items_field, ())]. *)
Record json_user : Type := {
  is_user : bool;
  user_eid : string;
  user_items : list json_listing;
}.

(** *** Rows *)

Record Item : Type := { external_id : string; name : name_value }.
Record User : Type := { user_external_id : string }.
Record Inventory : Type := {
  item_id : Z;
  user_id : Z;
  acquisition_date : Z;
  dropped_date : option Z;
}.
Record Genre : Type := { genre_name : string }.
Record ItemGenre : Type := { ig_item_id : Z; ig_type_id : Z }.
Record ItemLocale : Type := { il_locale_id : Z; il_item_id : Z }.

(** The database, the [bulk_create] calls made so far (model and number of
    rows, latest first) and the warnings logged (latest first). *)
Record db : Type := {
  items : gmap Z Item;
  users : gmap Z User;
  inventory : gmap Z Inventory;
  genres : gmap Z Genre;
  locales : gmap Z Language.Locale;
  item_genres : gmap Z ItemGenre;
  item_locales : gmap Z ItemLocale;
  calls : list (string * nat);
  warnings : list string;
}.

Definition empty_db : db :=
  {| items := ∅; users := ∅; inventory := ∅; genres := ∅; locales := ∅;
     item_genres := ∅; item_locales := ∅; calls := []; warnings := [] |}.

(** What the command line and the settings fix. *)
Record config : Type := {
  sqlite : bool;                       (* connection.vendor == "sqlite" *)
  diversity : bool;                    (* recommendation.diversity installed *)
  language : bool;                     (* recommendation.language installed *)
  testing_mode : bool;                 (* TESTING_MODE *)
  date_format : string;
  (* datetime.strptime(text, format), [None] standing for ValueError *)
  strptime : string -> string -> option Z;
}.

(** Code that writes to the database and can raise: what was written before
    the exception stays. *)
Definition fillM (A : Type) : Type := db -> db * result A.

#[global] Instance fillM_ret : MRet fillM := fun A a d => (d, Ok a).
#[global] Instance fillM_bind : MBind fillM := fun A B f m d =>
  match m d with
  | (d', Ok a) => f a d'
  | (d', Raise e) => (d', Raise e)
  end.

(** A computation that touches no table. *)
Definition pure {A} (r : result A) : fillM A := fun d => (d, r).

(** [logging.warn(msg)] *)
Definition warn (msg : string) : fillM unit := fun d =>
  ({| items := items d; users := users d; inventory := inventory d;
      genres := genres d; locales := locales d;
      item_genres := item_genres d; item_locales := item_locales d;
      calls := calls d; warnings := msg :: warnings d |}, Ok tt).

(** A model class: its table in the database, and the uniqueness
    constraint of the table besides the primary key ([clash]: the two rows
    cannot both be stored).  Modelled from the spec: the constraints of
    [Item], [User], [Inventory], [Genre], [ItemGenre] and [ItemLocale] are
    declared in modules that are not among the sources, and the
    specification states none; these tables are given no constraint.
    [Locale] declares [unique_together] for its two codes. *)
Record model (A : Type) : Type := {
  model_name : string;
  table : db -> gmap Z A;
  set_table : gmap Z A -> list (string * nat) -> db -> db;
  clash : A -> A -> bool;
}.
Arguments model_name {A} m.
Arguments table {A} m d.
Arguments set_table {A} m t cs d.
Arguments clash {A} m a b.

Definition no_constraint {A} (a b : A) : bool := false.

Definition Item_ : model Item :=
  {| model_name := "Item"; table := items;
     set_table t cs d :=
       {| items := t; users := users d; inventory := inventory d;
          genres := genres d; locales := locales d;
          item_genres := item_genres d; item_locales := item_locales d;
          calls := cs; warnings := warnings d |};
     clash := no_constraint |}.

Definition User_ : model User :=
  {| model_name := "User"; table := users;
     set_table t cs d :=
       {| items := items d; users := t; inventory := inventory d;
          genres := genres d; locales := locales d;
          item_genres := item_genres d; item_locales := item_locales d;
          calls := cs; warnings := warnings d |};
     clash := no_constraint |}.

Definition Inventory_ : model Inventory :=
  {| model_name := "Inventory"; table := inventory;
     set_table t cs d :=
       {| items := items d; users := users d; inventory := t;
          genres := genres d; locales := locales d;
          item_genres := item_genres d; item_locales := item_locales d;
          calls := cs; warnings := warnings d |};
     clash := no_constraint |}.

Definition Genre_ : model Genre :=
  {| model_name := "Genre"; table := genres;
     set_table t cs d :=
       {| items := items d; users := users d; inventory := inventory d;
          genres := t; locales := locales d;
          item_genres := item_genres d; item_locales := item_locales d;
          calls := cs; warnings := warnings d |};
     clash := no_constraint |}.

Definition Locale_ : model Language.Locale :=
  {| model_name := "Locale"; table := locales;
     set_table t cs d :=
       {| items := items d; users := users d; inventory := inventory d;
          genres := genres d; locales := t;
          item_genres := item_genres d; item_locales := item_locales d;
          calls := cs; warnings := warnings d |};
     clash := fun a b =>
       bool_decide ((Language.language_code a, Language.country_code a)
                    = (Language.language_code b, Language.country_code b)) |}.

Definition ItemGenre_ : model ItemGenre :=
  {| model_name := "ItemGenre"; table := item_genres;
     set_table t cs d :=
       {| items := items d; users := users d; inventory := inventory d;
          genres := genres d; locales := locales d;
          item_genres := t; item_locales := item_locales d;
          calls := cs; warnings := warnings d |};
     clash := no_constraint |}.

Definition ItemLocale_ : model ItemLocale :=
  {| model_name := "ItemLocale"; table := item_locales;
     set_table t cs d :=
       {| items := items d; users := users d; inventory := inventory d;
          genres := genres d; locales := locales d;
          item_genres := item_genres d; item_locales := t;
          calls := cs; warnings := warnings d |};
     clash := no_constraint |}.

(** [M.objects.bulk_create(objs)]: the call is recorded; when the database
    refuses a row the exception is raised and the table is as before. *)
Definition bulk_create {A} (M : model A) (objs : list (option Z * A))
  : fillM unit := fun d =>
  match Db.bulk_create (clash M) objs (table M d) with
  | Ok t => (set_table M t ((model_name M, length objs) :: calls d) d, Ok tt)
  | Raise e =>
      (set_table M (table M d) ((model_name M, length objs) :: calls d) d,
       Raise e)
  end.

(** [M.objects.filter(...)] for a predicate on rows. *)
Definition filter {A} (M : model A) (p : Z -> A -> bool)
  : fillM (list (Z * A)) := fun d => (d, Ok (Db.select p (table M d))).

(** [for x in xs: body(x)] over a state [S] kept in local variables. *)
Fixpoint for_ {A S} (body : S -> A -> fillM S) (xs : list A) (st : S)
  : fillM S :=
  match xs with
  | [] => mret st
  | x :: xs' => body st x ≫= for_ body xs'
  end.

(** The slices [l[i:i+n]] for [i in range(0, len(l), n)]. *)
Fixpoint slices_fuel {A} (fuel n : nat) (l : list A) : list (list A) :=
  match fuel with
  | O => []
  | S fuel' =>
      match l with
      | [] => []
      | _ => take n l :: slices_fuel fuel' n (drop n l)
      end
  end.

Definition slices {A} (n : nat) (l : list A) : list (list A) :=
  slices_fuel (length l) n l.

(** [bulk_create] as every vendor branch of the tool writes it: in slices of
    [SQLITE_MAX_ROWS] for sqlite, in one call otherwise. *)
Definition bulk_create_by_vendor {A} (cfg : config) (M : model A)
    (objs : list (option Z * A)) : fillM unit :=
  if sqlite cfg then
    for_ (fun _ slice => bulk_create M slice)
         (slices SQLITE_MAX_ROWS objs) tt
  else bulk_create M objs.

(** [{key(row): row for row in rows}] added to the dictionary [d]. *)
Definition index_by {A} (key : A -> string) (rows : list (Z * A))
    (d : gmap string (Z * A)) : gmap string (Z * A) :=
  fold_left (fun d kr => <[key kr.2 := kr]> d) rows d.

(** A [Q] object built by [Q() | Q(...) | ...]: the list of its
    alternatives.  The empty [Q()] puts no condition on the rows. *)
Definition q_match {K} `{EqDecision K} (q : list K) (k : K) : bool :=
  match q with
  | [] => true
  | _ => bool_decide (k ∈ q)
  end.

(** [query | Q(...)] *)
Definition or_q {K} (q : list K) (k : K) : list K := (q ++ [k])%list.

(** [xs.append(x)] *)
Definition append {A} (xs : list A) (x : A) : list A := (xs ++ [x])%list.

(** [del d[key]] *)
Definition del {K V} `{Countable K} (key : K) (d : gmap K V)
  : result (gmap K V) :=
  match d !! key with
  | Some _ => Ok (delete key d)
  | None => Raise KeyError
  end.

(** [d.values()] as fresh instances for [bulk_create]. *)
Definition new_instances {K V} `{Countable K} (d : gmap K V)
  : list (option Z * V) :=
  List.map (fun kv => (None, kv.2)) (map_to_list d).

(** [FillTool.get_genres] *)
Definition get_genres (cfg : config) (genres_names : gset string)
  : fillM (gmap string (Z * Genre)) :=
  rows ← filter Genre_ (fun _ g => bool_decide (genre_name g ∈ genres_names));
  let genres := index_by genre_name rows ∅ in
  if bool_decide (size genres ≠ size genres_names) then
    let new_genres : gmap string Genre :=
      fold_left (fun d genre_name =>
                   if bool_decide (genre_name ∈ dom genres) then d
                   else <[genre_name := {| genre_name := genre_name |}]> d)
                (elements genres_names) ∅ in
    bulk_create_by_vendor cfg Genre_ (new_instances new_genres) ≫= fun _ =>
    rows ← filter Genre_
             (fun _ g => bool_decide (genre_name g ∈ dom new_genres));
    mret (index_by genre_name rows genres)
  else mret genres.

(** [language_code, country_code = locale.split("-")], with the fallback of
    the [except ValueError] branch when there are not exactly two parts. *)
Definition split_locale (locale : string) : string * string :=
  match PyStr.split "-" locale with
  | [language_code; country_code] => (language_code, country_code)
  | _ => (locale, "")
  end.

(** The test [len(language_code) < 3 and len(country_code) < 3]. *)
Definition well_formed (locale : string) : bool :=
  (PyStr.len (split_locale locale).1 <? 3)%nat &&
  (PyStr.len (split_locale locale).2 <? 3)%nat.

Definition locale_pair (l : Language.Locale) : string * string :=
  (Language.language_code l, Language.country_code l).

(** [FillTool.get_locales] *)
Definition get_locales (cfg : config) (locales_names : gset string)
  : fillM (gmap string (Z * Language.Locale)) :=
  '(query_locales, json_locales) ←
    for_ (fun (st : list (string * string) * gmap string (string * string))
              locale =>
            let '(language_code, country_code) := split_locale locale in
            if (PyStr.len language_code <? 3)%nat &&
               (PyStr.len country_code <? 3)%nat
            then mret (or_q st.1 (language_code, country_code),
                       <[locale := (language_code, country_code)]> st.2)
            else
              warn ("Dropped locale " ++ locale ++
                    " for not respecting format XX-XX or XX") ≫= fun _ =>
              mret st)
         (elements locales_names) ([], ∅);
  rows ← filter Locale_ (fun _ l => q_match query_locales (locale_pair l));
  let locales := index_by Language.str rows ∅ in
  if bool_decide (size locales ≠ size locales_names) then
    let '(new_locales, new_query) :=
      fold_left
        (fun (st : list Language.Locale * list (string * string))
             json_locale =>
           if bool_decide (json_locale ∈ dom locales) then st
           else match json_locales !! json_locale with
                | Some (language_code, country_code) =>
                    (append st.1 {| Language.language_code := language_code;
                                    Language.country_code := country_code;
                                    Language.name := "" |},
                     or_q st.2 (language_code, country_code))
                | None => st
                end)
        (elements locales_names) ([], []) in
    bulk_create_by_vendor cfg Locale_
      (List.map (fun l => (None, l)) new_locales) ≫= fun _ =>
    rows ← filter Locale_ (fun _ l => q_match new_query (locale_pair l));
    mret (index_by Language.str rows locales)
  else mret locales.

(** [for row in M.objects.filter(query): del d[key(row)]] *)
Definition drop_existing {A} (M : model A) (key : A -> Z * Z)
    (query : list (Z * Z)) (d : gmap (Z * Z) A) : fillM (gmap (Z * Z) A) :=
  rows ← filter M (fun _ r => q_match query (key r));
  pure (for_each (fun d (kr : Z * A) => del (key kr.2) d) rows d).

Definition ig_key (g : ItemGenre) : Z * Z := (ig_item_id g, ig_type_id g).
Definition il_key (l : ItemLocale) : Z * Z := (il_locale_id l, il_item_id l).

(** [FillTool.fill_item_genre] *)
Definition fill_item_genre (cfg : config) (objects : list json_item)
    (items : gmap string (Z * Item)) (genres : gmap string (Z * Genre))
  : fillM unit :=
  if sqlite cfg then
    '(query_item_genres, item_genres, _) ←
      for_ (fun st json_item =>
              json_genres ←
                pure (iterate (or_unit (get (json_genres json_item))));
              for_ (fun (st : list (Z * Z) * gmap (Z * Z) ItemGenre * nat)
                        json_genre =>
                      let '(query, item_genres, i) := st in
                      item ← pure (lookup_or KeyError
                                     (items !! item_eid json_item));
                      genre ← pure (lookup_or KeyError (genres !! json_genre));
                      let query := or_q query (item.1, genre.1) in
                      let item_genres :=
                        <[(item.1, genre.1) :=
                            {| ig_item_id := item.1; ig_type_id := genre.1 |}]>
                          item_genres in
                      let i := S i in
                      if (SQLITE_MAX_ROWS <=? i)%nat then
                        item_genres ←
                          drop_existing ItemGenre_ ig_key query item_genres;
                        mret ([], item_genres, O)
                      else mret (query, item_genres, i))
                   json_genres st)
           objects ([], ∅, O);
    item_genres ←
      drop_existing ItemGenre_ ig_key query_item_genres item_genres;
    for_ (fun _ slice => bulk_create ItemGenre_ slice)
         (slices SQLITE_MAX_ROWS (new_instances item_genres)) tt
  else
    '(query_item_genres, item_genres) ←
      for_ (fun st json_item =>
              json_genres ←
                pure (iterate (or_unit (get (json_genres json_item))));
              for_ (fun (st : list (Z * Z) * gmap (Z * Z) ItemGenre)
                        json_genre =>
                      item ← pure (lookup_or KeyError
                                     (items !! item_eid json_item));
                      genre ← pure (lookup_or KeyError (genres !! json_genre));
                      mret (or_q st.1 (item.1, genre.1),
                            <[(item.1, genre.1) :=
                                {| ig_item_id := item.1;
                                   ig_type_id := genre.1 |}]> st.2))
                   json_genres st)
           objects ([], ∅);
    item_genres ←
      drop_existing ItemGenre_ ig_key query_item_genres item_genres;
    (* bulk_create(item_genres): the dictionary itself is passed, so the
       objects handed over are its keys, which are tuples *)
    if bool_decide (item_genres = ∅) then bulk_create ItemGenre_ []
    else pure (Raise (AttributeError "pk")).

(** [FillTool.fill_item_locale] *)
Definition fill_item_locale (cfg : config) (objects : list json_item)
    (items : gmap string (Z * Item))
    (locales : gmap string (Z * Language.Locale)) : fillM unit :=
  if sqlite cfg then
    '(query_item_locales, item_locales, _) ←
      for_ (fun st json_item =>
              json_locales ←
                pure (iterate (or_unit (get (json_locales json_item))));
              for_ (fun (st : list (Z * Z) * gmap (Z * Z) ItemLocale * nat)
                        locale =>
                      let '(query, item_locales, i) := st in
                      match locales !! locale with
                      | None => mret st
                      | Some loc =>
                          item ← pure (lookup_or KeyError
                                         (items !! item_eid json_item));
                          let query := or_q query (loc.1, item.1) in
                          let item_locales :=
                            <[(loc.1, item.1) :=
                                {| il_locale_id := loc.1;
                                   il_item_id := item.1 |}]> item_locales in
                          let i := S i in
                          if (SQLITE_MAX_ROWS <=? i)%nat then
                            item_locales ←
                              drop_existing ItemLocale_ il_key query
                                            item_locales;
                            mret ([], item_locales, O)
                          else mret (query, item_locales, i)
                      end)
                   json_locales st)
           objects ([], ∅, O);
    item_locales ←
      drop_existing ItemLocale_ il_key query_item_locales item_locales;
    for_ (fun _ slice => bulk_create ItemLocale_ slice)
         (slices SQLITE_MAX_ROWS (new_instances item_locales)) tt
  else
    '(query_item_locales, item_locales) ←
      for_ (fun st json_item =>
              json_locales ←
                pure (iterate (or_unit (get (json_locales json_item))));
              for_ (fun (st : list (Z * Z) * gmap (Z * Z) ItemLocale)
                        locale =>
                      match locales !! locale with
                      | None => mret st
                      | Some loc =>
                          item ← pure (lookup_or KeyError
                                         (items !! item_eid json_item));
                          mret (or_q st.1 (loc.1, item.1),
                                <[(loc.1, item.1) :=
                                    {| il_locale_id := loc.1;
                                       il_item_id := item.1 |}]> st.2)
                      end)
                   json_locales st)
           objects ([], ∅);
    item_locales ←
      drop_existing ItemLocale_ il_key query_item_locales item_locales;
    bulk_create ItemLocale_ (new_instances item_locales).

(** The name given to a new item:
    [json_item["name"][json_item["default_locale"]]], with [KeyError] caught.
    Indexing a string with a string is a [TypeError], which is not caught. *)
Definition name_of (json_item : json_item) : result name_value :=
  match json_name json_item with
  | None => Ok (NameStr "NO NAME")
  | Some n =>
      match default_locale json_item with
      | None => Ok n
      | Some loc =>
          match n with
          | NameDict d =>
              Ok (match assoc loc d with
                  | Some s => NameStr s
                  | None => n
                  end)
          | NameStr _ => Raise TypeError
          end
      end
  end.

(** [{obj[key]: obj for obj in objs}] *)
Definition dict_of {A} (key : A -> string) (objs : list A) : gmap string A :=
  fold_left (fun d o => <[key o := o]> d) objs ∅.

(** [d.keys()] *)
Definition keys {V} (d : gmap string V) : list string := (map_to_list d).*1.

(** The items whose [external_id] is among the keys of [json_items], added
    to [items]: one query per slice of keys for sqlite, one query
    otherwise. *)
Definition known_items {V} (cfg : config) (json_items : gmap string V)
    (items : gmap string (Z * Item)) : fillM (gmap string (Z * Item)) :=
  if sqlite cfg then
    for_ (fun items slice =>
            rows ← filter Item_
                     (fun _ r => bool_decide (external_id r ∈ slice));
            mret (index_by external_id rows items))
         (slices SQLITE_MAX_ROWS (keys json_items)) items
  else
    rows ← filter Item_
             (fun _ r => bool_decide (external_id r ∈ keys json_items));
    mret (index_by external_id rows items).

(** The body of the loop over [json_items.items()]. *)
Definition collect_item (items : gmap string (Z * Item))
    (st : gmap string Item * gset string * gset string)
    (entry : string * json_item)
  : result (gmap string Item * gset string * gset string) :=
  let '(new_items, categories, locales) := st in
  let '(item_eid, json_item) := entry in
  new_items ←
    (if bool_decide (item_eid ∈ dom items) then Ok new_items
     else name ← name_of json_item;
          Ok (<[item_eid := {| external_id := item_eid; name := name |}]>
                new_items));
  let json_categories := or_unit (get (json_genres json_item)) in
  categories ←
    match json_categories with
    | PStr s => Ok (categories ∪ {[s]})
    | _ =>
        v ← subscript (json_genres json_item);
        xs ← iterate v;
        Ok (categories ∪ list_to_set xs)
    end;
  let json_locales := or_unit (get (json_locales json_item)) in
  locales ←
    match json_locales with
    | PStr s => Ok (locales ∪ {[s]})
    | _ => xs ← iterate json_locales; Ok (locales ∪ list_to_set xs)
    end;
  Ok (new_items, categories, locales).

(** [assert cond] *)
Definition assert (cond : bool) : fillM unit :=
  pure (if cond then Ok tt else Raise AssertionError).

(** [FillTool.fill_db_with_items]; the value is [self.objects] after the
    call. *)
Definition fill_db_with_items (cfg : config) (objects : list json_item)
  : fillM (list json_item) :=
  let objs := List.filter is_item objects in
  let json_items := dict_of item_eid objs in
  items ← known_items cfg json_items ∅;
  '(new_items, categories, locales) ←
    pure (for_each (collect_item items) (map_to_list json_items) (∅, ∅, ∅));
  bulk_create_by_vendor cfg Item_ (new_instances new_items) ≫= fun _ =>
  items ← known_items cfg json_items items;
  assert (bool_decide (size items = length objs)) ≫= fun _ =>
  (if diversity cfg && negb (testing_mode cfg) then
     db_categories ← get_genres cfg categories;
     fill_item_genre cfg objs items db_categories
   else mret tt) ≫= fun _ =>
  (if language cfg && negb (testing_mode cfg) then
     db_locales ← get_locales cfg locales;
     fill_item_locale cfg objs items db_locales
   else mret tt) ≫= fun _ =>
  mret objs.

(** The (item, user) pair of an inventory record and its two dates; an
    [Inventory] instance is its primary key, if it has one, with its
    fields. *)
Definition inv_dates (inv : Inventory) : Z * option Z :=
  (acquisition_date inv, dropped_date inv).

Definition inv_key (inv : Inventory) : Z * Z := (item_id inv, user_id inv).

(** [datetime.strptime(json_item[field], self.date_format)] for the value
    of the field: a missing field is the [KeyError] of the subscript, null is
    refused by [strptime] with [TypeError], a text that is not of the format
    with [ValueError]. *)
Definition strptime_field (cfg : config) (value : date_field) : result Z :=
  match value with
  | NoDate => Raise KeyError
  | NullDate => Raise TypeError
  | DateText text =>
      lookup_or ValueError (strptime cfg text (date_format cfg))
  end.

(** The dates [datetime.strptime] reads from a listing; the dropped date is
    read when the field is in the entry. *)
Definition parse_dates (cfg : config) (json_item : json_listing)
  : result (Z * option Z) :=
  acquisition_date ← strptime_field cfg (acquired json_item);
  dropped_date ←
    match dropped json_item with
    | NoDate => Ok None
    | value => Some <$> strptime_field cfg value
    end;
  Ok (acquisition_date, dropped_date).

(** The first loop of [fill_inventory], for one listing of one user. *)
Definition collect_listing (cfg : config) (users : gmap string (Z * User))
    (items : gmap string (Z * Item)) (json_user : json_user)
    (st : list (Z * Z) * gmap (Z * Z) (option Z * Inventory))
    (json_item : json_listing)
  : fillM (list (Z * Z) * gmap (Z * Z) (option Z * Inventory)) :=
  match items !! listing_eid json_item with
  | None =>
      warn ("Item with external_id " ++ listing_eid json_item ++
            " does not exist!") ≫= fun _ => mret st
  | Some item =>
      user ← pure (lookup_or KeyError (users !! user_eid json_user));
      let query_inventory := or_q st.1 (item.1, user.1) in
      dates ← pure (parse_dates cfg json_item);
      let inv := {| item_id := item.1; user_id := user.1;
                    acquisition_date := dates.1; dropped_date := dates.2 |} in
      mret (query_inventory, <[(item.1, user.1) := (None, inv)]> st.2)
  end.

(** The second loop of [fill_inventory], for one stored row. *)
Definition reconcile (inventory : gmap (Z * Z) (option Z * Inventory))
    (row : Z * Inventory) : gmap (Z * Z) (option Z * Inventory) :=
  let '(pk, inv) := row in
  match inventory !! inv_key inv with
  | Some (_, tmp_inv) =>
      if bool_decide (acquisition_date inv ≠ acquisition_date tmp_inv) ||
         bool_decide (dropped_date inv ≠ dropped_date tmp_inv)
      then
        <[inv_key inv :=
            (Some pk, {| item_id := item_id inv; user_id := user_id inv;
                         acquisition_date := acquisition_date tmp_inv;
                         dropped_date := dropped_date tmp_inv |})]> inventory
      else delete (inv_key inv) inventory
  | None => inventory
  end.

(** The first loop of [fill_inventory]: the query and the incoming records
    by (item, user) pair. *)
Definition collect_inventory (cfg : config) (objects : list json_user)
    (users : gmap string (Z * User)) (items : gmap string (Z * Item))
  : fillM (list (Z * Z) * gmap (Z * Z) (option Z * Inventory)) :=
  for_ (fun st json_user =>
          for_ (collect_listing cfg users items json_user)
               (user_items json_user) st)
       objects ([], ∅).

(** The second loop of [fill_inventory]: the instances handed to
    [bulk_create], the incoming records gone through against the stored
    rows. *)
Definition reconcile_inventory (query_inventory : list (Z * Z))
    (inventory : gmap (Z * Z) (option Z * Inventory))
  : fillM (list (option Z * Inventory)) :=
  rows ← filter Inventory_ (fun _ inv => q_match query_inventory (inv_key inv));
  let inventory := fold_left reconcile rows inventory in
  mret (map_to_list inventory).*2.

(** [FillTool.fill_inventory] *)
Definition fill_inventory (cfg : config) (objects : list json_user)
    (users : gmap string (Z * User)) (items : gmap string (Z * Item))
  : fillM unit :=
  '(query_inventory, inventory) ← collect_inventory cfg objects users items;
  batch ← reconcile_inventory query_inventory inventory;
  bulk_create Inventory_ batch.

(** [FillTool.fill_db_with_users] *)
Definition fill_db_with_users (cfg : config) (objects : list json_user)
  : fillM (list json_user) :=
  let objs := List.filter is_user objects in
  let json_users := dict_of user_eid objs in
  rows ← filter User_
           (fun _ u => bool_decide (user_external_id u ∈ keys json_users));
  let users := index_by user_external_id rows ∅ in
  let '(new_users, item_eids) :=
    fold_left
      (fun (st : gmap string User * gset string)
           (entry : string * json_user) =>
         let '(user_eid, json_user) := entry in
         ((if bool_decide (user_eid ∈ dom users) then st.1
           else <[user_eid := {| user_external_id := user_eid |}]> st.1),
          st.2 ∪ list_to_set (List.map listing_eid (user_items json_user))))
      (map_to_list json_users) (∅, ∅) in
  bulk_create User_ (new_instances new_users) ≫= fun _ =>
  rows ← filter User_
           (fun _ u => bool_decide (user_external_id u ∈ keys new_users));
  let users := index_by user_external_id rows users in
  assert (bool_decide (size users = length objs)) ≫= fun _ =>
  rows ← filter Item_ (fun _ r => bool_decide (external_id r ∈ item_eids));
  let items := index_by external_id rows ∅ in
  fill_inventory cfg objs users items ≫= fun _ =>
  mret objs.

(** [FillTool.fill_db] *)
Definition fill_db (cfg : config) (is_item_load : bool)
    (item_objects : list json_item) (user_objects : list json_user)
  : fillM unit :=
  if is_item_load then fill_db_with_items cfg item_objects ≫= fun _ => mret tt
  else fill_db_with_users cfg user_objects ≫= fun _ => mret tt.

End Fill.

(* ==== END OF DEFINITIONS ==== *)

(** * Properties *)

(** ** Loops and strings *)

Lemma bind_Ok {A B} (a : A) (f : A -> result B) : (Ok a ≫= f) = f a.
Proof. reflexivity. Qed.

Lemma bind_Raise {A B} (e : pyexc) (f : A -> result B) :
  (Raise e ≫= f) = Raise e.
Proof. reflexivity. Qed.

Lemma for_each_app {A S} (body : S -> A -> result S) xs ys st :
  for_each body (xs ++ ys) st = st' ← for_each body xs st; for_each body ys st'.
Proof.
  revert st. induction xs as [|x xs IH]; intros st; simpl; [done|].
  destruct (body st x); simpl; [apply IH | done].
Qed.

Import PyStr.

Lemma lower_char_no_upper c : is_upper_char (lower_char c) = false.
Proof. destruct c as [[] [] [] [] [] [] [] []]; reflexivity. Qed.

Lemma lower_no_upper s : no_upper (lower s) = true.
Proof.
  induction s as [|c s IH]; simpl; [done|].
  by rewrite lower_char_no_upper, IH.
Qed.

Lemma lower_fixed s : no_upper s = true -> lower s = s.
Proof.
  induction s as [|c s IH]; simpl; [done|].
  intros [Hc Hs]%andb_prop. rewrite (IH Hs). unfold lower_char.
  by destruct (is_upper_char c).
Qed.

Lemma lower_idem s : lower (lower s) = lower s.
Proof. apply lower_fixed, lower_no_upper. Qed.

Lemma lower_length s : len (lower s) = len s.
Proof. induction s; simpl; [done|]. unfold len in *. simpl. lia. Qed.

Lemma split_nonempty sep s : split sep s <> [].
Proof.
  destruct s as [|c s]; simpl; [done|].
  destruct (Ascii.eqb c sep); [done|]. by destruct (split sep s).
Qed.

(** ** Locale.save *)

Lemma next_pk_fresh {A} (t : gmap Z A) : t !! Db.next_pk t = None.
Proof. apply not_elem_of_dom. unfold Db.next_pk. apply is_fresh. Qed.

(** C8.  Every locale written by [Locale.save] is stored with its language
    code and its country code in lower case (the lowered form of whatever was
    assigned before the call), under its own key or a new one; no other row
    is touched, and a table whose rows all have lower case codes stays so
    after every save. *)
Theorem locale_save_lower_case (pk : option Z) (self : Language.Locale)
    (t : gmap Z Language.Locale) :
  exists k stored,
    Language.save pk self t = ((k, stored), <[k := stored]> t) /\
    (forall k0, pk = Some k0 -> k = k0) /\
    (pk = None -> t !! k = None) /\
    Language.language_code stored = PyStr.lower (Language.language_code self) /\
    Language.country_code stored = PyStr.lower (Language.country_code self) /\
    Language.name stored = Language.name self /\
    Language.lower_codes stored /\
    ((forall k' l, t !! k' = Some l -> Language.lower_codes l) ->
     forall k' l, (Language.save pk self t).2 !! k' = Some l ->
                  Language.lower_codes l).
Proof.
  unfold Language.save, Db.save. simpl.
  eexists _, _. split; [reflexivity|]. simpl.
  assert (Hl : Language.lower_codes
     {| Language.language_code := lower (Language.language_code self);
        Language.country_code := lower (Language.country_code self);
        Language.name := Language.name self |}).
  { split; apply lower_no_upper. }
  split; [by intros k0 ->|].
  split; [intros ->; apply next_pk_fresh|].
  split; [done|]. split; [done|]. split; [done|]. split; [done|].
  intros Hinv k' l. rewrite lookup_insert.
  case_decide; [by intros [= <-] | apply Hinv].
Qed.

Lemma locale_save_lower_case_witness :
  let pt := {| Language.language_code := "pt";
               Language.country_code := "br"; Language.name := "" |} in
  let en := {| Language.language_code := "EN";
               Language.country_code := "Us"; Language.name := "" |} in
  (exists k stored,
     (Language.save None en {[1 := pt]}).2 !! k = Some stored /\
     Language.language_code stored = "en" /\
     Language.country_code stored = "us") /\
  (forall k l, (Language.save None en {[1 := pt]}).2 !! k = Some l ->
               Language.lower_codes l).
Proof.
  intros pt en.
  destruct (locale_save_lower_case None en {[1 := pt]})
    as (k & stored & H1 & _ & _ & H2 & H3 & _ & _ & Hinv).
  split.
  - exists k, stored. rewrite H1. simpl. rewrite lookup_insert_eq.
    repeat split; assumption.
  - apply Hinv. intros k' l [<- <-]%lookup_singleton_Some. by split.
Defined.

(** ** The locale item caches *)

Definition signal (k : Z) (a : string) (l : list Z) : Language.m2m_changed :=
  {| Language.instance_pk := k; Language.action := a; Language.pk_set := l |}.

(** C10.  The handler does not keep the two item caches consistent.  Under
    the action name it tests for, adding item 1 to locale 7 and then to
    locale 5 leaves locale 5 out of the item's entry of [item_locales] while
    item 1 is recorded under locale 5 in [items_by_locale]: the default of
    [get] is the only place where the locale key is added.  Under the action
    name of an add, [post_add], the handler records nothing at all, and a
    remove raises [AttributeError] on [Locale.items_by_locales] after having
    updated [item_locales] alone. *)
Theorem item_caches_diverge :
  let c := Language.handle_all
             [signal 7 "post_save" [1]; signal 5 "post_save" [1]]
             Language.no_caches in
  ((5 ∉ Language.get (Language.item_locales c) 1 ∅) /\
   (1 ∈ Language.get (Language.items_by_locale c) 5 ∅) /\
   ~ Language.consistent c) /\
  Language.handle_all [signal 5 "post_add" [1]] Language.no_caches
    = Language.no_caches /\
  (Language.add_item_locale_to_cache (signal 7 "post_remove" [1]) c).2
    = Raise (AttributeError "items_by_locales") /\
  ~ Language.consistent
      (Language.add_item_locale_to_cache (signal 7 "post_remove" [1]) c).1.
Proof.
  intros c.
  assert (H5 : 5 ∉ Language.get (Language.item_locales c) 1 ∅).
  { apply (bool_decide_unpack _). by vm_compute. }
  assert (H1 : 1 ∈ Language.get (Language.items_by_locale c) 5 ∅).
  { apply (bool_decide_unpack _). by vm_compute. }
  split; [|split; [|split]].
  - split; [done|]. split; [done|].
    intros Hc. apply H5. by apply Hc.
  - reflexivity.
  - by vm_compute.
  - intros Hc. specialize (Hc 1 7). cbv zeta in Hc.
    assert (H7 : 1 ∈ Language.get (Language.items_by_locale
               (Language.add_item_locale_to_cache
                  (signal 7 "post_remove" [1]) c).1) 7 ∅).
    { apply (bool_decide_unpack _). by vm_compute. }
    apply Hc in H7. revert H7. apply (bool_decide_unpack _). by vm_compute.
Qed.

(** ** Predictor.get_class *)

Definition tensor_path : string := "frappe.predictors.TensorCoFi".

(** A package [frappe] whose submodule [predictors] defines [TensorCoFi]. *)
Definition frappe_pkg : list (string * Frappe.pymodule) :=
  [("frappe",
    Frappe.PyModule []
      [("predictors", Frappe.PyModule [("TensorCoFi", tensor_path)] [])])].

(** The same, with another class bound as [TensorCoFi] in the package. *)
Definition frappe_pkg_shadow : list (string * Frappe.pymodule) :=
  [("frappe",
    Frappe.PyModule [("TensorCoFi", "frappe.TensorCoFi")]
      [("predictors", Frappe.PyModule [("TensorCoFi", tensor_path)] [])])].

Definition tensor_world (sys : list (string * Frappe.pymodule)) : Frappe.world :=
  {| Frappe.predictors :=
       {[1 := {| Frappe.identifier := "tensor";
                 Frappe.python_class := tensor_path |}]};
     Frappe.modules := ∅;
     Frappe.aggregators := ∅;
     Frappe.sys_modules := sys;
     Frappe.load_predictor := fun _ _ _ => Raise TypeError |}.

(** What [get_class] returns when it returns a class: the class bound under
    the last component of the path in the top-level package, whatever the
    components in between are. *)
Lemma get_class_package_attribute (w : Frappe.world) (pid : Z) (c : string) :
  Frappe.get_class w pid = Ok (Frappe.ObjClass c) ->
  exists p top rest cls m,
    Frappe.predictors w !! pid = Some p /\
    PyStr.split "." (PyStr.join "." (Frappe.init
        (PyStr.split "." (Frappe.python_class p)))) = top :: rest /\
    last (PyStr.split "." (Frappe.python_class p)) = Some cls /\
    assoc top (Frappe.sys_modules w) = Some m /\
    assoc cls (Frappe.classes_of m) = Some c.
Proof.
  unfold Frappe.get_class, Frappe.Predictor_get_predictor, Frappe.final.
  destruct (Frappe.predictors w !! pid) as [p|] eqn:Hp; simpl; [|done].
  destruct (last _) as [cls|] eqn:Hcls; simpl; [|done].
  unfold Frappe.import_.
  destruct (String.eqb _ ""); simpl; [done|].
  destruct (PyStr.split "." (PyStr.join _ _)) as [|top rest] eqn:Hs;
    simpl; [done|].
  destruct (assoc top _) as [m|] eqn:Hm; simpl; [|done].
  destruct (Frappe.submodule m rest); simpl; [|done].
  destruct (assoc cls (Frappe.classes_of m)) as [c'|] eqn:Hc; simpl.
  - intros [= <-]. by exists p, top, rest, cls, m.
  - destruct rest as [|r rest']; [done|].
    destruct (String.eqb r cls); [|done].
    by destruct (assoc cls (Frappe.submodules_of m)).
Qed.

(** C3.  For the path [frappe.predictors.TensorCoFi] the class the path
    denotes is the one defined in [frappe.predictors], but [get_class] (and
    [check_predictor], which has the same code) looks the name up in the
    top-level package [frappe], which [__import__] returns: it raises
    [AttributeError] when the package does not bind the name, and returns the
    package's own class when it binds one. *)
Theorem get_class_reads_top_level_package :
  Frappe.denoted_class frappe_pkg tensor_path = Some tensor_path /\
  Frappe.get_class (tensor_world frappe_pkg) 1
    = Raise (AttributeError "TensorCoFi") /\
  Frappe.check_predictor (tensor_world frappe_pkg)
      {| Frappe.identifier := "tensor"; Frappe.python_class := tensor_path |}
    = Raise (AttributeError "TensorCoFi") /\
  Frappe.denoted_class frappe_pkg_shadow tensor_path = Some tensor_path /\
  Frappe.get_class (tensor_world frappe_pkg_shadow) 1
    = Ok (Frappe.ObjClass "frappe.TensorCoFi").
Proof. repeat split; by vm_compute. Qed.

(** ** Module.aggregate *)

Definition two_rows : gmap Z Frappe.PredictorWithAggregator :=
  {[10 := {| Frappe.predictor_id := 1; Frappe.module_id := 1;
             Frappe.weight := Some (1 # 1)%Q |};
    11 := {| Frappe.predictor_id := 2; Frappe.module_id := 1;
             Frappe.weight := Some (1 # 1)%Q |}]}.

Definition two_predictors : gmap Z Frappe.Predictor :=
  {[1 := {| Frappe.identifier := "a"; Frappe.python_class := "m.A" |};
    2 := {| Frappe.identifier := "b"; Frappe.python_class := "m.B" |}]}.

Definition module_one : Frappe.Module :=
  {| Frappe.pk := 1; Frappe.module_identifier := "one" |}.

Definition aggregate_world : Frappe.world :=
  {| Frappe.predictors := two_predictors;
     Frappe.modules := {[1 := module_one]};
     Frappe.aggregators := two_rows;
     Frappe.sys_modules :=
       [("m", Frappe.PyModule [("A", "m.A"); ("B", "m.B")] [])];
     Frappe.load_predictor := fun cls _ _ =>
       match cls with
       | Frappe.ObjClass c =>
           if String.eqb c "m.A"
           then Ok (fun _ _ => Ok (Frappe.Array [1 # 1; 2 # 1]%Q))
           else Ok (fun _ _ => Ok (Frappe.Array [3 # 1; 4 # 1]%Q))
       | Frappe.ObjModule _ => Raise TypeError
       end |}.

(** C2.  With the predictions [1, 2] and [3, 4] of two predictors of weight 1
    the weighted sum of the predictions is [4, 6]; [aggregate] returns the
    number 10, since [np.sum] without an axis adds up all entries of all
    predictions. *)
Theorem aggregate_adds_up_all_entries :
  Frappe.aggregate aggregate_world module_one
      {[1 := Frappe.Array [1 # 1; 2 # 1]%Q; 2 := Frappe.Array [3 # 1; 4 # 1]%Q]}
    = Ok (Frappe.Scalar (10 # 1)%Q) /\
  Frappe.weighted_sum
      [(Frappe.Array [1 # 1; 2 # 1]%Q, (1 # 1)%Q);
       (Frappe.Array [3 # 1; 4 # 1]%Q, (1 # 1)%Q)]
    = Some (Frappe.Array [4 # 1; 6 # 1]%Q).
Proof. split; by vm_compute. Qed.

(** ** Module.predict_scores *)

(** Were the two accessors bound, the stages would run in the order of the
    source from the predictor keys on: predictors, aggregate, all filters,
    then all re-rankers. *)
Lemma predict_scores_stages (attrs : gmap string Frappe.accessor)
    (w : Frappe.world) (self : Frappe.Module) (user size : Z)
    (predictor_ids : list Z)
    (get_filters get_re_renkers : Frappe.accessor) :
  attrs !! "get_filters" = Some get_filters ->
  attrs !! "get_re_renkers" = Some get_re_renkers ->
  Frappe.predict_scores_from predictor_ids attrs w self user size =
    (recommendations ←
       for_each (fun (d : gmap Z Frappe.ndarray) predictor_id =>
                   f ← Frappe.get_predictor w (Frappe.pk self) predictor_id;
                   r ← f user size;
                   Ok (<[predictor_id := r]> d))
                predictor_ids ∅;
     aggregated ← Frappe.aggregate w self recommendations;
     filters ← get_filters (Frappe.pk self);
     filtered ← for_each (fun r (f : Frappe.stage_fn) => f r size)
                         filters aggregated;
     rerankers ← get_re_renkers (Frappe.pk self);
     for_each (fun r (f : Frappe.stage_fn) => f r size) rerankers filtered).
Proof.
  intros Hf Hr. unfold Frappe.predict_scores_from.
  destruct (for_each _ _ ∅) as [recs|]; [rewrite !bind_Ok|done].
  destruct (Frappe.aggregate w self recs) as [agg|]; [rewrite !bind_Ok|done].
  rewrite Hf. unfold lookup_or. rewrite !bind_Ok.
  destruct (get_filters (Frappe.pk self)) as [fs|]; [rewrite !bind_Ok|done].
  destruct (for_each _ fs agg) as [filtered|]; [rewrite !bind_Ok|done].
  by rewrite Hr.
Qed.

(** C1.  [predict_scores] never returns a recommendation.  Whatever the
    tables, the user and the size, the call ends in the [FieldError] of
    [get_predictors], whose keyword [modules_id] names nothing of
    [Predictor] (the keyword [modules__id] would be resolved), so that no
    predictor is called.  And from the predictor keys on, whatever they are,
    the body ends in an exception as well: once the predictors have run and
    their results are aggregated it is the [AttributeError] of
    [self.get_filters], a name the class does not define; for a module
    without predictors the aggregate is 0 and the body raises that error. *)
Theorem predict_scores_raises (w : Frappe.world) (self : Frappe.Module)
    (user size : Z) :
  (exists e,
     Frappe.predict_scores Frappe.Module_attrs w self user size = Raise e) /\
  Frappe.predict_scores Frappe.Module_attrs w self user size
    = Raise (FieldError "modules_id") /\
  Frappe.filter_by_module "modules__id" w (Frappe.pk self)
    = Ok (Frappe.related_predictors w (Frappe.pk self)) /\
  (forall predictor_ids, exists e,
     Frappe.predict_scores_from predictor_ids Frappe.Module_attrs w self
                                user size = Raise e) /\
  (forall predictor_ids recs agg,
     for_each (fun (d : gmap Z Frappe.ndarray) predictor_id =>
                 f ← Frappe.get_predictor w (Frappe.pk self) predictor_id;
                 r ← f user size;
                 Ok (<[predictor_id := r]> d))
              predictor_ids ∅ = Ok recs ->
     Frappe.aggregate w self recs = Ok agg ->
     Frappe.predict_scores_from predictor_ids Frappe.Module_attrs w self
                                user size
       = Raise (AttributeError "get_filters")) /\
  Frappe.predict_scores_from []
      Frappe.Module_attrs
      {| Frappe.predictors := ∅; Frappe.modules := {[1 := module_one]};
         Frappe.aggregators := ∅; Frappe.sys_modules := [];
         Frappe.load_predictor := fun _ _ _ => Raise TypeError |}
      module_one user size
    = Raise (AttributeError "get_filters").
Proof.
  split; [by eexists|]. split; [reflexivity|]. split; [reflexivity|].
  split; [|split].
  - intros pids. unfold Frappe.predict_scores_from.
    destruct (for_each _ _ ∅) as [recs|e]; simpl; [|by exists e].
    destruct (Frappe.aggregate w self recs) as [agg|e]; simpl; [|by exists e].
    by eexists.
  - intros pids recs agg Hrecs Hagg. unfold Frappe.predict_scores_from.
    rewrite Hrecs. simpl. by rewrite Hagg.
  - reflexivity.
Qed.

Lemma predict_scores_raises_witness :
  Frappe.predict_scores Frappe.Module_attrs aggregate_world module_one 7 10
    = Raise (FieldError "modules_id") /\
  Frappe.predict_scores_from (Frappe.related_predictors aggregate_world 1)
      Frappe.Module_attrs aggregate_world module_one 7 10
    = Raise (AttributeError "get_filters").
Proof.
  destruct (predict_scores_raises aggregate_world module_one 7 10)
    as (_ & Hfield & _ & _ & H & _).
  split; [exact Hfield|].
  apply (H _ {[1 := Frappe.Array [1 # 1; 2 # 1]%Q;
              2 := Frappe.Array [3 # 1; 4 # 1]%Q]}
           (Frappe.Scalar (10 # 1)%Q)); by vm_compute.
Defined.


(** ** The store *)

Local Open Scope list_scope.

Lemma insert_Ok {A} (clash : A -> A -> bool) pko (a : A) t t' :
  Db.insert clash pko a t = Ok t' ->
  exists k, t !! k = None /\ t' = <[k := a]> t /\
            (forall j, pko = Some j -> k = j) /\
            (forall pk b, t !! pk = Some b -> clash b a = false).
Proof.
  unfold Db.insert.
  set (k := match pko with None => Db.next_pk t | Some k => k end).
  case_bool_decide as Hk; [done|].
  destruct (existsb _ _) eqn:Hclash; [done|]. intros [= <-].
  exists k. split; [by apply eq_None_not_Some|]. split; [done|]. split.
  - by intros j ->.
  - intros pk b Hb. destruct (clash b a) eqn:Hc; [|done]. exfalso.
    apply not_true_iff_false in Hclash. apply Hclash.
    apply existsb_exists. exists (pk, b). split; [|done].
    apply list_elem_of_In. by apply elem_of_map_to_list.
Qed.

Lemma insert_raises {A} (clash : A -> A -> bool) pko (a : A) t e :
  Db.insert clash pko a t = Raise e -> e = IntegrityError.
Proof.
  unfold Db.insert. case_bool_decide; [congruence|].
  destruct (existsb _ _); congruence.
Qed.

(** A row that clashes with no stored row is inserted under a new key. *)
Lemma insert_new {A} (clash : A -> A -> bool) (a : A) t :
  (forall pk b, t !! pk = Some b -> clash b a = false) ->
  Db.insert clash None a t = Ok (<[Db.next_pk t := a]> t).
Proof.
  intros Hfree. unfold Db.insert.
  rewrite bool_decide_eq_false_2
    by (rewrite next_pk_fresh; by intros [? ?]).
  destruct (existsb _ _) eqn:Hclash; [|done]. exfalso.
  apply existsb_exists in Hclash as ([pk b] & Hin & Hc).
  apply list_elem_of_In, elem_of_map_to_list in Hin. simpl in Hc.
  by rewrite (Hfree _ _ Hin) in Hc.
Qed.

(** What a run of inserts that goes through does to the table. *)
Lemma inserts_Ok {A} (clash : A -> A -> bool) (objs : list (option Z * A))
    t t' :
  for_each (fun t o => Db.insert clash o.1 o.2 t) objs t = Ok t' ->
  (forall pk a, t !! pk = Some a -> t' !! pk = Some a) /\
  (forall pko a, (pko, a) ∈ objs ->
     exists pk, t !! pk = None /\ t' !! pk = Some a /\
                (forall j, pko = Some j -> pk = j)) /\
  (forall pk r, t' !! pk = Some r ->
     t !! pk = Some r \/ (t !! pk = None /\ exists pko, (pko, r) ∈ objs)).
Proof.
  revert t. induction objs as [|[pko a] objs IH]; intros t.
  - intros [= <-]. split; [done|]. split; [|by left].
    intros ? ? H. by apply elem_of_nil in H.
  - cbn [for_each fst snd].
    destruct (Db.insert clash pko a t) as [t1|] eqn:Hins;
      [rewrite bind_Ok | by rewrite bind_Raise].
    intros Hrest.
    destruct (IH _ Hrest) as (Hkeep & Hnew & Hinv).
    apply insert_Ok in Hins as (k & Hfree & -> & Hkey & _).
    split; [|split].
    + intros pk b Hb. apply Hkeep. rewrite lookup_insert_ne; [done|].
      intros ->. congruence.
    + intros pko' b [[= -> ->]|Hin]%elem_of_cons.
      * exists k. split; [done|]. split; [|done].
        apply Hkeep, lookup_insert_eq.
      * destruct (Hnew _ _ Hin) as (pk & Hnone & Hsome & Hj).
        exists pk. apply lookup_insert_None in Hnone as [Hnone _]. done.
    + intros pk r Hr. destruct (Hinv _ _ Hr) as [H1|[H1 [pko' Hin]]].
      * destruct (decide (k = pk)) as [->|Hne].
        -- rewrite lookup_insert_eq in H1. injection H1 as ->. right.
           split; [done|]. exists pko. by left.
        -- rewrite lookup_insert_ne in H1 by done. by left.
      * apply lookup_insert_None in H1 as [H1 _]. right. split; [done|].
        exists pko'. by right.
Qed.

Lemma inserts_raise {A} (clash : A -> A -> bool) (objs : list (option Z * A))
    t e :
  for_each (fun t o => Db.insert clash o.1 o.2 t) objs t = Raise e ->
  e = IntegrityError.
Proof.
  revert t. induction objs as [|[pko a] objs IH]; intros t; [done|].
  cbn [for_each fst snd].
  destruct (Db.insert clash pko a t) as [t1|e1] eqn:Hins.
  - rewrite bind_Ok. apply IH.
  - rewrite bind_Raise. intros [= <-]. by apply insert_raises in Hins.
Qed.

Lemma elem_of_partition {A} (objs : list (option Z * A)) o :
  o ∈ Db.with_pk objs ++ Db.without_pk objs <-> o ∈ objs.
Proof.
  unfold Db.with_pk, Db.without_pk.
  rewrite elem_of_app, !list_elem_of_In, !filter_In.
  destruct (bool_decide (is_Some o.1)); simpl; intuition congruence.
Qed.

(** A batch that goes through leaves the stored rows as they are. *)
Lemma bulk_create_keeps {A} (clash : A -> A -> bool) objs t t' pk (a : A) :
  Db.bulk_create clash objs t = Ok t' ->
  t !! pk = Some a -> t' !! pk = Some a.
Proof. intros H. by apply (inserts_Ok _ _ _ _ H). Qed.

(** Every instance of a batch that goes through is a row afterwards, under
    its key if it has one, and under a key that was free. *)
Lemma bulk_create_new {A} (clash : A -> A -> bool) objs t t' pko (a : A) :
  Db.bulk_create clash objs t = Ok t' ->
  (pko, a) ∈ objs ->
  exists pk, t !! pk = None /\ t' !! pk = Some a /\
             (forall j, pko = Some j -> pk = j).
Proof.
  intros H Hin. apply (inserts_Ok _ _ _ _ H). by apply elem_of_partition.
Qed.

(** Every row of the table after the batch was there before or is an
    instance of the batch under a key that was free. *)
Lemma bulk_create_inv {A} (clash : A -> A -> bool) objs t t' pk (r : A) :
  Db.bulk_create clash objs t = Ok t' ->
  t' !! pk = Some r ->
  t !! pk = Some r \/ (t !! pk = None /\ exists pko, (pko, r) ∈ objs).
Proof.
  intros H Hr. destruct (inserts_Ok _ _ _ _ H) as (_ & _ & Hinv).
  destruct (Hinv _ _ Hr) as [?|[? [pko Hin]]]; [by left|]. right.
  split; [done|]. exists pko. by apply elem_of_partition.
Qed.

Lemma bulk_create_raises {A} (clash : A -> A -> bool) objs (t : gmap Z A) e :
  Db.bulk_create clash objs t = Raise e -> e = IntegrityError.
Proof. apply inserts_raise. Qed.

(** A batch with an instance whose key is taken is refused: [bulk_create]
    does not update. *)
Lemma bulk_create_taken {A} (clash : A -> A -> bool) objs t j (a : A) :
  (Some j, a) ∈ objs -> is_Some (t !! j) ->
  Db.bulk_create clash objs t = Raise IntegrityError.
Proof.
  intros Hin [b Hb].
  destruct (Db.bulk_create clash objs t) as [t'|e] eqn:Hrun.
  - destruct (bulk_create_new _ _ _ _ _ _ Hrun Hin) as (pk & Hnone & _ & Hj).
    rewrite (Hj j eq_refl) in Hnone. congruence.
  - by rewrite (bulk_create_raises _ _ _ _ Hrun).
Qed.

Lemma with_pk_keyless {A} (objs : list (option Z * A)) :
  (forall o, o ∈ objs -> o.1 = None) ->
  Db.with_pk objs = [] /\ Db.without_pk objs = objs.
Proof.
  unfold Db.with_pk, Db.without_pk.
  induction objs as [|[pko a] objs IH]; intros Hall; [done|].
  destruct (IH (fun o H => Hall o (list_elem_of_further _ _ _ H))) as [H1 H2].
  assert (pko = None) as -> by (apply (Hall (pko, a)); by left).
  simpl. by rewrite H1, H2.
Qed.

(** A batch of instances without keys is a run of inserts in the order of
    the batch. *)
Lemma bulk_create_keyless {A} (clash : A -> A -> bool) objs (t : gmap Z A) :
  (forall o, o ∈ objs -> o.1 = None) ->
  Db.bulk_create clash objs t
  = for_each (fun t o => Db.insert clash o.1 o.2 t) objs t.
Proof.
  intros Hall. unfold Db.bulk_create.
  by destruct (with_pk_keyless objs Hall) as [-> ->].
Qed.

(** On a table without constraint, a batch of instances without keys goes
    through. *)
Lemma bulk_create_free {A} (objs : list (option Z * A)) (t : gmap Z A) :
  (forall o, o ∈ objs -> o.1 = None) ->
  exists t', Db.bulk_create Fill.no_constraint objs t = Ok t'.
Proof.
  intros Hall. rewrite bulk_create_keyless by done. revert t.
  induction objs as [|[pko a] objs IH]; intros t; [by eexists|].
  assert (pko = None) as -> by (apply (Hall (pko, a)); by left).
  cbn [for_each fst snd]. rewrite insert_new by done. rewrite bind_Ok.
  apply IH. intros o Ho. apply Hall. by right.
Qed.

(** Two batches of instances without keys, one after the other, do what
    the one batch of all the instances does. *)
Lemma bulk_create_keyless_app {A} (clash : A -> A -> bool) xs ys
    (t : gmap Z A) :
  (forall o, o ∈ xs ++ ys -> o.1 = None) ->
  Db.bulk_create clash (xs ++ ys) t
  = (t1 ← Db.bulk_create clash xs t; Db.bulk_create clash ys t1).
Proof.
  intros Hall. rewrite !bulk_create_keyless, for_each_app.
  - destruct (for_each _ xs t) as [t1|]; [|done].
    rewrite !bind_Ok. by rewrite bulk_create_keyless
      by (intros o Ho; apply Hall, elem_of_app; by right).
  - intros o Ho. apply Hall, elem_of_app. by left.
  - done.
Qed.

(** The rows a query returns are rows of the table, each once. *)
Lemma select_spec {A} (p : Z -> A -> bool) (t : gmap Z A) (k : Z) (r : A) :
  (k, r) ∈ Db.select p t <-> t !! k = Some r /\ p k r = true.
Proof.
  unfold Db.select, Db.rows. rewrite list_elem_of_In, filter_In.
  rewrite <- list_elem_of_In, elem_of_map_to_list. simpl. tauto.
Qed.

Lemma select_NoDup {A} (p : Z -> A -> bool) (t : gmap Z A) :
  NoDup (Db.select p t).
Proof.
  unfold Db.select, Db.rows.
  apply NoDup_ListNoDup, List.NoDup_filter, NoDup_ListNoDup, NoDup_map_to_list.
Qed.

(** ** Computations on the store *)

(** A property of the database that a computation keeps, whether it
    returns or raises. *)
Definition keeps {A} (P : Fill.db -> Prop) (m : Fill.fillM A) : Prop :=
  forall d, P d -> P (m d).1.

Lemma keeps_bind {A B} P (m : Fill.fillM A) (f : A -> Fill.fillM B) :
  keeps P m -> (forall a, keeps P (f a)) -> keeps P (m ≫= f).
Proof.
  intros Hm Hf d Hd. unfold mbind, Fill.fillM_bind.
  specialize (Hm d Hd). destruct (m d) as [d' [a|e]]; simpl in *; [|done].
  by apply Hf.
Qed.

Lemma keeps_ret {A} P (a : A) : keeps P (mret a : Fill.fillM A).
Proof. by intros d Hd. Qed.

Lemma keeps_pure {A} P (r : result A) : keeps P (Fill.pure r).
Proof. by intros d Hd. Qed.

Lemma keeps_filter {A} P (M : Fill.model A) p : keeps P (Fill.filter M p).
Proof. by intros d Hd. Qed.

Lemma keeps_for_ {A S} P (body : S -> A -> Fill.fillM S) xs :
  (forall st x, keeps P (body st x)) -> forall st, keeps P (Fill.for_ body xs st).
Proof.
  intros Hbody. induction xs as [|x xs IH]; intros st; [apply keeps_ret|].
  simpl. apply keeps_bind; [apply Hbody | apply IH].
Qed.

(** A [bulk_create] call that goes through leaves the table the inserts
    give; one that raises leaves the table as it was.  The call is recorded
    in both cases. *)
Lemma fill_bulk_create_Ok {A} (M : Fill.model A) objs d t' :
  Db.bulk_create (Fill.clash M) objs (Fill.table M d) = Ok t' ->
  Fill.bulk_create M objs d =
  (Fill.set_table M t'
     ((Fill.model_name M, length objs) :: Fill.calls d) d, Ok tt).
Proof. intros H. unfold Fill.bulk_create. by rewrite H. Qed.

Lemma fill_bulk_create_Raise {A} (M : Fill.model A) objs d e :
  Db.bulk_create (Fill.clash M) objs (Fill.table M d) = Raise e ->
  Fill.bulk_create M objs d =
  (Fill.set_table M (Fill.table M d)
     ((Fill.model_name M, length objs) :: Fill.calls d) d, Raise e).
Proof. intros H. unfold Fill.bulk_create. by rewrite H. Qed.

Lemma fill_bulk_create_cases {A} (M : Fill.model A) objs d :
  (exists t',
     Db.bulk_create (Fill.clash M) objs (Fill.table M d) = Ok t' /\
     Fill.bulk_create M objs d =
     (Fill.set_table M t'
        ((Fill.model_name M, length objs) :: Fill.calls d) d, Ok tt)) \/
  (Db.bulk_create (Fill.clash M) objs (Fill.table M d)
     = Raise IntegrityError /\
   Fill.bulk_create M objs d =
   (Fill.set_table M (Fill.table M d)
      ((Fill.model_name M, length objs) :: Fill.calls d) d,
    Raise IntegrityError)).
Proof.
  destruct (Db.bulk_create (Fill.clash M) objs (Fill.table M d))
    as [t'|e] eqn:Hrun.
  - left. exists t'. split; [done|]. by apply fill_bulk_create_Ok.
  - right. assert (e = IntegrityError) as ->
      by (by eapply bulk_create_raises).
    split; [done|]. by apply fill_bulk_create_Raise.
Qed.

Lemma bind_bulk_create_Ok {A B} (M : Fill.model A) objs
    (f : unit -> Fill.fillM B) d t' :
  Db.bulk_create (Fill.clash M) objs (Fill.table M d) = Ok t' ->
  (Fill.bulk_create M objs ≫= f) d =
  f tt (Fill.set_table M t'
          ((Fill.model_name M, length objs) :: Fill.calls d) d).
Proof.
  intros H. unfold mbind, Fill.fillM_bind.
  by rewrite (fill_bulk_create_Ok _ _ _ _ H).
Qed.

Lemma bind_bulk_create_Raise {A B} (M : Fill.model A) objs
    (f : unit -> Fill.fillM B) d e :
  Db.bulk_create (Fill.clash M) objs (Fill.table M d) = Raise e ->
  (Fill.bulk_create M objs ≫= f) d =
  (Fill.set_table M (Fill.table M d)
     ((Fill.model_name M, length objs) :: Fill.calls d) d, Raise e).
Proof.
  intros H. unfold mbind, Fill.fillM_bind.
  by rewrite (fill_bulk_create_Raise _ _ _ _ H).
Qed.

(** A property that no write to the table of [M] and no record of a call
    disturbs is kept by [bulk_create]. *)
Lemma keeps_bulk_create {A} (P : Fill.db -> Prop) (M : Fill.model A) objs :
  (forall d t c, P d -> P (Fill.set_table M t c d)) ->
  keeps P (Fill.bulk_create M objs).
Proof.
  intros Hset d Hd.
  destruct (fill_bulk_create_cases M objs d) as [(t' & _ & ->)|[_ ->]];
    by apply Hset.
Qed.

(** ** FillTool.fill_inventory: the stored rows against the incoming ones *)

(** What the second loop keeps true, [p0] being the incoming records and [p]
    the dictionary while the stored rows of [t] are gone through: an entry
    belongs to its pair, carries the incoming dates and, when it has a key,
    is the stored row of that key; a pair that has lost its entry has a stored
    row with the incoming dates. *)
Definition reconciled (t : gmap Z Fill.Inventory)
    (p0 p : gmap (Z * Z) (option Z * Fill.Inventory)) : Prop :=
  (forall k pko r, p !! k = Some (pko, r) ->
     Fill.inv_key r = k /\
     (exists i0, p0 !! k = Some i0 /\ Fill.inv_dates r = Fill.inv_dates i0.2) /\
     (forall pk, pko = Some pk ->
        exists r0, t !! pk = Some r0 /\ Fill.inv_key r0 = k)) /\
  (forall k i0, p0 !! k = Some i0 -> p !! k = None ->
     exists pk r0, t !! pk = Some r0 /\ Fill.inv_key r0 = k /\
                   Fill.inv_dates r0 = Fill.inv_dates i0.2).

Lemma dates_differ_false (a b : Fill.Inventory) :
  bool_decide (Fill.acquisition_date a ≠ Fill.acquisition_date b) ||
  bool_decide (Fill.dropped_date a ≠ Fill.dropped_date b) = false <->
  Fill.inv_dates a = Fill.inv_dates b.
Proof.
  unfold Fill.inv_dates. rewrite orb_false_iff, !bool_decide_eq_false.
  split.
  - intros [H1 H2]. f_equal; by apply dec_stable.
  - intros H. injection H as H1 H2. split; intros H; by apply H.
Qed.

Lemma reconciled_init (t : gmap Z Fill.Inventory)
    (p0 : gmap (Z * Z) (option Z * Fill.Inventory)) :
  (forall k pko r, p0 !! k = Some (pko, r) ->
                   pko = None /\ Fill.inv_key r = k) ->
  reconciled t p0 p0.
Proof.
  intros H0. split.
  - intros k pko r Hk. destruct (H0 _ _ _ Hk) as [-> Hkey].
    split; [done|]. split; [by exists (None, r)|]. by intros pk.
  - intros k i0 H1 H2. congruence.
Qed.

Lemma reconcile_step (t : gmap Z Fill.Inventory)
    (p0 p : gmap (Z * Z) (option Z * Fill.Inventory)) (pk : Z)
    (inv : Fill.Inventory) :
  reconciled t p0 p -> t !! pk = Some inv ->
  reconciled t p0 (Fill.reconcile p (pk, inv)).
Proof.
  intros [HA HC] Ht. unfold Fill.reconcile.
  destruct (p !! Fill.inv_key inv) as [[pko tmp]|] eqn:Hp; [|by split].
  destruct (HA _ _ _ Hp) as (Hkey & (i0 & Hi0 & Hd) & _).
  destruct (_ || _) eqn:Hcmp.
  - split.
    + intros k pko' r.
      destruct (decide (Fill.inv_key inv = k)) as [<-|Hk].
      * rewrite lookup_insert_eq. intros [= <- <-]. split; [done|].
        split; [exists i0; split; [done|]; by rewrite <- Hd|].
        intros pk' [= <-]. by exists inv.
      * rewrite lookup_insert_ne by done. apply HA.
    + intros k i1 H1.
      destruct (decide (Fill.inv_key inv = k)) as [<-|Hk].
      * by rewrite lookup_insert_eq.
      * rewrite lookup_insert_ne by done. by apply HC.
  - apply dates_differ_false in Hcmp. split.
    + intros k pko' r.
      destruct (decide (Fill.inv_key inv = k)) as [<-|Hk].
      * by rewrite lookup_delete_eq.
      * rewrite lookup_delete_ne by done. apply HA.
    + intros k i1 H1.
      destruct (decide (Fill.inv_key inv = k)) as [<-|Hk].
      * intros _. exists pk, inv. split; [done|]. split; [done|].
        rewrite Hcmp, Hd. congruence.
      * rewrite lookup_delete_ne by done. by apply HC.
Qed.

Lemma reconcile_fold (t : gmap Z Fill.Inventory)
    (p0 : gmap (Z * Z) (option Z * Fill.Inventory))
    (rows : list (Z * Fill.Inventory)) :
  (forall kr, kr ∈ rows -> t !! kr.1 = Some kr.2) ->
  forall p, reconciled t p0 p ->
            reconciled t p0 (fold_left Fill.reconcile rows p).
Proof.
  induction rows as [|[pk inv] rows IH]; intros Hrows p Hp; [done|].
  simpl. apply IH.
  - intros kr Hkr. apply Hrows. by right.
  - apply reconcile_step; [done|]. apply (Hrows (pk, inv)). by left.
Qed.

Lemma elem_of_values {K V} `{Countable K} (d : gmap K V) (v : V) :
  v ∈ (map_to_list d).*2 <-> exists k, d !! k = Some v.
Proof.
  rewrite list_elem_of_fmap. split.
  - intros ([k v'] & -> & Hin). exists k. by apply elem_of_map_to_list.
  - intros (k & Hk). exists (k, v). split; [done|].
    by apply elem_of_map_to_list.
Qed.

(** Two entries written under one key are one entry. *)
Lemma reconciled_key_unique (t : gmap Z Fill.Inventory)
    (p0 p : gmap (Z * Z) (option Z * Fill.Inventory)) k1 k2 pk r1 r2 :
  reconciled t p0 p ->
  p !! k1 = Some (Some pk, r1) -> p !! k2 = Some (Some pk, r2) ->
  k1 = k2 /\ r1 = r2.
Proof.
  intros [HA _] H1 H2.
  destruct (HA _ _ _ H1) as (_ & _ & Hpk1).
  destruct (HA _ _ _ H2) as (_ & _ & Hpk2).
  destruct (Hpk1 pk eq_refl) as (r0 & Hr0 & Hk1).
  destruct (Hpk2 pk eq_refl) as (r0' & Hr0' & Hk2).
  assert (k1 = k2) as -> by congruence. split; congruence.
Qed.

(** After a batch that goes through every incoming pair has a row with the
    incoming dates. *)
Lemma write_back_has_row (clash : Fill.Inventory -> Fill.Inventory -> bool)
    (t t' : gmap Z Fill.Inventory)
    (p0 p : gmap (Z * Z) (option Z * Fill.Inventory)) k i0 :
  reconciled t p0 p ->
  Db.bulk_create clash (map_to_list p).*2 t = Ok t' ->
  p0 !! k = Some i0 ->
  exists pk row,
    t' !! pk = Some row /\
    Fill.inv_key row = k /\ Fill.inv_dates row = Fill.inv_dates i0.2.
Proof.
  intros [HA HC] Hrun Hk.
  destruct (p !! k) as [[pko r]|] eqn:Hp.
  - destruct (HA _ _ _ Hp) as (Hkey & (i1 & Hi1 & Hd) & _).
    destruct (bulk_create_new _ _ _ _ pko r Hrun) as (pk & _ & Hrow & _).
    { apply elem_of_values. by exists k. }
    exists pk, r. split; [done|]. split; [done | congruence].
  - destruct (HC _ _ Hk Hp) as (pk & r0 & Hr0 & Hkey & Hd).
    exists pk, r0. split; [|done]. by apply (bulk_create_keeps _ _ _ _ _ _ Hrun).
Qed.

(** ** FillTool.fill_inventory: the incoming records *)

Local Open Scope list_scope.

Lemma for__cons {A S} (body : S -> A -> Fill.fillM S) x xs st d :
  Fill.for_ body (x :: xs) st d =
  match body st x d with
  | (d', Ok st') => Fill.for_ body xs st' d'
  | (d', Raise e) => (d', Raise e)
  end.
Proof. reflexivity. Qed.

(** A loop whose body succeeds and keeps [P] succeeds and ends in [P]; [P]
    is told the elements gone through so far. *)
Lemma for__invariant {A S} (body : S -> A -> Fill.fillM S)
    (P : list A -> S -> Fill.db -> Prop) (xs : list A) :
  (forall seen x st d, P seen st d -> x ∈ xs ->
     exists st' d', body st x d = (d', Ok st') /\ P (seen ++ [x]) st' d') ->
  forall seen st d, P seen st d ->
    exists st' d', Fill.for_ body xs st d = (d', Ok st') /\
                   P (seen ++ xs) st' d'.
Proof.
  induction xs as [|x xs IH]; intros Hbody seen st d HP.
  - exists st, d. split; [done|]. by rewrite app_nil_r.
  - destruct (Hbody seen x st d HP) as (st1 & d1 & Hx & HP1); [by left|].
    destruct (IH (fun seen x st d HP Hin =>
                    Hbody seen x st d HP (list_elem_of_further _ _ _ Hin))
                 (seen ++ [x]) st1 d1 HP1) as (st' & d' & Hfor & HP').
    exists st', d'. rewrite for__cons, Hx. split; [done|].
    by rewrite <- app_assoc in HP'.
Qed.

(** The listings of a load, user by user. *)
Definition listings (objects : list Fill.json_user)
  : list (Fill.json_user * Fill.json_listing) :=
  List.flat_map (fun u => List.map (fun j => (u, j)) (Fill.user_items u))
                objects.

Lemma elem_of_listings objects u j :
  (u, j) ∈ listings objects <-> u ∈ objects /\ j ∈ Fill.user_items u.
Proof.
  unfold listings. rewrite list_elem_of_In, in_flat_map. split.
  - intros (u' & Hu' & Hj). apply in_map_iff in Hj as (j' & [= <- <-] & Hj').
    by rewrite !list_elem_of_In.
  - intros [Hu Hj]. exists u. rewrite <- list_elem_of_In. split; [done|].
    apply in_map_iff. exists j. by rewrite <- list_elem_of_In.
Qed.

Lemma listings_snoc objects u :
  listings (objects ++ [u]) =
  listings objects ++ List.map (fun j => (u, j)) (Fill.user_items u).
Proof. unfold listings. rewrite flat_map_app. simpl. by rewrite app_nil_r. Qed.

(** The tables and the record of calls of two states are the same. *)
Definition same_tables (d0 d : Fill.db) : Prop :=
  Fill.items d = Fill.items d0 /\ Fill.users d = Fill.users d0 /\
  Fill.inventory d = Fill.inventory d0 /\ Fill.genres d = Fill.genres d0 /\
  Fill.locales d = Fill.locales d0 /\
  Fill.item_genres d = Fill.item_genres d0 /\
  Fill.item_locales d = Fill.item_locales d0 /\
  Fill.calls d = Fill.calls d0.

Definition missing_warning (j : Fill.json_listing) : string :=
  ("Item with external_id " ++ Fill.listing_eid j ++ " does not exist!")%string.

(** The record built from the listing [j] of an item for a user. *)
Definition listing_record (cfg : Fill.config) (item user : Z)
    (j : Fill.json_listing) (r : Fill.Inventory) : Prop :=
  exists dates,
    Fill.parse_dates cfg j = Ok dates /\
    r = {| Fill.item_id := item; Fill.user_id := user;
           Fill.acquisition_date := dates.1; Fill.dropped_date := dates.2 |}.

(** What the first loop keeps true after the listings [L]. *)
Definition collected (cfg : Fill.config) (users : gmap string (Z * Fill.User))
    (items : gmap string (Z * Fill.Item)) (d0 : Fill.db)
    (L : list (Fill.json_user * Fill.json_listing))
    (st : list (Z * Z) * gmap (Z * Z) (option Z * Fill.Inventory))
    (d : Fill.db) : Prop :=
  same_tables d0 d /\
  (forall u j, (u, j) ∈ L -> items !! Fill.listing_eid j = None ->
               missing_warning j ∈ Fill.warnings d) /\
  (forall u j item user, (u, j) ∈ L ->
     items !! Fill.listing_eid j = Some item ->
     users !! Fill.user_eid u = Some user ->
     is_Some (st.2 !! (item.1, user.1))) /\
  (forall k pko r, st.2 !! k = Some (pko, r) ->
     pko = None /\ k ∈ st.1 /\
     exists u j item user,
       (u, j) ∈ L /\ items !! Fill.listing_eid j = Some item /\
       users !! Fill.user_eid u = Some user /\ k = (item.1, user.1) /\
       listing_record cfg item.1 user.1 j r).

Lemma collect_listing_step cfg users items d0 L u j st d :
  collected cfg users items d0 L st d ->
  (forall item, items !! Fill.listing_eid j = Some item ->
     is_Some (users !! Fill.user_eid u) /\
     exists dates, Fill.parse_dates cfg j = Ok dates) ->
  exists st' d',
    Fill.collect_listing cfg users items u st j d = (d', Ok st') /\
    collected cfg users items d0 (L ++ [(u, j)]) st' d'.
Proof.
  intros (Hsame & Hwarn & Hin & Hent) Hok. unfold Fill.collect_listing.
  destruct (items !! Fill.listing_eid j) as [item|] eqn:Hitem.
  - destruct (Hok item eq_refl) as [[user Huser] [dates Hdates]].
    rewrite Huser, Hdates. eexists _, d. split; [reflexivity|]. simpl.
    split; [done|]. split; [|split].
    + intros u' j' [H|H%list_elem_of_singleton]%elem_of_app Hnone.
      * by apply (Hwarn u' j').
      * injection H as -> ->. congruence.
    + intros u' j' item' user' [H|H%list_elem_of_singleton]%elem_of_app Hi Hu;
        simpl.
      * rewrite lookup_insert. case_decide; [done|]. by apply (Hin u' j').
      * injection H as -> ->.
        assert (item' = item) as -> by congruence.
        assert (user' = user) as -> by congruence.
        by rewrite lookup_insert_eq.
    + intros k pko r. simpl.
      destruct (decide ((item.1, user.1) = k)) as [<-|Hk].
      * rewrite lookup_insert_eq. intros [= <- <-]. split; [done|].
        split; [unfold Fill.or_q; apply elem_of_app; right; by left|].
        exists u, j, item, user.
        split; [apply elem_of_app; right; by left|].
        split; [done|]. split; [done|]. split; [done|]. by exists dates.
      * rewrite lookup_insert_ne by done. intros Hk'.
        destruct (Hent _ _ _ Hk')
          as (-> & Hq & u' & j' & item' & user' & HL & H1 & H2 & H3 & H4).
        split; [done|].
        split; [unfold Fill.or_q; apply elem_of_app; by left|].
        exists u', j', item', user'.
        split; [apply elem_of_app; by left|]. done.
  - eexists st, _. split; [reflexivity|].
    split; [done|]. split; [|split].
    + intros u' j' [H|H%list_elem_of_singleton]%elem_of_app Hnone; simpl.
      * right. by apply (Hwarn u' j').
      * injection H as -> ->. by left.
    + intros u' j' item' user' [H|H%list_elem_of_singleton]%elem_of_app Hi Hu.
      * by apply (Hin u' j').
      * injection H as -> ->. congruence.
    + intros k pko r Hk'.
      destruct (Hent _ _ _ Hk')
        as (-> & Hq & u' & j' & item' & user' & HL & H1 & H2 & H3 & H4).
      split; [done|]. split; [done|].
      exists u', j', item', user'.
      split; [apply elem_of_app; by left|]. done.
Qed.

Lemma collected_init cfg users items d :
  collected cfg users items d [] ([], ∅) d.
Proof.
  split; [by repeat split|]. split; [|split].
  - intros u j H. by apply elem_of_nil in H.
  - intros u j item user H. by apply elem_of_nil in H.
  - intros k pko r H. simpl in H. by rewrite lookup_empty in H.
Qed.

(** The first loop goes through when the user of every listing of a known
    item is known and its dates parse; it changes no table. *)
Lemma collect_inventory_ok cfg objects users items d :
  (forall u j item, u ∈ objects -> j ∈ Fill.user_items u ->
     items !! Fill.listing_eid j = Some item ->
     is_Some (users !! Fill.user_eid u) /\
     exists dates, Fill.parse_dates cfg j = Ok dates) ->
  exists st d',
    Fill.collect_inventory cfg objects users items d = (d', Ok st) /\
    collected cfg users items d (listings objects) st d'.
Proof.
  intros Hok. unfold Fill.collect_inventory.
  apply (for__invariant _
           (fun seen st d' => collected cfg users items d (listings seen) st d')
           objects) with (seen := []); [|apply collected_init].
  intros seen u st d1 Hcol Hu.
  destruct (for__invariant
              (Fill.collect_listing cfg users items u)
              (fun seenj st d' =>
                 collected cfg users items d
                   (listings seen ++ List.map (fun j => (u, j)) seenj) st d')
              (Fill.user_items u)) with (seen := @nil Fill.json_listing)
              (st := st) (d := d1) as (st' & d' & Hfor & Hcol').
  - intros seenj j st2 d2 Hcol2 Hj.
    destruct (collect_listing_step cfg users items d _ u j st2 d2 Hcol2)
      as (st3 & d3 & Hstep & Hcol3).
    + intros item Hitem. by apply (Hok u j item).
    + exists st3, d3. split; [done|].
      by rewrite map_app, app_assoc.
  - simpl. by rewrite app_nil_r.
  - exists st', d'. split; [done|]. by rewrite listings_snoc.
Qed.

Lemma reconcile_inventory_unfold q p0 d1 :
  Fill.reconcile_inventory q p0 d1 =
  (d1, Ok (map_to_list
             (fold_left Fill.reconcile
                (Db.select (fun _ inv => Fill.q_match q (Fill.inv_key inv))
                           (Fill.inventory d1)) p0)).*2).
Proof. reflexivity. Qed.

Lemma fill_inventory_unfold cfg objects users items d d1 q p0 batch :
  Fill.collect_inventory cfg objects users items d = (d1, Ok (q, p0)) ->
  Fill.reconcile_inventory q p0 d1 = (d1, Ok batch) ->
  Fill.fill_inventory cfg objects users items d =
  Fill.bulk_create Fill.Inventory_ batch d1.
Proof.
  intros H1 H2. unfold Fill.fill_inventory.
  unfold mbind at 1. unfold Fill.fillM_bind. rewrite H1.
  unfold mbind. by rewrite H2.
Qed.

(** The listing [j] is a listing, by a user of the load, of an item of the
    item store, and [k] is the pair of their keys. *)
Definition listed (objects : list Fill.json_user)
    (users : gmap string (Z * Fill.User)) (items : gmap string (Z * Fill.Item))
    (k : Z * Z) (j : Fill.json_listing) : Prop :=
  exists u item user,
    u ∈ objects /\ j ∈ Fill.user_items u /\
    items !! Fill.listing_eid j = Some item /\
    users !! Fill.user_eid u = Some user /\ k = (item.1, user.1).

(** The dates of the row are read from the listing: the acquisition date
    from [acquired], the dropped date from [dropped] exactly when the listing
    has that field. *)
Definition dates_of (cfg : Fill.config) (j : Fill.json_listing)
    (row : Fill.Inventory) : Prop :=
  Fill.strptime_field cfg (Fill.acquired j) = Ok (Fill.acquisition_date row) /\
  (Fill.dropped j = Fill.NoDate -> Fill.dropped_date row = None) /\
  (Fill.dropped j ≠ Fill.NoDate ->
   exists x, Fill.strptime_field cfg (Fill.dropped j) = Ok x /\
             Fill.dropped_date row = Some x).

Lemma parse_dates_of cfg j dates row :
  Fill.parse_dates cfg j = Ok dates ->
  Fill.inv_dates row = dates -> dates_of cfg j row.
Proof.
  unfold Fill.parse_dates, Fill.inv_dates, dates_of. intros Hp <-.
  destruct (Fill.strptime_field cfg (Fill.acquired j)) as [a|]; [|done].
  rewrite bind_Ok in Hp. destruct (Fill.dropped j) as [| |text] eqn:Hdr.
  - rewrite bind_Ok in Hp. injection Hp as Ha Hd. rewrite <- Ha, <- Hd.
    by split.
  - done.
  - destruct (Fill.strptime_field cfg (Fill.DateText text)) as [x|]; [|done].
    simpl in Hp. injection Hp as Ha Hd. rewrite <- Ha, <- Hd.
    split; [done|]. split; [done|]. intros _. by exists x.
Qed.

Lemma parse_dates_ext cfg j1 j2 :
  Fill.acquired j1 = Fill.acquired j2 -> Fill.dropped j1 = Fill.dropped j2 ->
  Fill.parse_dates cfg j1 = Fill.parse_dates cfg j2.
Proof. unfold Fill.parse_dates. by intros -> ->. Qed.

Lemma collected_reconciled cfg users items d0 L q p0 d1
    (rows : list (Z * Fill.Inventory)) :
  collected cfg users items d0 L (q, p0) d1 ->
  (forall kr, kr ∈ rows -> Fill.inventory d1 !! kr.1 = Some kr.2) ->
  reconciled (Fill.inventory d1) p0 (fold_left Fill.reconcile rows p0).
Proof.
  intros (_ & _ & _ & Hent) Hrows.
  apply reconcile_fold; [done|]. apply reconciled_init.
  intros k pko r Hk. destruct (Hent _ _ _ Hk)
    as (-> & _ & u & j & item & user & _ & _ & _ & -> & dates & _ & ->).
  done.
Qed.

(** The stored rows of the listed pairs carry the dates of the listings of
    their pair. *)
Definition dates_agree (cfg : Fill.config) (objects : list Fill.json_user)
    (users : gmap string (Z * Fill.User)) (items : gmap string (Z * Fill.Item))
    (t : gmap Z Fill.Inventory) : Prop :=
  forall pk row j,
    t !! pk = Some row ->
    listed objects users items (Fill.inv_key row) j ->
    Fill.parse_dates cfg j = Ok (Fill.inv_dates row).

(** When the stored rows gone through carry the dates of the entries of
    their pairs, the second loop only deletes entries. *)
Lemma reconcile_fold_agreeing (rows : list (Z * Fill.Inventory))
    (p0 : gmap (Z * Z) (option Z * Fill.Inventory)) :
  (forall kr pko tmp, kr ∈ rows ->
     p0 !! Fill.inv_key kr.2 = Some (pko, tmp) ->
     Fill.inv_dates kr.2 = Fill.inv_dates tmp) ->
  forall p, p ⊆ p0 -> fold_left Fill.reconcile rows p ⊆ p0.
Proof.
  induction rows as [|[pk inv] rows IH]; intros Hrows p Hp; [done|].
  cbn [fold_left]. apply IH.
  { intros kr pko tmp Hkr. apply Hrows. by right. }
  unfold Fill.reconcile.
  destruct (p !! Fill.inv_key inv) as [[pko tmp]|] eqn:Hk; [|done].
  assert (Hk0 : p0 !! Fill.inv_key inv = Some (pko, tmp))
    by (by eapply lookup_weaken).
  assert (Hd := Hrows (pk, inv) pko tmp ltac:(by left) Hk0).
  apply dates_differ_false in Hd. simpl in Hd. rewrite Hd.
  etrans; [apply delete_subseteq | done].
Qed.

(** The first loop changes no table, whether it returns or raises. *)
Lemma keeps_collect_inventory (P : Fill.db -> Prop) cfg objects users items :
  (forall d msg, P d -> P (Fill.warn msg d).1) ->
  keeps P (Fill.collect_inventory cfg objects users items).
Proof.
  intros Hwarn. unfold Fill.collect_inventory. apply keeps_for_. intros st u.
  apply keeps_for_. intros st' j. unfold Fill.collect_listing.
  destruct (items !! _).
  - repeat (apply keeps_bind; [apply keeps_pure|intros ?]). apply keeps_ret.
  - apply keeps_bind; [|intros; apply keeps_ret].
    intros d Hd. by apply Hwarn.
Qed.

(** [fill_inventory] never changes a stored Inventory row, whether it
    returns or raises. *)
Lemma fill_inventory_keeps_rows cfg objects users items d pk row :
  Fill.inventory d !! pk = Some row ->
  Fill.inventory (Fill.fill_inventory cfg objects users items d).1 !! pk
  = Some row.
Proof.
  intros Hrow.
  assert (Hc : keeps (fun d => Fill.inventory d !! pk = Some row)
                 (Fill.collect_inventory cfg objects users items))
    by (by apply keeps_collect_inventory).
  specialize (Hc d Hrow). unfold Fill.fill_inventory.
  unfold mbind at 1. unfold Fill.fillM_bind.
  destruct (Fill.collect_inventory cfg objects users items d)
    as [d1 [[q p0]|e]]; simpl in Hc; [|done].
  unfold mbind, Fill.fillM_bind. rewrite reconcile_inventory_unfold.
  destruct (fill_bulk_create_cases Fill.Inventory_
              (map_to_list
                 (fold_left Fill.reconcile
                    (Db.select
                       (fun _ inv => Fill.q_match q (Fill.inv_key inv))
                       (Fill.inventory d1)) p0)).*2 d1)
    as [(t' & Hrun & ->)|[_ ->]]; simpl; [|done].
  by apply (bulk_create_keeps _ _ _ _ _ _ Hrun).
Qed.

(** When the listed users are known, the dates parse and the stored rows of
    the listed pairs carry the dates of the listings, the load goes through:
    every record handed to [bulk_create] is a new one. *)
Lemma fill_inventory_agreeing (cfg : Fill.config)
    (objects : list Fill.json_user) (users : gmap string (Z * Fill.User))
    (items : gmap string (Z * Fill.Item)) (d : Fill.db) :
  (forall u j item, u ∈ objects -> j ∈ Fill.user_items u ->
     items !! Fill.listing_eid j = Some item ->
     is_Some (users !! Fill.user_eid u) /\
     exists dates, Fill.parse_dates cfg j = Ok dates) ->
  dates_agree cfg objects users items (Fill.inventory d) ->
  exists d',
    Fill.fill_inventory cfg objects users items d = (d', Ok tt) /\
    (forall k j, listed objects users items k j ->
       exists pk row j',
         Fill.inventory d' !! pk = Some row /\ Fill.inv_key row = k /\
         listed objects users items k j' /\ dates_of cfg j' row /\
         ((forall j2, listed objects users items k j2 ->
             Fill.acquired j2 = Fill.acquired j /\
             Fill.dropped j2 = Fill.dropped j) ->
          dates_of cfg j row)) /\
    (forall u j, u ∈ objects -> j ∈ Fill.user_items u ->
       items !! Fill.listing_eid j = None ->
       missing_warning j ∈ Fill.warnings d') /\
    Fill.items d' = Fill.items d /\ Fill.users d' = Fill.users d.
Proof.
  intros Hok Hagree.
  destruct (collect_inventory_ok cfg objects users items d Hok)
    as ([q p0] & d1 & Hcollect & Hcol).
  rewrite (fill_inventory_unfold _ _ _ _ _ _ _ _ _ Hcollect
             (reconcile_inventory_unfold _ _ _)).
  pose proof Hcol as (Hsame & Hwarn & Hin & Hent).
  set (rows := Db.select (fun _ inv => Fill.q_match q (Fill.inv_key inv))
                         (Fill.inventory d1)).
  assert (Hrows : forall kr, kr ∈ rows ->
                             Fill.inventory d1 !! kr.1 = Some kr.2).
  { intros [k1 r1] Hkr. by apply select_spec in Hkr as [? _]. }
  assert (Hsub : fold_left Fill.reconcile rows p0 ⊆ p0).
  { apply reconcile_fold_agreeing; [|done].
    intros [pk inv] pko tmp Hkr Hp0. simpl in *.
    destruct (Hent _ _ _ Hp0) as (_ & _ & u & j & item & user & HL & Hitem
                                  & Huser & Hk & dates & Hdates & ->).
    apply elem_of_listings in HL as [Hu Hj].
    specialize (Hrows _ Hkr). simpl in Hrows.
    destruct Hsame as (_ & _ & Hinv & _). rewrite Hinv in Hrows.
    rewrite (Hagree pk inv j Hrows) in Hdates.
    - injection Hdates as <-. unfold Fill.inv_dates. simpl.
      by destruct (Fill.acquisition_date inv, Fill.dropped_date inv).
    - by exists u, item, user. }
  destruct (bulk_create_free
              (map_to_list (fold_left Fill.reconcile rows p0)).*2
              (Fill.inventory d1)) as [t' Hrun].
  { intros [pko r] (k & Hk)%elem_of_values.
    apply (lookup_weaken _ _ _ _ Hk) in Hsub.
    by destruct (Hent _ _ _ Hsub) as (-> & _). }
  rewrite (fill_bulk_create_Ok Fill.Inventory_ _ _ t') by exact Hrun.
  eexists. split; [reflexivity|]. simpl.
  split; [|split].
  - intros k j (u & item & user & Hu & Hj & Hitem & Huser & ->).
    destruct (Hin u j item user) as [[pko r0] Hp0]; [|done|done|].
    { by apply elem_of_listings. }
    destruct (Hent _ _ _ Hp0) as (-> & _ & u' & j' & item' & user' & HL'
                                  & Hitem' & Huser' & Hk' & dates' & Hd' & Hr0).
    apply elem_of_listings in HL' as [Hu' Hj'].
    edestruct (write_back_has_row Fill.no_constraint (Fill.inventory d1) t' p0)
      as (pk & row & Hrow & Hkey & Hdates);
      [eapply (collected_reconciled _ _ _ _ _ _ _ _ _ Hcol Hrows)
      | exact Hrun | exact Hp0 |].
    exists pk, row, j'. split; [exact Hrow|]. split; [done|].
    assert (Hlisted' : listed objects users items (item.1, user.1) j').
    { by exists u', item', user'. }
    assert (Hrow' : Fill.inv_dates row = dates').
    { rewrite Hdates. simpl. rewrite Hr0. by destruct dates'. }
    split; [done|]. split; [by apply (parse_dates_of _ _ dates')|].
    intros Hsame_text. destruct (Hsame_text j' Hlisted') as [Ha Hdr].
    apply (parse_dates_of _ _ dates'); [|done].
    by rewrite <- (parse_dates_ext cfg j' j).
  - intros u j Hu Hj Hnone. apply (Hwarn u j); [|done].
    by apply elem_of_listings.
  - destruct Hsame as (Hi & Hus & _). done.
Qed.

(** A small load: user [u1] lists the known item [i1] and the unknown item
    [zz]; dates are years. *)
Definition year_format (text fmt : string) : option Z :=
  if String.eqb text "2014" then Some 2014
  else if String.eqb text "2015" then Some 2015
  else None.

Definition small_cfg : Fill.config :=
  {| Fill.sqlite := true; Fill.diversity := true; Fill.language := true;
     Fill.testing_mode := false; Fill.date_format := "%Y";
     Fill.strptime := year_format |}.

Definition listing_i1 : Fill.json_listing :=
  {| Fill.listing_eid := "i1"; Fill.acquired := Fill.DateText "2014";
     Fill.dropped := Fill.DateText "2015" |}.

Definition listing_zz : Fill.json_listing :=
  {| Fill.listing_eid := "zz"; Fill.acquired := Fill.DateText "never";
     Fill.dropped := Fill.NoDate |}.

Definition user_u1 : Fill.json_user :=
  {| Fill.is_user := true; Fill.user_eid := "u1";
     Fill.user_items := [listing_i1; listing_zz] |}.

Definition small_users : gmap string (Z * Fill.User) :=
  {["u1" := (2, {| Fill.user_external_id := "u1" |})]}.

Definition small_items : gmap string (Z * Fill.Item) :=
  {["i1" := (1, {| Fill.external_id := "i1";
                   Fill.name := Fill.NameStr "one" |})]}.

(** The store holds the pair (item 1, user 2), acquired in 2014 and not
    dropped; the load lists it as dropped in 2015. *)
Definition stored_row : Fill.Inventory :=
  {| Fill.item_id := 1; Fill.user_id := 2;
     Fill.acquisition_date := 2014; Fill.dropped_date := None |}.

Definition one_row_db : Fill.db :=
  Fill.set_table Fill.Inventory_ {[5 := stored_row]} [] Fill.empty_db.

(** A second load: user [u1] lists the stored pair as dropped in 2015 and,
    for the first time, the item [i2]. *)
Definition listing_i2 : Fill.json_listing :=
  {| Fill.listing_eid := "i2"; Fill.acquired := Fill.DateText "2014";
     Fill.dropped := Fill.NoDate |}.

Definition user_two : Fill.json_user :=
  {| Fill.is_user := true; Fill.user_eid := "u1";
     Fill.user_items := [listing_i1; listing_i2] |}.

Definition two_items : gmap string (Z * Fill.Item) :=
  <["i2" := (3, {| Fill.external_id := "i2";
                   Fill.name := Fill.NameStr "two" |})]> small_items.

Lemma small_load_ok u j (item : Z * Fill.Item) :
  u ∈ [user_u1] -> j ∈ Fill.user_items u ->
  small_items !! Fill.listing_eid j = Some item ->
  is_Some (small_users !! Fill.user_eid u) /\
  exists dates, Fill.parse_dates small_cfg j = Ok dates.
Proof.
  intros Hu%list_elem_of_singleton Hj Hitem. subst u.
  apply elem_of_cons in Hj as [->|Hj%list_elem_of_singleton].
  - split; [by eexists | by eexists].
  - subst j. by vm_compute in Hitem.
Qed.

Lemma small_load_listed k j :
  listed [user_u1] small_users small_items k j ->
  k = (1, 2) /\ j = listing_i1.
Proof.
  intros (u & item & user & Hu%list_elem_of_singleton & Hj & Hitem & Huser & ->).
  subst u. apply elem_of_cons in Hj as [->|Hj%list_elem_of_singleton].
  - vm_compute in Hitem, Huser. by simplify_eq.
  - subst j. by vm_compute in Hitem.
Qed.

(** C6.  [fill_inventory] does not create a record for every listing of a
    known item.  In a store that holds the pair (item 1, user 2) as acquired
    in 2014 and not dropped, a load in which that user lists item 1 as
    dropped in 2015 and, for the first time, the known item 3 raises
    IntegrityError: users and dates are fine, yet the Inventory table is
    left as it was and no row links item 3 to the user.  What holds is: when
    the user of every listing of a known item is among the users handed
    over, the dates of those listings parse and every stored row of a listed
    pair carries the dates of the listings of its pair, [fill_inventory]
    goes through and leaves, for every listing of an item of the item store,
    an Inventory row that links the item to the user; the dates of the row
    are read from a listing of that item by that user (the one listing when
    there is one, and in any case from [j] when all of them carry the texts
    of [j]): the acquisition date from [acquired] under the date format, the
    dropped date from [dropped] exactly when the field is there.  A listing
    of an item that is not in the item store is answered with a warning and
    does not stop the load.  Items and users are not touched. *)
Theorem fill_inventory_links :
  (listed [user_two] small_users two_items (3, 2) listing_i2 /\
   Fill.parse_dates small_cfg listing_i1 = Ok (2014, Some 2015) /\
   Fill.parse_dates small_cfg listing_i2 = Ok (2014, None) /\
   (Fill.fill_inventory small_cfg [user_two] small_users two_items
      one_row_db).2 = Raise IntegrityError /\
   Fill.inventory
     (Fill.fill_inventory small_cfg [user_two] small_users two_items
        one_row_db).1 = {[5 := stored_row]} /\
   forall pk row,
     Fill.inventory
       (Fill.fill_inventory small_cfg [user_two] small_users two_items
          one_row_db).1 !! pk = Some row ->
     Fill.inv_key row ≠ (3, 2)) /\
  forall (cfg : Fill.config) (objects : list Fill.json_user)
         (users : gmap string (Z * Fill.User))
         (items : gmap string (Z * Fill.Item)) (d : Fill.db),
    (forall u j item, u ∈ objects -> j ∈ Fill.user_items u ->
       items !! Fill.listing_eid j = Some item ->
       is_Some (users !! Fill.user_eid u) /\
       exists dates, Fill.parse_dates cfg j = Ok dates) ->
    dates_agree cfg objects users items (Fill.inventory d) ->
    exists d',
      Fill.fill_inventory cfg objects users items d = (d', Ok tt) /\
      (forall k j, listed objects users items k j ->
         exists pk row j',
           Fill.inventory d' !! pk = Some row /\ Fill.inv_key row = k /\
           listed objects users items k j' /\ dates_of cfg j' row /\
           ((forall j2, listed objects users items k j2 ->
               Fill.acquired j2 = Fill.acquired j /\
               Fill.dropped j2 = Fill.dropped j) ->
            dates_of cfg j row)) /\
      (forall u j, u ∈ objects -> j ∈ Fill.user_items u ->
         items !! Fill.listing_eid j = None ->
         missing_warning j ∈ Fill.warnings d') /\
      Fill.items d' = Fill.items d /\ Fill.users d' = Fill.users d.
Proof.
  split; [|apply fill_inventory_agreeing].
  assert (Hinv : Fill.inventory
            (Fill.fill_inventory small_cfg [user_two] small_users two_items
               one_row_db).1 = {[5 := stored_row]})
    by (vm_compute; reflexivity).
  split.
  { exists user_two, (3, {| Fill.external_id := "i2";
                           Fill.name := Fill.NameStr "two" |}),
           (2, {| Fill.user_external_id := "u1" |}).
    split; [by left|]. split; [right; by left|]. by split. }
  split; [reflexivity|]. split; [reflexivity|].
  split; [vm_compute; reflexivity|]. split; [exact Hinv|].
  intros pk row. rewrite Hinv. intros [<- <-]%lookup_singleton_Some.
  discriminate.
Qed.

Lemma fill_inventory_links_witness :
  exists d' pk row,
    Fill.fill_inventory small_cfg [user_u1] small_users small_items
                        Fill.empty_db = (d', Ok tt) /\
    Fill.inventory d' !! pk = Some row /\
    Fill.inv_key row = (1, 2) /\
    Fill.acquisition_date row = 2014 /\ Fill.dropped_date row = Some 2015 /\
    missing_warning listing_zz ∈ Fill.warnings d'.
Proof.
  destruct (proj2 fill_inventory_links small_cfg [user_u1] small_users
              small_items Fill.empty_db)
    as (d' & Hrun & Hrows & Hwarn & _).
  - apply small_load_ok.
  - intros pk row j Hrow. simpl in Hrow. by rewrite lookup_empty in Hrow.
  - assert (Hl : listed [user_u1] small_users small_items (1, 2) listing_i1).
    { eexists user_u1, _, _. split; [by left|]. split; [by left|].
      split; [reflexivity|]. split; reflexivity. }
    destruct (Hrows _ _ Hl) as (pk & row & j' & Hrow & Hkey & _ & _ & Hdates).
    destruct Hdates as (Ha & _ & Hd).
    { intros j2 [_ ->]%small_load_listed. done. }
    destruct Hd as (x & Hx & Hd); [done|].
    exists d', pk, row. split; [done|]. split; [done|]. split; [done|].
    split; [by injection Ha|].
    split; [rewrite Hd; by injection Hx as <-|].
    apply (Hwarn user_u1); [by left | by right; left | reflexivity].
Defined.

(** ** FillTool.fill_inventory: a pair that already has a row *)

(** No two rows of the table are for one (item, user) pair. *)
Definition pairs_unique (t : gmap Z Fill.Inventory) : Prop :=
  forall pk1 pk2 r1 r2,
    t !! pk1 = Some r1 -> t !! pk2 = Some r2 ->
    Fill.inv_key r1 = Fill.inv_key r2 -> pk1 = pk2.

(** The stored row with the dates of the incoming record. *)
Definition with_dates_of (stored inc : Fill.Inventory) : Fill.Inventory :=
  {| Fill.item_id := Fill.item_id stored; Fill.user_id := Fill.user_id stored;
     Fill.acquisition_date := Fill.acquisition_date inc;
     Fill.dropped_date := Fill.dropped_date inc |}.

Lemma q_match_elem (q : list (Z * Z)) k : k ∈ q -> Fill.q_match q k = true.
Proof.
  intros Hk. unfold Fill.q_match. destruct q; [done|].
  by apply bool_decide_eq_true.
Qed.

Lemma reconcile_other p (row : Z * Fill.Inventory) k :
  Fill.inv_key row.2 ≠ k -> Fill.reconcile p row !! k = p !! k.
Proof.
  destruct row as [pk inv]. simpl. intros Hne. unfold Fill.reconcile.
  destruct (p !! Fill.inv_key inv) as [[pko tmp]|]; [|done].
  destruct (_ || _).
  - by rewrite lookup_insert_ne.
  - by rewrite lookup_delete_ne.
Qed.

Lemma reconcile_fold_other (rows : list (Z * Fill.Inventory)) k :
  (forall kr, kr ∈ rows -> Fill.inv_key kr.2 ≠ k) ->
  forall p, fold_left Fill.reconcile rows p !! k = p !! k.
Proof.
  induction rows as [|row rows IH]; intros Hne p; [done|]. simpl.
  rewrite IH.
  - apply reconcile_other, Hne. by left.
  - intros kr Hkr. apply Hne. by right.
Qed.

Lemma reconcile_at p pk stored pko inc :
  p !! Fill.inv_key stored = Some (pko, inc) ->
  Fill.reconcile p (pk, stored) !! Fill.inv_key stored =
  if decide (Fill.inv_dates stored = Fill.inv_dates inc) then None
  else Some (Some pk, with_dates_of stored inc).
Proof.
  intros Hp. unfold Fill.reconcile. rewrite Hp.
  destruct (_ || _) eqn:Hcmp.
  - rewrite lookup_insert_eq.
    destruct (decide (Fill.inv_dates stored = Fill.inv_dates inc)) as [Hd|];
      [|done].
    apply dates_differ_false in Hd. congruence.
  - rewrite lookup_delete_eq. apply dates_differ_false in Hcmp.
    by destruct (decide (Fill.inv_dates stored = Fill.inv_dates inc)).
Qed.

(** The entry of the pair of a stored row after the second loop. *)
Lemma reconcile_fold_at (t : gmap Z Fill.Inventory) q p0 pk stored pko inc :
  pairs_unique t ->
  t !! pk = Some stored ->
  Fill.inv_key stored ∈ q ->
  p0 !! Fill.inv_key stored = Some (pko, inc) ->
  fold_left Fill.reconcile
    (Db.select (fun _ inv => Fill.q_match q (Fill.inv_key inv)) t) p0
    !! Fill.inv_key stored =
  if decide (Fill.inv_dates stored = Fill.inv_dates inc) then None
  else Some (Some pk, with_dates_of stored inc).
Proof.
  intros Huniq Ht Hq Hp0.
  pose proof (select_NoDup
    (fun _ inv => Fill.q_match q (Fill.inv_key inv)) t) as Hnd.
  assert (Hin : (pk, stored) ∈
    Db.select (fun _ inv => Fill.q_match q (Fill.inv_key inv)) t).
  { apply select_spec. split; [done|]. by apply q_match_elem. }
  assert (Hrows : forall kr,
    kr ∈ Db.select (fun _ inv => Fill.q_match q (Fill.inv_key inv)) t ->
    Fill.inv_key kr.2 = Fill.inv_key stored -> kr = (pk, stored)).
  { intros [k1 r1] [Hk1 _]%select_spec Hkey. simpl in *.
    assert (k1 = pk) as -> by (by eapply Huniq). congruence. }
  apply list_elem_of_split in Hin as (l1 & l2 & Hsplit).
  rewrite Hsplit in Hnd, Hrows |- *.
  apply NoDup_app in Hnd as (_ & Hl1 & Hnd2).
  apply NoDup_cons in Hnd2 as [Hl2 _].
  rewrite fold_left_app. simpl.
  rewrite reconcile_fold_other.
  - apply reconcile_at with (pko := pko).
    rewrite reconcile_fold_other; [done|].
    intros kr Hkr Hkey. apply (Hl1 kr Hkr).
    rewrite (Hrows kr); [by left | apply elem_of_app; by left | done].
  - intros kr Hkr Hkey. apply Hl2.
    rewrite <- (Hrows kr); [done | apply elem_of_app; right; by right | done].
Qed.

(** C7.  A stored row whose pair is listed with other dates is not
    replaced: [fill_inventory] never changes a stored Inventory row, whether
    it returns or raises.  Let the user of every listing of a known item be
    known, the dates parse and the table hold at most one row per (item,
    user) pair.  For a stored row whose pair is listed in the load, with
    [inc] the incoming record of the pair (read from a listing of it): when
    the stored dates equal the incoming ones, no instance of the pair is
    handed to [bulk_create]; when they differ, the stored row, under its own
    key and with the incoming dates, is handed to [bulk_create], which only
    inserts: the load raises IntegrityError and the Inventory table is left
    as it was.  So it is for the store that holds the pair (item 1, user 2)
    as acquired in 2014 and not dropped and the load that lists it as
    dropped in 2015: the load raises and the row stays not dropped. *)
Theorem fill_inventory_existing_pair :
  (forall cfg objects users items d pk row,
     Fill.inventory d !! pk = Some row ->
     Fill.inventory (Fill.fill_inventory cfg objects users items d).1 !! pk
     = Some row) /\
  (forall (cfg : Fill.config) (objects : list Fill.json_user)
          (users : gmap string (Z * Fill.User))
          (items : gmap string (Z * Fill.Item)) (d : Fill.db),
     (forall u j item, u ∈ objects -> j ∈ Fill.user_items u ->
        items !! Fill.listing_eid j = Some item ->
        is_Some (users !! Fill.user_eid u) /\
        exists dates, Fill.parse_dates cfg j = Ok dates) ->
     pairs_unique (Fill.inventory d) ->
     exists q p0 d1 batch,
       Fill.collect_inventory cfg objects users items d = (d1, Ok (q, p0)) /\
       Fill.reconcile_inventory q p0 d1 = (d1, Ok batch) /\
       forall pk stored j,
         Fill.inventory d !! pk = Some stored ->
         listed objects users items (Fill.inv_key stored) j ->
         exists inc j',
           p0 !! Fill.inv_key stored = Some (None, inc) /\
           listed objects users items (Fill.inv_key stored) j' /\
           dates_of cfg j' inc /\
           Fill.inv_key inc = Fill.inv_key stored /\
           (Fill.inv_dates stored = Fill.inv_dates inc ->
              forall o, o ∈ batch ->
                        Fill.inv_key o.2 ≠ Fill.inv_key stored) /\
           (Fill.inv_dates stored ≠ Fill.inv_dates inc ->
              (Some pk, with_dates_of stored inc) ∈ batch /\
              (Fill.fill_inventory cfg objects users items d).2
                = Raise IntegrityError /\
              Fill.inventory
                (Fill.fill_inventory cfg objects users items d).1
                = Fill.inventory d)) /\
  (Fill.fill_inventory small_cfg [user_u1] small_users small_items
     one_row_db).2 = Raise IntegrityError /\
  Fill.inventory
    (Fill.fill_inventory small_cfg [user_u1] small_users small_items
       one_row_db).1 = {[5 := stored_row]}.
Proof.
  split; [intros; by apply fill_inventory_keeps_rows|].
  split; [|split; vm_compute; reflexivity].
  intros cfg objects users items d Hok Huniq.
  destruct (collect_inventory_ok cfg objects users items d Hok)
    as ([q p0] & d1 & Hcollect & Hcol).
  eexists q, p0, d1, _.
  split; [done|]. split; [apply reconcile_inventory_unfold|].
  rewrite (fill_inventory_unfold _ _ _ _ _ _ _ _ _ Hcollect
             (reconcile_inventory_unfold _ _ _)).
  pose proof Hcol as ((_ & _ & Hinv & _) & _ & Hin & Hent).
  assert (Hrec := collected_reconciled _ _ _ _ _ _ _ _
            (Db.select (fun _ inv => Fill.q_match q (Fill.inv_key inv))
                       (Fill.inventory d1)) Hcol
            (fun kr H => proj1 (proj1 (select_spec _ _ kr.1 kr.2)
               ltac:(by destruct kr)))).
  set (p' := fold_left Fill.reconcile _ p0) in *.
  rewrite <- Hinv in Huniq.
  intros pk stored j Hstored (u & item & user & Hu & Hj & Hitem & Huser & Hk).
  rewrite <- Hinv in Hstored.
  destruct (Hin u j item user) as [[pko inc] Hp0]; [|done|done|].
  { by apply elem_of_listings. }
  rewrite <- Hk in Hp0.
  destruct (Hent _ _ _ Hp0) as (-> & Hq & u' & j' & item' & user' & HL'
                                & Hitem' & Huser' & Hk' & dates' & Hd' & Hinc).
  apply elem_of_listings in HL' as [Hu' Hj'].
  assert (Hkey : Fill.inv_key inc = Fill.inv_key stored).
  { rewrite Hk', Hinc. done. }
  assert (Hat := reconcile_fold_at _ q p0 pk stored None inc
                   Huniq Hstored Hq Hp0). fold p' in Hat.
  pose proof Hrec as [HA HC].
  exists inc, j'. split; [done|].
  split; [by exists u', item', user'|].
  split; [apply (parse_dates_of _ _ dates'); [done|];
          rewrite Hinc; by destruct dates'|].
  split; [done|]. split.
  - intros Heq. destruct (decide _) as [_|]; [|done].
    intros [pko r] (k' & Hk2)%elem_of_values Hkr. simpl in Hkr.
    destruct (HA _ _ _ Hk2) as (Hkr' & _). congruence.
  - intros Hne. destruct (decide _) as [|_]; [done|].
    assert (Hbatch : (Some pk, with_dates_of stored inc) ∈ (map_to_list p').*2).
    { apply elem_of_values. by eexists. }
    split; [done|].
    rewrite (fill_bulk_create_Raise Fill.Inventory_ _ _ IntegrityError).
    + split; [done|]. simpl. by rewrite Hinv.
    + by apply (bulk_create_taken _ _ _ pk (with_dates_of stored inc)).
Qed.

Lemma fill_inventory_existing_pair_witness :
  (Fill.fill_inventory small_cfg [user_u1] small_users small_items
     one_row_db).2 = Raise IntegrityError /\
  Fill.inventory
    (Fill.fill_inventory small_cfg [user_u1] small_users small_items
       one_row_db).1 !! 5 = Some stored_row.
Proof.
  destruct fill_inventory_existing_pair as (Hkeep & Hpair & _).
  split; [|by apply Hkeep].
  destruct (Hpair small_cfg [user_u1] small_users small_items one_row_db
              small_load_ok) as (q & p0 & d1 & batch & _ & _ & Hrows).
  - intros pk1 pk2 r1 r2 H1 H2 _. simpl in H1, H2.
    apply lookup_singleton_Some in H1 as [<- _].
    by apply lookup_singleton_Some in H2 as [<- _].
  - destruct (Hrows 5 stored_row listing_i1) as
      (inc & j' & _ & Hl' & (Ha & _ & Hd) & _ & _ & Hdiff).
    { reflexivity. }
    { eexists user_u1, _, _. split; [by left|]. split; [by left|].
      split; [reflexivity|]. split; reflexivity. }
    apply small_load_listed in Hl' as [_ ->].
    destruct Hd as (x & Hx & Hd); [done|].
    destruct Hdiff as (_ & Hraise & _); [|done].
    unfold Fill.inv_dates. rewrite Hd. simpl. congruence.
Defined.

(** ** The row cap for sqlite *)

(** [n] users with the identifiers 1 to [n] and no items. *)
Definition new_users (n : nat) : list Fill.json_user :=
  List.map (fun i => {| Fill.is_user := true; Fill.user_eid := pretty i;
                        Fill.user_items := [] |})
           (seq 1 n).

(** The record of calls ends with the calls [cs]: only later calls have
    been added. *)
Definition calls_end (cs : list (string * nat)) (d : Fill.db) : Prop :=
  exists later, Fill.calls d = later ++ cs.

Lemma keeps_calls_warn cs msg : keeps (calls_end cs) (Fill.warn msg).
Proof. by intros d Hd. Qed.

Lemma keeps_calls_bulk_create {A} cs (M : Fill.model A) objs :
  (forall t c d, Fill.calls (Fill.set_table M t c d) = c) ->
  keeps (calls_end cs) (Fill.bulk_create M objs).
Proof.
  intros Hlaw d [later Hd].
  exists ((Fill.model_name M, length objs) :: later).
  destruct (fill_bulk_create_cases M objs d) as [(t' & _ & ->)|[_ ->]];
    simpl; by rewrite Hlaw, Hd.
Qed.

Lemma keeps_calls_fill_inventory cs cfg objects users items :
  keeps (calls_end cs) (Fill.fill_inventory cfg objects users items).
Proof.
  unfold Fill.fill_inventory. apply keeps_bind.
  - unfold Fill.collect_inventory. apply keeps_for_. intros st u.
    apply keeps_for_. intros st' j. unfold Fill.collect_listing.
    destruct (items !! _).
    + repeat (apply keeps_bind; [apply keeps_pure|intros ?]). apply keeps_ret.
    + apply keeps_bind; [apply keeps_calls_warn | intros; apply keeps_ret].
  - intros [q inv]. apply keeps_bind.
    + unfold Fill.reconcile_inventory.
      apply keeps_bind; [apply keeps_filter | intros; apply keeps_ret].
    + intros batch. by apply keeps_calls_bulk_create.
Qed.

(** The new users of a load: the identifiers of its user objects that no
    stored user has. *)
Definition stored_user_eids (d : Fill.db) : gset string :=
  list_to_set (Fill.user_external_id <$> (map_to_list (Fill.users d)).*2).

Definition new_user_eids (objects : list Fill.json_user) (d : Fill.db)
  : gset string :=
  list_to_set (Fill.user_eid <$> List.filter Fill.is_user objects)
    ∖ stored_user_eids d.

Lemma dom_fold_insert {A V} (key : A -> string) (val : A -> V) (l : list A)
    (acc : gmap string V) :
  dom (fold_left (fun d o => <[key o := val o]> d) l acc)
  = dom acc ∪ list_to_set (key <$> l).
Proof.
  revert acc. induction l as [|x l IH]; intros acc; simpl.
  - set_solver.
  - rewrite IH, dom_insert_L. set_solver.
Qed.

Lemma dom_dict_of {A} (key : A -> string) (objs : list A) :
  dom (Fill.dict_of key objs) = list_to_set (key <$> objs).
Proof.
  unfold Fill.dict_of. rewrite (dom_fold_insert key id). set_solver.
Qed.

Lemma dom_index_by {A} (key : A -> string) (rows : list (Z * A)) acc :
  dom (Fill.index_by key rows acc)
  = dom acc ∪ list_to_set (key <$> rows.*2).
Proof.
  unfold Fill.index_by.
  rewrite (dom_fold_insert (fun kr : Z * A => key kr.2) id).
  by rewrite <- list_fmap_compose.
Qed.

Lemma bind_filter {A B} (M : Fill.model A) p (f : list (Z * A) -> Fill.fillM B)
    d :
  (Fill.filter M p ≫= f) d = f (Db.select p (Fill.table M d)) d.
Proof. reflexivity. Qed.

Lemma new_users_fold (users : gmap string (Z * Fill.User))
    (l : list (string * Fill.json_user))
    (acc : gmap string Fill.User * gset string) :
  dom (fold_left
         (fun (st : gmap string Fill.User * gset string)
              (entry : string * Fill.json_user) =>
            let '(user_eid, json_user) := entry in
            ((if bool_decide (user_eid ∈ dom users) then st.1
              else <[user_eid := {| Fill.user_external_id := user_eid |}]> st.1),
             st.2 ∪ list_to_set
                      (List.map Fill.listing_eid (Fill.user_items json_user))))
         l acc).1
  = dom acc.1 ∪ (list_to_set l.*1 ∖ dom users).
Proof.
  revert acc. induction l as [|[k u] l IH]; intros acc; simpl.
  - set_solver.
  - rewrite IH. simpl. case_bool_decide as Hk.
    + set_solver.
    + rewrite dom_insert_L. set_solver.
Qed.

Lemma length_new_instances {K V} `{Countable K} (m : gmap K V) :
  length (Fill.new_instances m) = size m.
Proof.
  unfold Fill.new_instances. by rewrite length_map, length_map_to_list.
Qed.

Lemma elem_of_stored_rows (json_users : gmap string Fill.json_user)
    (t : gmap Z Fill.User) (x : string) :
  x ∈ dom json_users ->
  (x ∈ dom (Fill.index_by Fill.user_external_id
              (Db.select (fun _ u => bool_decide
                            (Fill.user_external_id u ∈ Fill.keys json_users)) t)
              ∅)
   <-> x ∈ (list_to_set (Fill.user_external_id <$> (map_to_list t).*2)
            : gset string)).
Proof.
  intros Hx. rewrite dom_index_by, dom_empty_L, elem_of_union.
  rewrite !elem_of_list_to_set, !list_elem_of_fmap. split.
  - intros [H|(u & -> & ([k u'] & -> & Hin)%list_elem_of_fmap)];
      [by apply not_elem_of_empty in H|].
    apply select_spec in Hin as [Hk _]. exists u'. split; [done|].
    apply list_elem_of_fmap. exists (k, u'). split; [done|].
    by apply elem_of_map_to_list.
  - intros (u & -> & ([k u'] & -> & Hin)%list_elem_of_fmap). right.
    exists u'. split; [done|]. apply list_elem_of_fmap. exists (k, u').
    split; [done|]. apply select_spec. split; [by apply elem_of_map_to_list|].
    apply bool_decide_eq_true. unfold Fill.keys. simpl in *.
    apply elem_of_dom in Hx as [j Hj]. apply list_elem_of_fmap.
    exists (Fill.user_external_id u', j). split; [done|].
    by apply elem_of_map_to_list.
Qed.

(** Whatever the vendor, a users load hands all its new users to one
    [bulk_create] call. *)
Lemma users_bulk_create_one_call cfg objects d :
  calls_end (("User", size (new_user_eids objects d)) :: Fill.calls d)
            (Fill.fill_db_with_users cfg objects d).1.
Proof.
  unfold Fill.fill_db_with_users. rewrite bind_filter.
  set (json_users := Fill.dict_of Fill.user_eid
                       (List.filter Fill.is_user objects)).
  set (users := Fill.index_by Fill.user_external_id _ ∅).
  pose proof (new_users_fold users (map_to_list json_users) (∅, ∅)) as Hdom.
  destruct (fold_left _ (map_to_list json_users) (∅, ∅))
    as [new_users item_eids].
  assert (Hsize : size (new_user_eids objects d)
                  = length (Fill.new_instances new_users)).
  { assert (Hel : forall x,
              x ∈ dom new_users <-> x ∈ dom json_users /\ x ∉ dom users).
    { intros x. simpl in Hdom. rewrite Hdom, dom_empty_L.
      rewrite elem_of_union, elem_of_difference, elem_of_list_to_set.
      assert (x ∈ (map_to_list json_users).*1 <-> x ∈ dom json_users) as ->.
      { rewrite elem_of_dom, list_elem_of_fmap. split.
        - intros ([k v] & -> & H%elem_of_map_to_list). by exists v.
        - intros [v Hv]. exists (x, v). split; [done|].
          by apply elem_of_map_to_list. }
      split; [intros [H|H]; [by apply not_elem_of_empty in H | done]
             | by right]. }
    rewrite length_new_instances, <- size_dom. f_equal.
    apply set_eq. intros x. rewrite Hel.
    unfold new_user_eids, stored_user_eids.
    rewrite elem_of_difference, <- (dom_dict_of Fill.user_eid).
    fold json_users. split; intros [Hx Hn]; (split; [done|]);
      intros H; apply Hn; by apply (elem_of_stored_rows json_users). }
  rewrite Hsize.
  destruct (fill_bulk_create_cases Fill.User_
              (Fill.new_instances new_users) d) as [(t' & Hrun & _)|[Hrun _]].
  - rewrite (bind_bulk_create_Ok _ _ _ _ _ Hrun).
    apply keeps_bind; [apply keeps_filter | | by exists []].
    intros rows. apply keeps_bind; [apply keeps_pure|]. intros _.
    apply keeps_bind; [apply keeps_filter|]. intros rows0.
    apply keeps_bind; [apply keeps_calls_fill_inventory|]. intros _.
    apply keeps_ret.
  - rewrite (bind_bulk_create_Raise _ _ _ _ _ Hrun). by exists [].
Qed.

Lemma filter_new_users n :
  List.filter Fill.is_user (new_users n) = new_users n.
Proof.
  unfold new_users. induction (seq 1 n) as [|i l IH]; [done|].
  simpl. by rewrite IH.
Qed.

Lemma size_new_user_eids n :
  size (new_user_eids (new_users n) Fill.empty_db) = n.
Proof.
  unfold new_user_eids, stored_user_eids. simpl.
  rewrite map_to_list_empty. simpl. rewrite difference_empty_L.
  rewrite filter_new_users. unfold new_users.
  rewrite <- list_fmap_compose, size_list_to_set.
  - by rewrite length_fmap, length_seq.
  - apply (NoDup_fmap_2 (fun i : nat => pretty i)), NoDup_seq.
Qed.

(** The whole batch of inventory records goes to one [bulk_create] call,
    whatever its length and the vendor. *)
Lemma fill_inventory_one_call cfg objects users items d d1 q p0 batch :
  Fill.collect_inventory cfg objects users items d = (d1, Ok (q, p0)) ->
  Fill.reconcile_inventory q p0 d1 = (d1, Ok batch) ->
  Fill.calls (Fill.fill_inventory cfg objects users items d).1
  = ("Inventory", length batch) :: Fill.calls d1.
Proof.
  intros H1 H2. rewrite (fill_inventory_unfold _ _ _ _ _ _ _ _ _ H1 H2).
  by destruct (fill_bulk_create_cases Fill.Inventory_ batch d1)
    as [(t' & _ & ->)|[_ ->]].
Qed.

(** C4.  With sqlite as vendor, a load of 951 new users hands all 951 rows
    to one [bulk_create] call, which exceeds [SQLITE_MAX_ROWS]: whatever the
    vendor, [fill_db_with_users] makes one call for all the new users of the
    load (and [fill_inventory] one call for the whole batch of inventory
    records, see [fill_inventory_one_call]). *)
Theorem users_and_inventory_in_one_call :
  Fill.sqlite small_cfg = true /\
  (Fill.SQLITE_MAX_ROWS < 951)%nat /\
  ("User", 951%nat) ∈
    Fill.calls
      (Fill.fill_db_with_users small_cfg (new_users 951) Fill.empty_db).1 /\
  (forall cfg objects d,
     calls_end (("User", size (new_user_eids objects d)) :: Fill.calls d)
               (Fill.fill_db_with_users cfg objects d).1).
Proof.
  split; [reflexivity|]. split; [unfold Fill.SQLITE_MAX_ROWS; lia|].
  split.
  - destruct (users_bulk_create_one_call small_cfg (new_users 951)
                Fill.empty_db) as [later Hcalls].
    rewrite Hcalls, size_new_user_eids.
    apply elem_of_app. right. by left.
  - apply users_bulk_create_one_call.
Qed.

(** ** Item loads *)

(** An item [a] of the file, without a field for genres and with a null
    one. *)
Definition item_without_genres : Fill.json_item :=
  {| Fill.is_item := true; Fill.item_eid := "a";
     Fill.json_name := Some (Fill.NameStr "A");
     Fill.default_locale := None;
     Fill.json_genres := Fill.Absent;
     Fill.json_locales := Fill.Many ["en"] |}.

Definition item_with_null_genres : Fill.json_item :=
  {| Fill.is_item := true; Fill.item_eid := "a";
     Fill.json_name := Some (Fill.NameStr "A");
     Fill.default_locale := None;
     Fill.json_genres := Fill.Null;
     Fill.json_locales := Fill.Many ["en"] |}.

Definition other_vendor (cfg : Fill.config) : Fill.config :=
  {| Fill.sqlite := false; Fill.diversity := Fill.diversity cfg;
     Fill.language := Fill.language cfg;
     Fill.testing_mode := Fill.testing_mode cfg;
     Fill.date_format := Fill.date_format cfg;
     Fill.strptime := Fill.strptime cfg |}.

(** C5.  On an empty store, a load whose one item has no genres field (or a
    null one) ends in [KeyError] (or [TypeError]) in the loop that gathers
    the genres, before any [bulk_create]: no Item row is created for the
    identifier [a], although no Item with that [external_id] exists.  The
    branch for a value that is not a string reads [json_item[field]] again
    instead of the value it has just defaulted to the empty tuple. *)
Theorem item_load_stops_at_missing_genres :
  Fill.fill_db_with_items small_cfg [item_without_genres] Fill.empty_db
    = (Fill.empty_db, Raise KeyError) /\
  Fill.fill_db_with_items small_cfg [item_with_null_genres] Fill.empty_db
    = (Fill.empty_db, Raise TypeError) /\
  Fill.fill_db_with_items (other_vendor small_cfg) [item_without_genres]
      Fill.empty_db
    = (Fill.empty_db, Raise KeyError) /\
  Fill.items Fill.empty_db = ∅.
Proof. repeat split; by vm_compute. Qed.

(** ** Locale names *)

(** A store with the one locale of language code [a] and country code [-],
    which prints as [a--]. *)
Definition dash_locale : Language.Locale :=
  {| Language.language_code := "a"; Language.country_code := "-";
     Language.name := "" |}.

Definition en_locale : Language.Locale :=
  {| Language.language_code := "en"; Language.country_code := "";
     Language.name := "" |}.

Definition locale_db (t : gmap Z Language.Locale) : Fill.db :=
  Fill.set_table Fill.Locale_ t [] Fill.empty_db.

(** C9.  The name [a--] is not of the form XX or XX-XX and is dropped with
    a warning, and no row is created for it; yet the map returned for the set
    of names [{a--}] holds an entry for [a--]: no name having been accepted,
    the query is the empty [Q()], which selects every stored locale, and the
    stored locale (a, -) prints as [a--].  The same happens through the
    second query when [en] is asked for as well and is already stored. *)
Theorem get_locales_keeps_dropped_name :
  Fill.well_formed "a--" = false /\
  Language.str dash_locale = "a--" /\
  (let r := Fill.get_locales small_cfg {["a--"]}
                             (locale_db {[1 := dash_locale]}) in
   (exists m, r.2 = Ok m /\ m !! "a--" = Some (1, dash_locale)) /\
   Fill.warnings r.1
     = ["Dropped locale a-- for not respecting format XX-XX or XX"] /\
   Fill.locales r.1 = {[1 := dash_locale]}) /\
  (let r := Fill.get_locales small_cfg {["a--"; "en"]}
                             (locale_db {[1 := dash_locale; 2 := en_locale]}) in
   (exists m, r.2 = Ok m /\ m !! "a--" = Some (1, dash_locale)) /\
   Fill.locales r.1 = {[1 := dash_locale; 2 := en_locale]}).
Proof.
  split; [reflexivity|]. split; [reflexivity|]. split.
  - split; [|split; by vm_compute].
    eexists. split; [by vm_compute|]. by vm_compute.
  - split; [|by vm_compute].
    eexists. split; [by vm_compute|]. by vm_compute.
Qed.

(** * Further properties *)

(** ** Splitting at a separator *)

(** The character [c] does not occur in [s]. *)
Fixpoint no_char (c : ascii) (s : string) : bool :=
  match s with
  | EmptyString => true
  | String a s' => negb (Ascii.eqb a c) && no_char c s'
  end.

Lemma split_no_char sep s : no_char sep s = true -> PyStr.split sep s = [s].
Proof.
  induction s as [|a s IH]; simpl; [done|].
  intros [Ha Hs]%andb_prop. apply negb_true_iff in Ha. rewrite Ha.
  by rewrite (IH Hs).
Qed.

Lemma split_app sep a b :
  no_char sep a = true ->
  PyStr.split sep (a ++ String sep b)%string = a :: PyStr.split sep b.
Proof.
  induction a as [|x a IH]; simpl.
  - intros _. by rewrite Ascii.eqb_refl.
  - intros [Hx Ha]%andb_prop. apply negb_true_iff in Hx. rewrite Hx.
    by rewrite (IH Ha).
Qed.

(** ** Predictor.get_class: where it is right and how it fails *)

(** X1.  For a class directly in a top-level module, path [top.cls],
    [get_class] returns the class the path denotes. *)
Theorem get_class_of_top_level_module (w : Frappe.world) (pid : Z)
    (p : Frappe.Predictor) (top cls : string) (m : Frappe.pymodule)
    (c : string) :
  Frappe.predictors w !! pid = Some p ->
  Frappe.python_class p = (top ++ "." ++ cls)%string ->
  no_char "." top = true -> no_char "." cls = true -> top <> "" ->
  assoc top (Frappe.sys_modules w) = Some m ->
  assoc cls (Frappe.classes_of m) = Some c ->
  Frappe.get_class w pid = Ok (Frappe.ObjClass c) /\
  Frappe.denoted_class (Frappe.sys_modules w) (Frappe.python_class p) = Some c.
Proof.
  intros Hp Hpath Htop Hcls Hne Hm Hc.
  assert (Hsplit : PyStr.split "." (Frappe.python_class p) = [top; cls]).
  { rewrite Hpath.
    change (top ++ "." ++ cls)%string with (top ++ String "." cls)%string.
    rewrite split_app by done. by rewrite split_no_char. }
  split.
  - unfold Frappe.get_class, Frappe.Predictor_get_predictor.
    rewrite Hp. simpl. rewrite Hsplit. simpl.
    unfold Frappe.import_, PyStr.join. simpl.
    destruct (String.eqb_spec top "") as [->|_]; [done|].
    rewrite split_no_char by done. rewrite Hm. simpl. by rewrite Hc.
  - unfold Frappe.denoted_class. rewrite Hsplit. simpl.
    rewrite Hm. simpl. by rewrite Hc.
Qed.

Lemma get_class_of_top_level_module_witness :
  Frappe.get_class
    {| Frappe.predictors :=
         {[1 := {| Frappe.identifier := "a"; Frappe.python_class := "m.A" |}]};
       Frappe.modules := ∅; Frappe.aggregators := ∅;
       Frappe.sys_modules := [("m", Frappe.PyModule [("A", "m.A")] [])];
       Frappe.load_predictor := fun _ _ _ => Raise TypeError |} 1
  = Ok (Frappe.ObjClass "m.A").
Proof.
  eapply (get_class_of_top_level_module _ 1 _ "m" "A"); reflexivity || done.
Defined.

(** X2.  A path without a dot has the empty module name, which [__import__]
    refuses: [get_class] raises [ValueError]. *)
Theorem get_class_without_module (w : Frappe.world) (pid : Z)
    (p : Frappe.Predictor) :
  Frappe.predictors w !! pid = Some p ->
  no_char "." (Frappe.python_class p) = true ->
  Frappe.get_class w pid = Raise ValueError /\
  Frappe.check_predictor w p = Raise ValueError.
Proof.
  intros Hp Hnd.
  unfold Frappe.get_class, Frappe.check_predictor,
    Frappe.Predictor_get_predictor.
  rewrite Hp. simpl. rewrite (split_no_char _ _ Hnd). by simpl.
Qed.

Lemma get_class_without_module_witness :
  Frappe.get_class
    {| Frappe.predictors :=
         {[1 := {| Frappe.identifier := "a"; Frappe.python_class := "A" |}]};
       Frappe.modules := ∅; Frappe.aggregators := ∅;
       Frappe.sys_modules := [("A", Frappe.PyModule [("A", "A")] [])];
       Frappe.load_predictor := fun _ _ _ => Raise TypeError |} 1
  = Raise ValueError.
Proof.
  eapply (get_class_without_module _ 1); reflexivity.
Defined.

Lemma get_class_package_attribute_witness :
  exists p top rest cls m,
    Frappe.predictors (tensor_world frappe_pkg_shadow) !! 1 = Some p /\
    PyStr.split "." (PyStr.join "." (Frappe.init
        (PyStr.split "." (Frappe.python_class p)))) = top :: rest /\
    last (PyStr.split "." (Frappe.python_class p)) = Some cls /\
    assoc top frappe_pkg_shadow = Some m /\
    assoc cls (Frappe.classes_of m) = Some "frappe.TensorCoFi".
Proof.
  apply (get_class_package_attribute (tensor_world frappe_pkg_shadow) 1).
  reflexivity.
Defined.

(** ** Module.get_aggregator and Module.aggregate *)

Lemma fold_insert_lookup {A K V} `{Countable K} (key : A -> K) (val : A -> V)
    (l : list A) (acc : gmap K V) (k : K) (v : V) :
  fold_left (fun d a => <[key a := val a]> d) l acc !! k = Some v ->
  (exists a, a ∈ l /\ key a = k /\ val a = v) \/ acc !! k = Some v.
Proof.
  revert acc. induction l as [|a l IH]; intros acc; simpl; [by right|].
  intros [(a' & Ha' & Hk & Hv)|Hacc]%IH.
  - left. exists a'. split; [by right | done].
  - destruct (decide (key a = k)) as [Hk|Hk].
    + rewrite Hk, lookup_insert_eq in Hacc. injection Hacc as <-.
      left. exists a. split; [by left | done].
    + rewrite lookup_insert_ne in Hacc by done. by right.
Qed.

Lemma fold_insert_is_Some {A K V} `{Countable K} (key : A -> K) (val : A -> V)
    (l : list A) (acc : gmap K V) (a : A) :
  a ∈ l -> is_Some (fold_left (fun d a => <[key a := val a]> d) l acc !! key a).
Proof.
  revert acc. induction l as [|b l IH]; intros acc Hin; simpl.
  - by apply elem_of_nil in Hin.
  - apply elem_of_cons in Hin as [->|Hin]; [|by apply IH].
    clear IH. assert (Hs : is_Some (<[key b := val b]> acc !! key b)).
    { rewrite lookup_insert_eq. by eexists. }
    revert Hs. generalize (<[key b := val b]> acc).
    induction l as [|c l IH]; intros acc' Hs; simpl; [done|].
    apply IH. rewrite lookup_insert. case_decide; [by eexists | done].
Qed.

(** X4.  The weight table of a module binds exactly the predictors that have a
    row for the module, each to the weight of one of its rows. *)
Theorem get_aggregator_rows (w : Frappe.world) (module_id pid : Z) :
  (forall wt, Frappe.get_aggregator w module_id !! pid = Some wt ->
     exists k row, Frappe.aggregators w !! k = Some row /\
       Frappe.module_id row = module_id /\ Frappe.predictor_id row = pid /\
       Frappe.weight row = wt) /\
  ((exists k row, Frappe.aggregators w !! k = Some row /\
      Frappe.module_id row = module_id /\ Frappe.predictor_id row = pid) <->
   is_Some (Frappe.get_aggregator w module_id !! pid)).
Proof.
  unfold Frappe.get_aggregator.
  assert (Hfwd : forall wt,
    fold_left (fun d (a : Z * Frappe.PredictorWithAggregator) =>
                 <[Frappe.predictor_id a.2 := Frappe.weight a.2]> d)
      (Db.select (fun _ a => Z.eqb (Frappe.module_id a) module_id)
                 (Frappe.aggregators w)) (∅ : gmap Z (option Q)) !! pid
      = Some wt ->
    exists k row, Frappe.aggregators w !! k = Some row /\
      Frappe.module_id row = module_id /\ Frappe.predictor_id row = pid /\
      Frappe.weight row = wt).
  { intros wt [([k row] & Hin & Hk & Hv)|Hacc]%fold_insert_lookup;
      [|by rewrite lookup_empty in Hacc].
    apply select_spec in Hin as [Hrow Hm]. exists k, row.
    split; [done|]. split; [by apply Z.eqb_eq|]. done. }
  split; [exact Hfwd|]. split.
  - intros (k & row & Hrow & Hm & Hp). subst pid.
    apply (fold_insert_is_Some
             (fun a : Z * Frappe.PredictorWithAggregator =>
                Frappe.predictor_id a.2)
             (fun a => Frappe.weight a.2) _ (∅ : gmap Z (option Q))
             (k, row)).
    apply select_spec. split; [done|]. by apply Z.eqb_eq.
  - intros [wt Hwt]. destruct (Hfwd wt Hwt) as (k & row & ? & ? & ? & _).
    by exists k, row.
Qed.

Lemma map_r_Ok {A B} (f : A -> result B) xs ys :
  Frappe.map_r f xs = Ok ys -> Forall2 (fun x y => f x = Ok y) xs ys.
Proof.
  revert ys. induction xs as [|x xs IH]; intros ys; simpl.
  - intros [= <-]. constructor.
  - destruct (f x) as [y|] eqn:Hx; simpl; [|done].
    destruct (Frappe.map_r f xs) as [ys'|]; simpl; [|done].
    intros [= <-]. constructor; [done | by apply IH].
Qed.

(** The first element at which the function raises ends the map. *)
Lemma map_r_raises {A B} (f : A -> result B) (xs : list A) :
  (exists x e, x ∈ xs /\ f x = Raise e) ->
  exists x e, x ∈ xs /\ f x = Raise e /\ Frappe.map_r f xs = Raise e.
Proof.
  induction xs as [|a xs IH]; intros (x & e & Hin & Hx).
  - by apply elem_of_nil in Hin.
  - simpl. destruct (f a) as [y|e'] eqn:Ha.
    + apply elem_of_cons in Hin as [->|Hin]; [congruence|].
      destruct IH as (x' & e1 & Hin' & Hx' & Hmap); [by exists x, e|].
      exists x', e1. split; [by right|]. split; [done|].
      by rewrite bind_Ok, Hmap.
    + exists a, e'. split; [by left|]. split; [done|]. by rewrite bind_Raise.
Qed.

(** What [aggregate] does at one predictor of the map. *)
Lemma aggregate_at (w : Frappe.world) (self : Frappe.Module)
    (predictions : gmap Z Frappe.ndarray) pid p :
  predictions !! pid = Some p ->
  (p ← lookup_or KeyError (predictions !! pid);
   wt ← lookup_or KeyError
          (Frappe.get_aggregator w (Frappe.pk self) !! pid);
   Frappe.times p wt) =
  match Frappe.get_aggregator w (Frappe.pk self) !! pid with
  | None => Raise KeyError
  | Some None => Raise TypeError
  | Some (Some x) => Ok (Frappe.scale p x)
  end.
Proof.
  intros ->. simpl.
  by destruct (Frappe.get_aggregator w (Frappe.pk self) !! pid) as [[x|]|].
Qed.

(** A predictor of the map without a weight ends [aggregate], with the
    exception raised at the first such predictor. *)
Lemma aggregate_raises (w : Frappe.world) (self : Frappe.Module)
    (predictions : gmap Z Frappe.ndarray) :
  (exists pid p, predictions !! pid = Some p /\
     forall x, Frappe.get_aggregator w (Frappe.pk self) !! pid
               ≠ Some (Some x)) ->
  exists pid p,
    predictions !! pid = Some p /\
    ((Frappe.get_aggregator w (Frappe.pk self) !! pid = None /\
      Frappe.aggregate w self predictions = Raise KeyError) \/
     (Frappe.get_aggregator w (Frappe.pk self) !! pid = Some None /\
      Frappe.aggregate w self predictions = Raise TypeError)).
Proof.
  intros (pid & p & Hp & Hwt). unfold Frappe.aggregate.
  destruct (map_r_raises
    (fun pid => p ← lookup_or KeyError (predictions !! pid);
                wt ← lookup_or KeyError
                       (Frappe.get_aggregator w (Frappe.pk self) !! pid);
                Frappe.times p wt)
    (map_to_list predictions).*1) as (pid' & e & Hin & He & Hmap).
  - exists pid. rewrite (aggregate_at _ _ _ _ _ Hp).
    destruct (Frappe.get_aggregator w (Frappe.pk self) !! pid) as [[x|]|]
      eqn:Hw.
    + by destruct (Hwt x).
    + exists TypeError. split; [|done]. apply list_elem_of_fmap.
      exists (pid, p). split; [done|]. by apply elem_of_map_to_list.
    + exists KeyError. split; [|done]. apply list_elem_of_fmap.
      exists (pid, p). split; [done|]. by apply elem_of_map_to_list.
  - apply list_elem_of_fmap in Hin
      as ([pid2 p'] & -> & Hin%elem_of_map_to_list).
    simpl in He, Hmap |- *. exists pid2, p'. split; [done|].
    rewrite Hmap, bind_Raise. rewrite (aggregate_at _ _ _ _ _ Hin) in He.
    destruct (Frappe.get_aggregator w (Frappe.pk self) !! pid2) as [[x|]|];
      [done | right | left]; injection He as <-; done.
Qed.

(** X5.  [aggregate] returns only when every predictor of the map has a row
    with a weight that is not null for the module.  A predictor of the map
    without such a weight ends the call, with [KeyError] when its row is
    missing and with [TypeError] when its weight is null: [KeyError] when no
    predictor of the map has a null weight, [TypeError] when every predictor
    of the map has a row, and otherwise the one or the other, by the first
    such predictor gone through. *)
Theorem aggregate_needs_weights (w : Frappe.world) (self : Frappe.Module)
    (predictions : gmap Z Frappe.ndarray) :
  (forall r, Frappe.aggregate w self predictions = Ok r ->
     forall pid p, predictions !! pid = Some p ->
       exists x,
         Frappe.get_aggregator w (Frappe.pk self) !! pid = Some (Some x)) /\
  ((exists pid p, predictions !! pid = Some p /\
      Frappe.get_aggregator w (Frappe.pk self) !! pid = None) ->
   (forall pid p, predictions !! pid = Some p ->
      Frappe.get_aggregator w (Frappe.pk self) !! pid ≠ Some None) ->
   Frappe.aggregate w self predictions = Raise KeyError) /\
  ((exists pid p, predictions !! pid = Some p /\
      Frappe.get_aggregator w (Frappe.pk self) !! pid = Some None) ->
   (forall pid p, predictions !! pid = Some p ->
      is_Some (Frappe.get_aggregator w (Frappe.pk self) !! pid)) ->
   Frappe.aggregate w self predictions = Raise TypeError) /\
  ((exists pid p, predictions !! pid = Some p /\
      forall x, Frappe.get_aggregator w (Frappe.pk self) !! pid
                ≠ Some (Some x)) ->
   Frappe.aggregate w self predictions = Raise KeyError \/
   Frappe.aggregate w self predictions = Raise TypeError).
Proof.
  split; [|split; [|split]].
  - unfold Frappe.aggregate. intros r Hagg pid p Hp.
    destruct (Frappe.map_r _ _) as [products|] eqn:Hmap; [|done].
    apply map_r_Ok in Hmap.
    assert (Hin : pid ∈ (map_to_list predictions).*1).
    { apply list_elem_of_fmap. exists (pid, p). split; [done|].
      by apply elem_of_map_to_list. }
    apply list_elem_of_lookup in Hin as [i Hi].
    destruct (Forall2_lookup_l _ _ _ _ _ Hmap Hi) as (y & _ & Hy).
    rewrite Hp in Hy. simpl in Hy.
    destruct (Frappe.get_aggregator w (Frappe.pk self) !! pid) as [[x|]|];
      simpl in Hy; [by exists x | done | done].
  - intros (pid & p & Hp & Hnone) Hnull.
    destruct (aggregate_raises w self predictions)
      as (pid' & p' & Hp' & [[_ H]|[Hw _]]); [|done|].
    + exists pid, p. split; [done|]. intros x. by rewrite Hnone.
    + by destruct (Hnull _ _ Hp').
  - intros (pid & p & Hp & Hnull) Hrows.
    destruct (aggregate_raises w self predictions)
      as (pid' & p' & Hp' & [[Hw _]|[_ H]]); [| |done].
    + exists pid, p. split; [done|]. intros x. by rewrite Hnull.
    + destruct (Hrows _ _ Hp') as [? ?]. congruence.
  - intros Hex.
    destruct (aggregate_raises w self predictions Hex)
      as (pid' & p' & _ & [[_ H]|[_ H]]); [by left | by right].
Qed.

Lemma aggregate_needs_weights_witness :
  (exists x, Frappe.get_aggregator aggregate_world (Frappe.pk module_one) !! 1
             = Some (Some x)) /\
  Frappe.aggregate aggregate_world module_one
    {[9 := Frappe.Scalar (1 # 1)%Q]} = Raise KeyError.
Proof.
  split.
  - eapply (proj1 (aggregate_needs_weights aggregate_world module_one
              {[1 := Frappe.Array [1 # 1; 2 # 1]%Q;
                2 := Frappe.Array [3 # 1; 4 # 1]%Q]})
              (Frappe.Scalar (10 # 1)%Q)); by vm_compute.
  - apply (proj1 (proj2 (aggregate_needs_weights aggregate_world module_one
             {[9 := Frappe.Scalar (1 # 1)%Q]}))).
    + exists 9, (Frappe.Scalar (1 # 1)%Q). split; [done | by vm_compute].
    + intros pid p [<- _]%lookup_singleton_Some. by vm_compute.
Defined.

(** ** Locale: printing, parsing, saving, caching *)

Lemma string_app_empty (s : string) : (s ++ "")%string = s.
Proof.
  induction s as [|a s IH]; [done|].
  change (String a (s ++ "")%string = String a s). by rewrite IH.
Qed.

(** X7.  A locale whose codes hold no dash is read back from its printed form
    by the parser of [get_locales]: [split_locale (str l)] gives its language
    and country code. *)
Theorem split_locale_str (l : Language.Locale) :
  no_char "-" (Language.language_code l) = true ->
  no_char "-" (Language.country_code l) = true ->
  Fill.split_locale (Language.str l) = Fill.locale_pair l.
Proof.
  intros Hl Hc. unfold Fill.split_locale, Language.str, Fill.locale_pair.
  destruct (String.eqb_spec (Language.country_code l) "") as [Hempty|Hne];
    cbv beta iota.
  - rewrite Hempty, string_app_empty. by rewrite split_no_char.
  - change (Language.language_code l ++ "-" ++ Language.country_code l)%string
      with (Language.language_code l
            ++ String "-" (Language.country_code l))%string.
    rewrite split_app by done. by rewrite split_no_char.
Qed.

Lemma split_locale_str_witness :
  Fill.split_locale
    (Language.str {| Language.language_code := "pt";
                     Language.country_code := "br"; Language.name := "" |})
  = ("pt", "br").
Proof.
  apply (split_locale_str
           {| Language.language_code := "pt"; Language.country_code := "br";
              Language.name := "" |}); reflexivity.
Defined.

(** X8.  Saving the instance again, as it is after a first save, changes
    neither the instance nor the table. *)
Theorem locale_save_twice (pk : option Z) (self : Language.Locale)
    (t : gmap Z Language.Locale) :
  let '((k, stored), t') := Language.save pk self t in
  Language.save (Some k) stored t' = ((k, stored), t').
Proof.
  unfold Language.save, Db.save. simpl. rewrite !lower_idem.
  by rewrite insert_insert_eq.
Qed.

(** X9.  The part of the cache handler that works: under the action it tests
    for, a locale added to items that have no entry yet is recorded in both
    caches, for every item of the signal. *)
Theorem first_locale_of_item_recorded (pk : Z) (pk_set : list Z)
    (c : Language.caches) :
  (forall i, i ∈ pk_set -> Language.item_locales c !! i = None) ->
  let r := Language.add_item_locale_to_cache
             {| Language.instance_pk := pk; Language.action := "post_save";
                Language.pk_set := pk_set |} c in
  r.2 = Ok tt /\
  forall i, i ∈ pk_set ->
    Language.item_locales r.1 !! i = Some {[pk]} /\
    i ∈ Language.get (Language.items_by_locale r.1) pk ∅.
Proof.
  intros Hnew. unfold Language.add_item_locale_to_cache. simpl.
  set (body := fun i : Z => _).
  assert (Hloop : forall l c0,
    (forall i, i ∈ l ->
       Language.item_locales c0 !! i = None \/
       Language.item_locales c0 !! i = Some {[pk]}) ->
    (Language.for_pks body l c0).2 = Ok tt /\
    (forall i, i ∈ l ->
       Language.item_locales (Language.for_pks body l c0).1 !! i
         = Some {[pk]} /\
       i ∈ Language.get
             (Language.items_by_locale (Language.for_pks body l c0).1) pk ∅) /\
    (forall i, Language.item_locales c0 !! i = Some {[pk]} ->
       Language.item_locales (Language.for_pks body l c0).1 !! i
         = Some {[pk]}) /\
    (forall i, i ∈ Language.get (Language.items_by_locale c0) pk ∅ ->
       i ∈ Language.get
             (Language.items_by_locale (Language.for_pks body l c0).1) pk ∅)).
  { induction l as [|i l IH]; intros c0 Hc0.
    - split; [done|]. split; [intros i Hi; by apply elem_of_nil in Hi|].
      by split.
    - set (c1 := (body i c0).1).
      assert (Hstep : body i c0 = (c1, Ok tt)) by done.
      assert (Hil : Language.item_locales c1 !! i = Some {[pk]}).
      { unfold c1, body. simpl. rewrite lookup_insert_eq. f_equal.
        unfold Language.get.
        destruct (Hc0 i) as [-> | ->]; [by left | | done].
        simpl. by rewrite (left_id_L ∅ (∪)). }
      assert (Hibl : i ∈ Language.get (Language.items_by_locale c1) pk ∅).
      { unfold c1, body, Language.get. simpl. rewrite lookup_insert_eq.
        simpl. set_solver. }
      assert (Hkeep1 : forall j, Language.item_locales c0 !! j = Some {[pk]} ->
                Language.item_locales c1 !! j = Some {[pk]}).
      { intros j Hj. destruct (decide (j = i)) as [->|Hne]; [done|].
        unfold c1, body. simpl. by rewrite lookup_insert_ne. }
      assert (Hkeep2 : forall j,
                j ∈ Language.get (Language.items_by_locale c0) pk ∅ ->
                j ∈ Language.get (Language.items_by_locale c1) pk ∅).
      { intros j Hj. unfold c1, body, Language.get. simpl.
        rewrite lookup_insert_eq. simpl. set_solver. }
      destruct (IH c1) as (Hok & Hall & Hk1 & Hk2).
      { intros j Hj. destruct (decide (j = i)) as [->|Hne]; [by right|].
        unfold c1, body. simpl. rewrite lookup_insert_ne by done.
        apply Hc0. by right. }
      change (Language.for_pks body (i :: l) c0)
        with (Language.for_pks body l c1).
      split; [done|]. split; [|split].
      + intros j [->|Hj]%elem_of_cons; [|by apply Hall].
        split; [by apply Hk1 | by apply Hk2].
      + intros j Hj. by apply Hk1, Hkeep1.
      + intros j Hj. by apply Hk2, Hkeep2. }
  destruct (Hloop pk_set c) as (Hok & Hall & _).
  { intros i Hi. left. by apply Hnew. }
  unfold mbind, Language.cacheM_bind.
  destruct (Language.for_pks body pk_set c) as [c' r] eqn:Hfor.
  simpl in Hok, Hall. subst r. split; [done|]. exact Hall.
Qed.

Lemma first_locale_of_item_recorded_witness :
  let r := Language.add_item_locale_to_cache
             (signal 7 "post_save" [1; 2]) Language.no_caches in
  Language.item_locales r.1 !! 2 = Some {[7]}.
Proof.
  destruct (first_locale_of_item_recorded 7 [1; 2] Language.no_caches)
    as [_ H]; [intros i _; apply lookup_empty|].
  apply (H 2). by right; left.
Defined.

(** ** Slicing for sqlite *)

Lemma slices_fuel_concat {A} (n fuel : nat) (l : list A) :
  (0 < n)%nat -> (length l <= fuel)%nat ->
  concat (Fill.slices_fuel fuel n l) = l.
Proof.
  intros Hn. revert l. induction fuel as [|fuel IH]; intros l Hl.
  - destruct l; [done | simpl in Hl; lia].
  - destruct l as [|a l]; [done|]. cbn [Fill.slices_fuel concat].
    rewrite IH; [apply take_drop|].
    rewrite length_drop. simpl in *. lia.
Qed.

Lemma slices_fuel_cap {A} (n fuel : nat) (l : list A) :
  Forall (fun s => (length s <= n)%nat) (Fill.slices_fuel fuel n l).
Proof.
  revert l. induction fuel as [|fuel IH]; intros l; [constructor|].
  destruct l as [|a l]; [constructor|]. cbn [Fill.slices_fuel].
  constructor; [|apply IH]. rewrite length_take. lia.
Qed.

(** X13.  The slices [l[i:i+n]] taken for [i] in [range(0, len(l), n)] have at
    most [n] elements each and, put together, are [l]. *)
Theorem slices_cover {A} (n : nat) (l : list A) :
  (0 < n)%nat ->
  concat (Fill.slices n l) = l /\
  Forall (fun s => (length s <= n)%nat) (Fill.slices n l).
Proof.
  intros Hn. split; [by apply slices_fuel_concat | apply slices_fuel_cap].
Qed.

Lemma slices_cover_witness :
  concat (Fill.slices 2 [1; 2; 3; 4; 5]) = [1; 2; 3; 4; 5] /\
  Forall (fun s => (length s <= 2)%nat) (Fill.slices 2 [1; 2; 3; 4; 5]).
Proof. apply (slices_cover 2 [1; 2; 3; 4; 5]). lia. Defined.

(** The calls of a run of sliced [bulk_create] calls, whether it goes
    through or stops at a slice that is refused. *)
Lemma sliced_calls_cap {A} (M : Fill.model A) (n : nat)
    (ss : list (list (option Z * A))) (d : Fill.db) :
  (forall t cs d, Fill.calls (Fill.set_table M t cs d) = cs) ->
  Forall (fun s => (length s <= n)%nat) ss ->
  exists new,
    Fill.calls (Fill.for_ (fun _ slice => Fill.bulk_create M slice) ss tt d).1
    = new ++ Fill.calls d /\
    Forall (fun c => c.1 = Fill.model_name M /\ (c.2 <= n)%nat) new.
Proof.
  intros Hc. revert d. induction ss as [|s ss IH]; intros d Hcap.
  - by exists [].
  - apply Forall_cons in Hcap as [Hs Hcap]. rewrite for__cons.
    destruct (fill_bulk_create_cases M s d) as [(t' & _ & ->)|[_ ->]].
    + destruct (IH (Fill.set_table M t'
                      ((Fill.model_name M, length s) :: Fill.calls d) d) Hcap)
        as (new & Hcalls & Hnew).
      exists (new ++ [(Fill.model_name M, length s)]). split.
      * by rewrite Hcalls, Hc, <- app_assoc.
      * apply Forall_app. split; [done|]. by repeat constructor.
    + exists [(Fill.model_name M, length s)]. simpl. rewrite Hc.
      split; [done|]. by repeat constructor.
Qed.

(** Slices of instances without keys that one call would accept go through
    one by one, and leave the table of that one call. *)
Lemma sliced_calls {A} (M : Fill.model A) (ss : list (list (option Z * A)))
    (d : Fill.db) t' :
  (forall t cs d, Fill.table M (Fill.set_table M t cs d) = t) ->
  (forall t cs d, Fill.calls (Fill.set_table M t cs d) = cs) ->
  (forall o, o ∈ concat ss -> o.1 = None) ->
  Db.bulk_create (Fill.clash M) (concat ss) (Fill.table M d) = Ok t' ->
  let r := Fill.for_ (fun _ slice => Fill.bulk_create M slice) ss tt d in
  r.2 = Ok tt /\
  Fill.table M r.1 = t' /\
  Fill.calls r.1
  = rev (List.map (fun s => (Fill.model_name M, length s)) ss) ++ Fill.calls d.
Proof.
  intros Ht Hc. revert d. induction ss as [|s ss IH]; intros d Hkeys Hrun.
  - injection Hrun as <-. done.
  - cbn [concat] in Hrun, Hkeys.
    rewrite bulk_create_keyless_app in Hrun by done.
    destruct (Db.bulk_create (Fill.clash M) s (Fill.table M d))
      as [t1|] eqn:Hs; [rewrite bind_Ok in Hrun | by rewrite bind_Raise in Hrun].
    rewrite for__cons, (fill_bulk_create_Ok _ _ _ _ Hs).
    destruct (IH (Fill.set_table M t1
                    ((Fill.model_name M, length s) :: Fill.calls d) d))
      as (Hok & Htab & Hcalls).
    { intros o Ho. apply Hkeys, elem_of_app. by right. }
    { by rewrite Ht. }
    split; [done|]. split; [done|].
    rewrite Hcalls, Hc. simpl. by rewrite <- app_assoc.
Qed.

(** Slices of instances without keys that one call would refuse are
    refused, at the first slice that holds a refused row. *)
Lemma sliced_raises {A} (M : Fill.model A) (ss : list (list (option Z * A)))
    (d : Fill.db) e :
  (forall t cs d, Fill.table M (Fill.set_table M t cs d) = t) ->
  (forall o, o ∈ concat ss -> o.1 = None) ->
  Db.bulk_create (Fill.clash M) (concat ss) (Fill.table M d) = Raise e ->
  (Fill.for_ (fun _ slice => Fill.bulk_create M slice) ss tt d).2
  = Raise IntegrityError.
Proof.
  intros Ht. revert d. induction ss as [|s ss IH]; intros d Hkeys Hrun.
  - done.
  - cbn [concat] in Hrun, Hkeys.
    rewrite bulk_create_keyless_app in Hrun by done. rewrite for__cons.
    destruct (fill_bulk_create_cases M s d) as [(t1 & Hs & ->)|[_ ->]];
      [|done].
    rewrite Hs, bind_Ok in Hrun. apply IH.
    + intros o Ho. apply Hkeys, elem_of_app. by right.
    + by rewrite Ht.
Qed.

Lemma slices_max_rows_concat {A} (objs : list A) :
  concat (Fill.slices Fill.SQLITE_MAX_ROWS objs) = objs.
Proof. apply slices_fuel_concat; [unfold Fill.SQLITE_MAX_ROWS; lia | done]. Qed.

(** X14.  Under sqlite the rows of a sliced [bulk_create] of instances
    without keys (items, genres, locales) go out in calls of at most
    [SQLITE_MAX_ROWS] rows, whether the load goes through or not; when one
    call with all the rows would go through, the sliced calls go through and
    the table ends up as after that one call; when that one call would be
    refused, the sliced calls raise IntegrityError. *)
Theorem sliced_bulk_create {A} (cfg : Fill.config) (M : Fill.model A)
    (objs : list (option Z * A)) (d : Fill.db) :
  (forall t cs d, Fill.table M (Fill.set_table M t cs d) = t) ->
  (forall t cs d, Fill.calls (Fill.set_table M t cs d) = cs) ->
  Fill.sqlite cfg = true ->
  (forall o, o ∈ objs -> o.1 = None) ->
  let r := Fill.bulk_create_by_vendor cfg M objs d in
  (exists new,
     Fill.calls r.1 = new ++ Fill.calls d /\
     Forall (fun c => c.1 = Fill.model_name M /\
                      (c.2 <= Fill.SQLITE_MAX_ROWS)%nat) new) /\
  (forall t',
     Db.bulk_create (Fill.clash M) objs (Fill.table M d) = Ok t' ->
     r.2 = Ok tt /\ Fill.table M r.1 = t') /\
  (forall e,
     Db.bulk_create (Fill.clash M) objs (Fill.table M d) = Raise e ->
     r.2 = Raise IntegrityError).
Proof.
  intros Ht Hc Hsq Hkeys. unfold Fill.bulk_create_by_vendor. rewrite Hsq.
  pose proof (slices_max_rows_concat objs) as Hcat.
  split; [|split].
  - apply sliced_calls_cap; [done|]. apply slices_fuel_cap.
  - intros t' Hrun.
    destruct (sliced_calls M (Fill.slices Fill.SQLITE_MAX_ROWS objs) d t'
                Ht Hc) as (Hok & Htab & _); [by rewrite Hcat.. | done].
  - intros e Hrun.
    apply (sliced_raises M _ d e Ht); by rewrite Hcat.
Qed.

Lemma sliced_bulk_create_witness :
  let r := Fill.bulk_create_by_vendor small_cfg Fill.Item_
             [(None, {| Fill.external_id := "a";
                        Fill.name := Fill.NameStr "A" |})] Fill.empty_db in
  r.2 = Ok tt /\
  exists new,
    Fill.calls r.1 = new ++ [] /\
    Forall (fun c => c.1 = "Item" /\ (c.2 <= Fill.SQLITE_MAX_ROWS)%nat) new.
Proof.
  destruct (sliced_bulk_create small_cfg Fill.Item_
              [(None, {| Fill.external_id := "a";
                         Fill.name := Fill.NameStr "A" |})] Fill.empty_db)
    as ((new & Hcalls & Hcap) & Hgo & _); [done | done | done | |].
  - by intros o ->%list_elem_of_singleton.
  - split; [|by exists new].
    by destruct (Hgo _ eq_refl).
Defined.

(** ** FillTool.fill_inventory: what it leaves alone *)

(** The exceptions a computation can end in. *)
Definition raises_only {A} (E : pyexc -> Prop) (m : Fill.fillM A) : Prop :=
  forall d e, (m d).2 = Raise e -> E e.

Lemma raises_only_bind {A B} E (m : Fill.fillM A) (f : A -> Fill.fillM B) :
  raises_only E m -> (forall a, raises_only E (f a)) ->
  raises_only E (m ≫= f).
Proof.
  intros Hm Hf d e. unfold mbind, Fill.fillM_bind.
  specialize (Hm d). destruct (m d) as [d' [a|e']]; simpl in *.
  - apply Hf.
  - intros [= <-]. by apply Hm.
Qed.

Lemma raises_only_ret {A} E (a : A) : raises_only E (mret a : Fill.fillM A).
Proof. by intros d e. Qed.

Lemma raises_only_pure {A} (E : pyexc -> Prop) (r : result A) :
  (forall e, r = Raise e -> E e) -> raises_only E (Fill.pure r).
Proof. intros Hr d e. simpl. apply Hr. Qed.

Lemma raises_only_warn E msg : raises_only E (Fill.warn msg).
Proof. by intros d e. Qed.

Lemma raises_only_for_ {A S} E (body : S -> A -> Fill.fillM S) xs :
  (forall st x, raises_only E (body st x)) ->
  forall st, raises_only E (Fill.for_ body xs st).
Proof.
  intros Hbody. induction xs as [|x xs IH]; intros st;
    [apply raises_only_ret|].
  simpl. apply raises_only_bind; [apply Hbody | apply IH].
Qed.

Lemma strptime_field_raises cfg value e :
  Fill.strptime_field cfg value = Raise e ->
  e = KeyError \/ e = TypeError \/ e = ValueError.
Proof.
  destruct value as [| |text]; simpl.
  - intros [= <-]. by left.
  - intros [= <-]. right. by left.
  - destruct (Fill.strptime cfg text _); simpl; [done|].
    intros [= <-]. right. by right.
Qed.

Lemma parse_dates_raises cfg j e :
  Fill.parse_dates cfg j = Raise e ->
  e = KeyError \/ e = TypeError \/ e = ValueError.
Proof.
  unfold Fill.parse_dates.
  destruct (Fill.strptime_field cfg (Fill.acquired j)) as [a|e'] eqn:Ha.
  - rewrite bind_Ok. destruct (Fill.dropped j) as [| |text] eqn:Hd; [done| |].
    + destruct (Fill.strptime_field cfg Fill.NullDate) as [x|e'] eqn:Hx;
        [done|].
      simpl. intros [= <-]. by apply strptime_field_raises in Hx.
    + destruct (Fill.strptime_field cfg (Fill.DateText text)) as [x|e'] eqn:Hx;
        [done|].
      simpl. intros [= <-]. by apply strptime_field_raises in Hx.
  - rewrite bind_Raise. intros [= <-]. by apply strptime_field_raises in Ha.
Qed.

Lemma collect_inventory_raises cfg objects users items :
  raises_only (fun e => e = KeyError \/ e = TypeError \/ e = ValueError)
              (Fill.collect_inventory cfg objects users items).
Proof.
  unfold Fill.collect_inventory. apply raises_only_for_. intros st u.
  apply raises_only_for_. intros st' j. unfold Fill.collect_listing.
  destruct (items !! _).
  - apply raises_only_bind.
    { apply raises_only_pure. intros e.
      destruct (users !! _); simpl; [done | intros [= <-]; by left]. }
    intros user. apply raises_only_bind; [|intros; apply raises_only_ret].
    apply raises_only_pure. intros e He.
    by apply parse_dates_raises in He.
  - apply raises_only_bind; [apply raises_only_warn|].
    intros; apply raises_only_ret.
Qed.

(** X24.  When [fill_inventory] raises, it is with [KeyError] (a listing of a
    known item by a user that was not handed over, or without its
    acquisition date), [TypeError] (a date that is null), [ValueError] (a
    date that does not parse) or [IntegrityError] (the batch is refused by
    the store), and no table has changed.  The record of [bulk_create] calls
    is as before too, unless the batch was refused: then the one call is
    recorded. *)
Theorem fill_inventory_raises_before_writing (cfg : Fill.config)
    (objects : list Fill.json_user) (users : gmap string (Z * Fill.User))
    (items : gmap string (Z * Fill.Item)) (d : Fill.db) (e : pyexc) :
  (Fill.fill_inventory cfg objects users items d).2 = Raise e ->
  let d' := (Fill.fill_inventory cfg objects users items d).1 in
  (e = KeyError \/ e = TypeError \/ e = ValueError \/ e = IntegrityError) /\
  (Fill.items d' = Fill.items d /\ Fill.users d' = Fill.users d /\
   Fill.inventory d' = Fill.inventory d /\ Fill.genres d' = Fill.genres d /\
   Fill.locales d' = Fill.locales d /\
   Fill.item_genres d' = Fill.item_genres d /\
   Fill.item_locales d' = Fill.item_locales d) /\
  (e ≠ IntegrityError -> Fill.calls d' = Fill.calls d) /\
  (e = IntegrityError ->
   exists n, Fill.calls d' = ("Inventory", n) :: Fill.calls d).
Proof.
  pose proof (collect_inventory_raises cfg objects users items d) as Hexc.
  pose proof (keeps_collect_inventory (same_tables d) cfg objects users items)
    as Hkeep.
  specialize (Hkeep (fun d0 msg Hd0 => Hd0) d).
  destruct (Fill.collect_inventory cfg objects users items d)
    as [d1 [[q p0]|e']] eqn:Hc.
  - rewrite (fill_inventory_unfold _ _ _ _ _ _ _ _ _ Hc
               (reconcile_inventory_unfold _ _ _)).
    destruct (fill_bulk_create_cases Fill.Inventory_
                (map_to_list
                   (fold_left Fill.reconcile
                      (Db.select
                         (fun _ inv => Fill.q_match q (Fill.inv_key inv))
                         (Fill.inventory d1)) p0)).*2 d1)
      as [(t' & _ & ->)|[_ ->]]; [done|].
    intros [= <-].
    destruct Hkeep as (Hi & Hu & Hinv & Hg & Hl & Hig & Hil & Hcalls);
      [by repeat split|].
    simpl in *. split; [by repeat right|]. split; [done|].
    split; [done|]. intros _. eexists. by rewrite Hcalls.
  - assert (Hrun : Fill.fill_inventory cfg objects users items d
                   = (d1, Raise e')).
    { unfold Fill.fill_inventory. unfold mbind at 1. unfold Fill.fillM_bind.
      by rewrite Hc. }
    rewrite Hrun. simpl. intros [= <-].
    destruct Hkeep as (Hi & Hu & Hinv & Hg & Hl & Hig & Hil & Hcalls);
      [by repeat split|].
    destruct (Hexc _ eq_refl) as [-> | [-> | ->]].
    + split; [by left|]. split; [done|]. split; [done|]. done.
    + split; [right; by left|]. split; [done|]. split; [done|]. done.
    + split; [right; right; by left|]. split; [done|]. split; [done|]. done.
Qed.

Lemma fill_inventory_raises_before_writing_witness :
  Fill.inventory
    (Fill.fill_inventory small_cfg [user_u1] ∅ small_items one_row_db).1
  = {[5 := stored_row]}.
Proof.
  destruct (fill_inventory_raises_before_writing small_cfg [user_u1] ∅
              small_items one_row_db KeyError) as (_ & Hsame & _);
    [by vm_compute|].
  destruct Hsame as (_ & _ & Hinv & _). exact Hinv.
Defined.

(** X25.  A load that goes through writes only rows of listed pairs: a stored
    row whose pair no listing of the load names is as before; every row
    afterwards is under the key of a stored row of the same pair or is a new
    row of a listed pair; no key is lost. *)
Theorem fill_inventory_other_rows (cfg : Fill.config)
    (objects : list Fill.json_user) (users : gmap string (Z * Fill.User))
    (items : gmap string (Z * Fill.Item)) (d : Fill.db) :
  (forall u j item, u ∈ objects -> j ∈ Fill.user_items u ->
     items !! Fill.listing_eid j = Some item ->
     is_Some (users !! Fill.user_eid u) /\
     exists dates, Fill.parse_dates cfg j = Ok dates) ->
  let d' := (Fill.fill_inventory cfg objects users items d).1 in
  (forall pk row, Fill.inventory d !! pk = Some row ->
     (forall j, ~ listed objects users items (Fill.inv_key row) j) ->
     Fill.inventory d' !! pk = Some row) /\
  (forall pk row, Fill.inventory d' !! pk = Some row ->
     (exists row0, Fill.inventory d !! pk = Some row0 /\
                   Fill.inv_key row0 = Fill.inv_key row) \/
     (Fill.inventory d !! pk = None /\
      exists j, listed objects users items (Fill.inv_key row) j)) /\
  (forall pk, is_Some (Fill.inventory d !! pk) ->
              is_Some (Fill.inventory d' !! pk)).
Proof.
  intros Hok. cbv zeta.
  split; [intros pk row Hrow _; by apply fill_inventory_keeps_rows|].
  split; [|intros pk [row Hrow]; exists row;
           by apply fill_inventory_keeps_rows].
  destruct (collect_inventory_ok cfg objects users items d Hok)
    as ([q p0] & d1 & Hcollect & Hcol).
  rewrite (fill_inventory_unfold _ _ _ _ _ _ _ _ _ Hcollect
             (reconcile_inventory_unfold _ _ _)).
  pose proof Hcol as ((_ & _ & Hinv & _) & _ & _ & Hent).
  assert (Hrec := collected_reconciled _ _ _ _ _ _ _ _
            (Db.select (fun _ inv => Fill.q_match q (Fill.inv_key inv))
                       (Fill.inventory d1)) Hcol
            (fun kr H => proj1 (proj1 (select_spec _ _ kr.1 kr.2)
               ltac:(by destruct kr)))).
  set (p' := fold_left Fill.reconcile _ p0) in *.
  destruct Hrec as [HA _].
  assert (Hlisted : forall k i0, p0 !! k = Some i0 ->
            exists j, listed objects users items k j).
  { intros k [pko r] Hk.
    destruct (Hent _ _ _ Hk) as (_ & _ & u & j & item & user & HL & Hitem
                                 & Huser & -> & _).
    apply elem_of_listings in HL as [Hu Hj].
    exists j, u, item, user. done. }
  destruct (fill_bulk_create_cases Fill.Inventory_ (map_to_list p').*2 d1)
    as [(t' & Hrun & ->)|[_ ->]]; simpl; rewrite <- Hinv.
  - intros pk row Hrow.
    apply (bulk_create_inv _ _ _ _ _ _ Hrun) in Hrow
      as [Hrow|[Hnone [pko Hrow]]].
    + left. by exists row.
    + apply elem_of_values in Hrow as (k' & Hk').
      destruct (HA _ _ _ Hk') as (Hkey & (i0 & Hi0 & _) & _).
      right. split; [done|]. rewrite Hkey. by apply (Hlisted _ i0).
  - intros pk row Hrow. left. by exists row.
Qed.

(** A second stored row, of a pair the small load does not list. *)
Definition other_row : Fill.Inventory :=
  {| Fill.item_id := 8; Fill.user_id := 9;
     Fill.acquisition_date := 2014; Fill.dropped_date := None |}.

Definition two_rows_db : Fill.db :=
  Fill.set_table Fill.Inventory_ {[5 := stored_row; 6 := other_row]} []
                 Fill.empty_db.

Lemma fill_inventory_other_rows_witness :
  Fill.inventory
    (Fill.fill_inventory small_cfg [user_u1] small_users small_items
                         two_rows_db).1 !! 6
  = Some other_row.
Proof.
  destruct (fill_inventory_other_rows small_cfg [user_u1] small_users
              small_items two_rows_db small_load_ok) as (Hkeep & _).
  apply Hkeep; [reflexivity|].
  intros j [Hk _]%small_load_listed. discriminate Hk.
Defined.

(** ** FillTool.fill_db_with_users: the users table *)

Lemma elem_of_new_instances {K V} `{Countable K} (m : gmap K V)
    (o : option Z * V) :
  o ∈ Fill.new_instances m <-> o.1 = None /\ exists k, m !! k = Some o.2.
Proof.
  unfold Fill.new_instances. rewrite list_elem_of_In, in_map_iff. split.
  - intros ([k v] & <- & Hin). split; [done|]. exists k.
    by apply elem_of_map_to_list, list_elem_of_In.
  - intros [Ho [k Hk]]. exists (k, o.2). destruct o as [pk v]. simpl in *.
    subst pk. split; [done|]. by apply list_elem_of_In, elem_of_map_to_list.
Qed.

(** The instances made from the values of a dict have no keys: on a table
    without constraint the batch goes through. *)
Lemma new_instances_keyless {K V} `{Countable K} (m : gmap K V)
    (o : option Z * V) :
  o ∈ Fill.new_instances m -> o.1 = None.
Proof. by intros [Ho _]%elem_of_new_instances. Qed.

Lemma bulk_create_new_instances {K V} `{Countable K} (m : gmap K V)
    (t : gmap Z V) :
  exists t', Db.bulk_create Fill.no_constraint (Fill.new_instances m) t = Ok t'.
Proof. apply bulk_create_free, new_instances_keyless. Qed.





(** ** Frames of the item load *)

Lemma keeps_for_in {A S} P (body : S -> A -> Fill.fillM S) xs :
  (forall st x, x ∈ xs -> keeps P (body st x)) ->
  forall st, keeps P (Fill.for_ body xs st).
Proof.
  induction xs as [|x xs IH]; intros Hbody st; [apply keeps_ret|].
  simpl. apply keeps_bind; [apply Hbody; by left|].
  apply IH. intros st' y Hy. apply Hbody. by right.
Qed.

Lemma keeps_if {A} P (b : bool) (m1 m2 : Fill.fillM A) :
  keeps P m1 -> keeps P m2 -> keeps P (if b then m1 else m2).
Proof. by destruct b. Qed.

(** Goes through a computation built from binds, loops, queries and pure
    steps; [base] is tried on what writes. *)
Ltac keeps_walk base :=
  repeat first
    [ apply keeps_ret
    | apply keeps_pure
    | apply keeps_filter
    | progress base
    | apply keeps_for_; intros ? ?
    | apply keeps_if
    | match goal with
      | |- keeps _ (match ?x with _ => _ end) => destruct x
      end
    | apply keeps_bind; [|intros ?] ].

(** A step that writes to a table the property does not look at. *)
Ltac keeps_write :=
  first [ apply keeps_bulk_create;
          let H := fresh in intros ? ? ? H; exact H
        | let H := fresh in intros ? H; exact H ].

Lemma keeps_drop_existing {A} P (M : Fill.model A) key query dict :
  keeps P (Fill.drop_existing M key query dict).
Proof. unfold Fill.drop_existing. keeps_walk idtac. Qed.

(** X20.  For a vendor other than sqlite, [fill_item_genre] hands the
    dictionary itself to [bulk_create], not its values: the table of item
    genres is the same after the call as before, whatever the load. *)
Theorem item_genres_not_written (cfg : Fill.config)
    (objects : list Fill.json_item) (items : gmap string (Z * Fill.Item))
    (genres : gmap string (Z * Fill.Genre)) (d : Fill.db) :
  Fill.sqlite cfg = false ->
  Fill.item_genres (Fill.fill_item_genre cfg objects items genres d).1
  = Fill.item_genres d.
Proof.
  intros Hsq.
  assert (Hk : keeps (fun d' => Fill.item_genres d' = Fill.item_genres d)
                     (Fill.fill_item_genre cfg objects items genres));
    [|exact (Hk d eq_refl)].
  unfold Fill.fill_item_genre. rewrite Hsq.
  keeps_walk ltac:(first [ apply keeps_drop_existing
                         | keeps_write ]).
Qed.

Definition item_with_genre : Fill.json_item :=
  {| Fill.is_item := true; Fill.item_eid := "a";
     Fill.json_name := Some (Fill.NameStr "A");
     Fill.default_locale := None;
     Fill.json_genres := Fill.Many ["g"];
     Fill.json_locales := Fill.Many ["en"] |}.

Definition stored_a : gmap string (Z * Fill.Item) :=
  {["a" := (1, {| Fill.external_id := "a"; Fill.name := Fill.NameStr "A" |})]}.

Definition stored_g : gmap string (Z * Fill.Genre) :=
  {["g" := (3, {| Fill.genre_name := "g" |})]}.

Lemma item_genres_not_written_witness :
  Fill.item_genres
    (Fill.fill_item_genre (other_vendor small_cfg) [item_with_genre]
                          stored_a stored_g Fill.empty_db).1 = ∅.
Proof.
  apply (item_genres_not_written (other_vendor small_cfg) [item_with_genre]
           stored_a stored_g Fill.empty_db).
  reflexivity.
Defined.

(** ** The row cap in an item load *)

(** The calls made since the record of calls was [cs] have at most
    [SQLITE_MAX_ROWS] rows each. *)
Definition capped (cs : list (string * nat)) (d : Fill.db) : Prop :=
  exists new, Fill.calls d = new ++ cs /\
              Forall (fun c => (c.2 <= Fill.SQLITE_MAX_ROWS)%nat) new.

Lemma keeps_capped_sliced {A} cs (M : Fill.model A) objs :
  (forall t c d, Fill.calls (Fill.set_table M t c d) = c) ->
  keeps (capped cs)
        (Fill.for_ (fun _ slice => Fill.bulk_create M slice)
                   (Fill.slices Fill.SQLITE_MAX_ROWS objs) tt).
Proof.
  intros Hlaw. apply keeps_for_in. intros st x Hx d (new & Hd & Hcap).
  pose proof (slices_fuel_cap Fill.SQLITE_MAX_ROWS (length objs) objs) as Hs.
  rewrite Forall_forall in Hs. specialize (Hs x Hx).
  exists ((Fill.model_name M, length x) :: new).
  destruct (fill_bulk_create_cases M x d) as [(t' & _ & ->)|[_ ->]];
    simpl; rewrite Hlaw, Hd; (split; [done|]); by constructor.
Qed.

Lemma keeps_capped_warn cs msg : keeps (capped cs) (Fill.warn msg).
Proof. by intros d Hd. Qed.

(** The steps of the item load under sqlite, for [keeps_walk]. *)
Ltac capped_base Hsq :=
  first
    [ apply keeps_capped_warn
    | apply keeps_capped_sliced; by intros
    | apply keeps_drop_existing
    | progress unfold Fill.bulk_create_by_vendor, Fill.known_items,
        Fill.get_genres, Fill.get_locales, Fill.fill_item_genre,
        Fill.fill_item_locale, Fill.assert
    | rewrite Hsq ].

(** X15.  With sqlite as vendor, every [bulk_create] call of an item load, for
    items, genres, locales and the links of items to genres and to locales, is
    given at most [SQLITE_MAX_ROWS] rows, whatever the load and whether or not
    it goes through. *)
Theorem item_load_row_cap (cfg : Fill.config) (objects : list Fill.json_item)
    (d : Fill.db) :
  Fill.sqlite cfg = true ->
  exists new,
    Fill.calls (Fill.fill_db_with_items cfg objects d).1
      = new ++ Fill.calls d /\
    Forall (fun c => (c.2 <= Fill.SQLITE_MAX_ROWS)%nat) new.
Proof.
  intros Hsq.
  assert (Hk : keeps (capped (Fill.calls d))
                     (Fill.fill_db_with_items cfg objects)).
  { unfold Fill.fill_db_with_items. keeps_walk ltac:(capped_base Hsq). }
  apply (Hk d). exists []. by split.
Qed.

Lemma item_load_row_cap_witness :
  exists new,
    Fill.calls
      (Fill.fill_db_with_items small_cfg [item_with_genre] Fill.empty_db).1
      = new ++ [] /\
    Forall (fun c => (c.2 <= Fill.SQLITE_MAX_ROWS)%nat) new.
Proof.
  apply (item_load_row_cap small_cfg [item_with_genre] Fill.empty_db).
  reflexivity.
Defined.

(** ** FillTool.fill_db_with_items: the items table *)

Lemma bind_run {A B} (m : Fill.fillM A) (f : A -> Fill.fillM B) d d1 a :
  m d = (d1, Ok a) -> (m ≫= f) d = f a d1.
Proof. intros H. unfold mbind, Fill.fillM_bind. by rewrite H. Qed.

Lemma bind_raise {A B} (m : Fill.fillM A) (f : A -> Fill.fillM B) d d1 e :
  m d = (d1, Raise e) -> (m ≫= f) d = (d1, Raise e).
Proof. intros H. unfold mbind, Fill.fillM_bind. by rewrite H. Qed.

(** [bulk_create] as a vendor branch writes it: a batch of instances
    without keys that one call accepts goes through, sliced or not, and
    leaves the table of that one call. *)
Lemma bulk_create_by_vendor_run {A} cfg (M : Fill.model A)
    (objs : list (option Z * A)) (d : Fill.db) t' :
  (forall t cs d, Fill.table M (Fill.set_table M t cs d) = t) ->
  (forall t cs d, Fill.calls (Fill.set_table M t cs d) = cs) ->
  (forall o, o ∈ objs -> o.1 = None) ->
  Db.bulk_create (Fill.clash M) objs (Fill.table M d) = Ok t' ->
  exists d',
    Fill.bulk_create_by_vendor cfg M objs d = (d', Ok tt) /\
    Fill.table M d' = t'.
Proof.
  intros Ht Hc Hkeys Hrun. unfold Fill.bulk_create_by_vendor.
  destruct (Fill.sqlite cfg).
  - destruct (sliced_calls M (Fill.slices Fill.SQLITE_MAX_ROWS objs) d t'
                Ht Hc) as (Hok & Htab & _);
      [by rewrite slices_max_rows_concat.. |].
    destruct (Fill.for_ _ _ tt d) as [d' r]. simpl in *. subst r.
    by exists d'.
  - rewrite (fill_bulk_create_Ok _ _ _ _ Hrun).
    eexists. split; [reflexivity|]. by rewrite Ht.
Qed.



(** The identifiers of the stored items, and the new identifiers of a
    load. *)
Definition stored_item_eids (d : Fill.db) : gset string :=
  list_to_set (Fill.external_id <$> (map_to_list (Fill.items d)).*2).

Definition new_item_eids (objects : list Fill.json_item) (d : Fill.db)
  : gset string :=
  list_to_set (Fill.item_eid <$> List.filter Fill.is_item objects)
    ∖ stored_item_eids d.

Lemma elem_of_stored_item_eids d x :
  x ∈ stored_item_eids d <->
  exists pk it, Fill.items d !! pk = Some it /\ Fill.external_id it = x.
Proof.
  unfold stored_item_eids. rewrite elem_of_list_to_set, list_elem_of_fmap.
  split.
  - intros (it & -> & (pk & Hpk)%elem_of_values). by exists pk, it.
  - intros (pk & it & Hpk & <-). exists it. split; [done|].
    apply elem_of_values. by exists pk.
Qed.

Lemma elem_of_keys {V} (m : gmap string V) x :
  x ∈ Fill.keys m <-> x ∈ dom m.
Proof.
  unfold Fill.keys. rewrite elem_of_dom, list_elem_of_fmap. split.
  - intros ([k v] & -> & H%elem_of_map_to_list). by exists v.
  - intros [v Hv]. exists (x, v). split; [done|].
    by apply elem_of_map_to_list.
Qed.

(** The identifiers found by the query for the items of a list of
    identifiers. *)
Lemma dom_index_items (l : list string) (t : gmap Z Fill.Item) acc x :
  x ∈ dom (Fill.index_by Fill.external_id
             (Db.select (fun _ r => bool_decide (Fill.external_id r ∈ l)) t)
             acc) <->
  x ∈ dom acc \/
  (x ∈ l /\ exists pk it, t !! pk = Some it /\ Fill.external_id it = x).
Proof.
  rewrite dom_index_by, elem_of_union, elem_of_list_to_set, list_elem_of_fmap.
  split.
  - intros [H|(it & -> & ([pk it'] & -> & Hin)%list_elem_of_fmap)];
      [by left|].
    apply select_spec in Hin as [Hpk Hl]. apply bool_decide_eq_true in Hl.
    right. split; [done|]. by exists pk, it'.
  - intros [H|(Hl & pk & it & Hpk & <-)]; [by left|]. right.
    exists it. split; [done|]. apply list_elem_of_fmap. exists (pk, it).
    split; [done|]. apply select_spec. split; [done|].
    by apply bool_decide_eq_true.
Qed.

Lemma known_items_slices (ss : list (list string)) acc d :
  exists m,
    Fill.for_ (fun items slice =>
                 rows ← Fill.filter Fill.Item_
                          (fun _ r => bool_decide (Fill.external_id r ∈ slice));
                 mret (Fill.index_by Fill.external_id rows items))
              ss acc d = (d, Ok m) /\
    forall x, x ∈ dom m <->
      x ∈ dom acc \/
      (x ∈ concat ss /\
       exists pk it, Fill.items d !! pk = Some it /\ Fill.external_id it = x).
Proof.
  revert acc. induction ss as [|s ss IH]; intros acc.
  - exists acc. split; [done|]. intros x. simpl. split; [by left|].
    intros [H|[H _]]; [done|]. by apply elem_of_nil in H.
  - destruct (IH (Fill.index_by Fill.external_id
                    (Db.select (fun _ r => bool_decide
                                  (Fill.external_id r ∈ s)) (Fill.items d))
                    acc)) as (m & Hrun & Hdom).
    exists m. split; [exact Hrun|]. intros x. rewrite Hdom, dom_index_items.
    simpl. rewrite elem_of_app. tauto.
Qed.

(** The query for the known items of a load: it changes nothing and finds
    the identifiers of the load that a stored item has. *)
Lemma known_items_run {V} cfg (json_items : gmap string V) acc d :
  exists m,
    Fill.known_items cfg json_items acc d = (d, Ok m) /\
    forall x, x ∈ dom m <->
      x ∈ dom acc \/ (x ∈ dom json_items /\ x ∈ stored_item_eids d).
Proof.
  unfold Fill.known_items. destruct (Fill.sqlite cfg).
  - destruct (known_items_slices
                (Fill.slices Fill.SQLITE_MAX_ROWS (Fill.keys json_items))
                acc d) as (m & Hrun & Hdom).
    exists m. split; [exact Hrun|]. intros x. rewrite Hdom.
    rewrite slices_max_rows_concat.
    by rewrite elem_of_keys, elem_of_stored_item_eids.
  - eexists. split; [reflexivity|]. intros x.
    rewrite dom_index_items, elem_of_keys, elem_of_stored_item_eids. done.
Qed.

(** What one round of the loop over the items does to the new items. *)
Lemma collect_item_new_items items st entry st' :
  Fill.collect_item items st entry = Ok st' ->
  exists nm,
    st'.1.1 =
    if bool_decide (entry.1 ∈ dom items) then st.1.1
    else <[entry.1 := {| Fill.external_id := entry.1; Fill.name := nm |}]>
           st.1.1.
Proof.
  destruct st as [[n c] l], entry as [eid j]. unfold Fill.collect_item.
  simpl. case_bool_decide as Hin.
  - rewrite bind_Ok.
    destruct (match Fill.or_unit (Fill.get (Fill.json_genres j)) with
              | Fill.PStr s => _ | _ => _ end) as [c'|]; [|done].
    rewrite bind_Ok.
    destruct (match Fill.or_unit (Fill.get (Fill.json_locales j)) with
              | Fill.PStr s => _ | _ => _ end) as [l'|]; [|done].
    rewrite bind_Ok. intros [= <-]. by exists (Fill.NameStr "").
  - destruct (Fill.name_of j) as [nm|]; [|done]. rewrite !bind_Ok.
    destruct (match Fill.or_unit (Fill.get (Fill.json_genres j)) with
              | Fill.PStr s => _ | _ => _ end) as [c'|]; [|done].
    rewrite bind_Ok.
    destruct (match Fill.or_unit (Fill.get (Fill.json_locales j)) with
              | Fill.PStr s => _ | _ => _ end) as [l'|]; [|done].
    rewrite bind_Ok. intros [= <-]. by exists nm.
Qed.

Lemma collect_items_new_items (items : gmap string (Z * Fill.Item))
    (l : list (string * Fill.json_item)) st st' :
  for_each (Fill.collect_item items) l st = Ok st' ->
  (forall x, x ∈ dom st'.1.1 <->
     x ∈ dom st.1.1 \/ (x ∈ l.*1 /\ x ∉ dom items)) /\
  (forall x it, st'.1.1 !! x = Some it ->
     st.1.1 !! x = Some it \/ Fill.external_id it = x).
Proof.
  revert st. induction l as [|entry l IH]; intros st.
  - intros [= <-]. split; [|by left]. intros x. split; [by left|].
    intros [H|[H _]]; [done|]. by apply elem_of_nil in H.
  - simpl. destruct (Fill.collect_item items st entry) as [st1|] eqn:Hstep;
      [|done].
    rewrite bind_Ok. intros Hrest. destruct (IH _ Hrest) as [Hdom Hval].
    destruct (collect_item_new_items _ _ _ _ Hstep) as [nm Hst1].
    split.
    + intros x. rewrite Hdom, Hst1, elem_of_cons.
      case_bool_decide as Hin.
      * split; [intros [H|[H1 H2]]; [by left | right; split; [by right|done]]|].
        intros [H|[[->|H1] H2]]; [by left | done | by right].
      * rewrite dom_insert_L, elem_of_union, elem_of_singleton.
        split; [intros [[->|H]|[H1 H2]]|intros [H|[[->|H1] H2]]]; eauto.
    + intros x it [Hx|Hx]%Hval; [|by right]. rewrite Hst1 in Hx.
      case_bool_decide; [by left|].
      destruct (decide (entry.1 = x)) as [<-|Hne].
      * rewrite lookup_insert_eq in Hx. injection Hx as <-. by right.
      * rewrite lookup_insert_ne in Hx by done. by left.
Qed.

(** The tables after an item load, whether it goes through or raises: the
    items before with the new items added, users and inventory as before. *)
Lemma items_load_table cfg objects d :
  exists new_items : gmap string Fill.Item,
    (forall x it, new_items !! x = Some it ->
       Fill.external_id it = x /\ x ∈ new_item_eids objects d) /\
    Db.bulk_create Fill.no_constraint (Fill.new_instances new_items)
                   (Fill.items d)
    = Ok (Fill.items (Fill.fill_db_with_items cfg objects d).1) /\
    Fill.users (Fill.fill_db_with_items cfg objects d).1 = Fill.users d /\
    Fill.inventory (Fill.fill_db_with_items cfg objects d).1
    = Fill.inventory d /\
    (forall objs, (Fill.fill_db_with_items cfg objects d).2 = Ok objs ->
       dom new_items = new_item_eids objects d).
Proof.
  unfold Fill.fill_db_with_items.
  set (objs := List.filter Fill.is_item objects).
  set (json_items := Fill.dict_of Fill.item_eid objs).
  destruct (known_items_run cfg json_items ∅ d) as (items0 & Hk0 & Hdom0).
  rewrite (bind_run _ _ _ _ _ Hk0).
  destruct (for_each (Fill.collect_item items0) (map_to_list json_items)
                     (∅, ∅, ∅)) as [[[new_items cats] locs]|e] eqn:Hcol.
  - rewrite (bind_run (Fill.pure (Ok (new_items, cats, locs))) _ d d
               (new_items, cats, locs) eq_refl).
    cbv beta iota.
    destruct (bulk_create_new_instances new_items (Fill.items d))
      as [t' Hdb].
    destruct (bulk_create_by_vendor_run cfg Fill.Item_
                (Fill.new_instances new_items) d t') as (d2 & Hrun & Htab);
      [done | done | apply new_instances_keyless | exact Hdb |].
    rewrite (bind_run _ _ _ _ _ Hrun).
    assert (Hframe : Fill.users d2 = Fill.users d /\
                     Fill.inventory d2 = Fill.inventory d).
    { assert (Hk : keeps (fun d' => Fill.users d' = Fill.users d /\
                                    Fill.inventory d' = Fill.inventory d)
                         (Fill.bulk_create_by_vendor cfg Fill.Item_
                            (Fill.new_instances new_items))).
      { unfold Fill.bulk_create_by_vendor.
        keeps_walk ltac:(keeps_write). }
      specialize (Hk d (conj eq_refl eq_refl)). by rewrite Hrun in Hk. }
    destruct (collect_items_new_items _ _ _ _ Hcol) as [Hdom Hval].
    simpl in Hdom, Hval, Htab.
    assert (Hnew : forall x, x ∈ dom new_items <-> x ∈ new_item_eids objects d).
    { intros x. rewrite Hdom, Hdom0, dom_empty_L.
      unfold new_item_eids. rewrite elem_of_difference.
      rewrite <- (dom_dict_of Fill.item_eid). fold objs json_items.
      assert (x ∈ (map_to_list json_items).*1 <-> x ∈ dom json_items) as ->.
      { apply (elem_of_keys json_items). }
      pose proof (not_elem_of_empty (C := gset string) x). tauto. }
    exists new_items. split; [|split; [|split; [|split]]].
    + intros x it Hx. split.
      * destruct (Hval _ _ Hx) as [H|H]; [by rewrite lookup_empty in H|done].
      * apply Hnew, elem_of_dom. by exists it.
    + rewrite Hdb. f_equal. simpl in Htab. rewrite <- Htab. symmetry.
      assert (Hk : keeps (fun d' => Fill.items d' = Fill.items d2)
        (items ← Fill.known_items cfg json_items items0;
         Fill.assert (bool_decide (size items = length objs)) ≫= fun _ =>
         (if Fill.diversity cfg && negb (Fill.testing_mode cfg) then
            db_categories ← Fill.get_genres cfg cats;
            Fill.fill_item_genre cfg objs items db_categories
          else mret tt) ≫= fun _ =>
         (if Fill.language cfg && negb (Fill.testing_mode cfg) then
            db_locales ← Fill.get_locales cfg locs;
            Fill.fill_item_locale cfg objs items db_locales
          else mret tt) ≫= fun _ => mret objs)).
      { keeps_walk ltac:(first
          [ apply keeps_drop_existing
          | progress unfold Fill.bulk_create_by_vendor, Fill.known_items,
              Fill.get_genres, Fill.get_locales, Fill.fill_item_genre,
              Fill.fill_item_locale, Fill.assert
          | keeps_write ]). }
      apply (Hk d2 eq_refl).
    + destruct Hframe as [<- _].
      assert (Hk : keeps (fun d' => Fill.users d' = Fill.users d2)
        (items ← Fill.known_items cfg json_items items0;
         Fill.assert (bool_decide (size items = length objs)) ≫= fun _ =>
         (if Fill.diversity cfg && negb (Fill.testing_mode cfg) then
            db_categories ← Fill.get_genres cfg cats;
            Fill.fill_item_genre cfg objs items db_categories
          else mret tt) ≫= fun _ =>
         (if Fill.language cfg && negb (Fill.testing_mode cfg) then
            db_locales ← Fill.get_locales cfg locs;
            Fill.fill_item_locale cfg objs items db_locales
          else mret tt) ≫= fun _ => mret objs)).
      { keeps_walk ltac:(first
          [ apply keeps_drop_existing
          | progress unfold Fill.bulk_create_by_vendor, Fill.known_items,
              Fill.get_genres, Fill.get_locales, Fill.fill_item_genre,
              Fill.fill_item_locale, Fill.assert
          | keeps_write ]). }
      apply (Hk d2 eq_refl).
    + destruct Hframe as [_ <-].
      assert (Hk : keeps (fun d' => Fill.inventory d' = Fill.inventory d2)
        (items ← Fill.known_items cfg json_items items0;
         Fill.assert (bool_decide (size items = length objs)) ≫= fun _ =>
         (if Fill.diversity cfg && negb (Fill.testing_mode cfg) then
            db_categories ← Fill.get_genres cfg cats;
            Fill.fill_item_genre cfg objs items db_categories
          else mret tt) ≫= fun _ =>
         (if Fill.language cfg && negb (Fill.testing_mode cfg) then
            db_locales ← Fill.get_locales cfg locs;
            Fill.fill_item_locale cfg objs items db_locales
          else mret tt) ≫= fun _ => mret objs)).
      { keeps_walk ltac:(first
          [ apply keeps_drop_existing
          | progress unfold Fill.bulk_create_by_vendor, Fill.known_items,
              Fill.get_genres, Fill.get_locales, Fill.fill_item_genre,
              Fill.fill_item_locale, Fill.assert
          | keeps_write ]). }
      apply (Hk d2 eq_refl).
    + intros _ _. apply set_eq. exact Hnew.
  - rewrite (bind_raise (Fill.pure (Raise e)) _ d d e eq_refl).
    exists ∅. by split; [|split; [|split; [|split]]].
Qed.

(** X16.  An item load leaves every stored item as it is, writes rows only for
    identifiers of the load that no stored item has, and touches neither users
    nor inventory; this holds whether or not the load raises. *)
Theorem items_load_adds_new_items (cfg : Fill.config)
    (objects : list Fill.json_item) (d : Fill.db) :
  let d' := (Fill.fill_db_with_items cfg objects d).1 in
  (forall pk it, Fill.items d !! pk = Some it -> Fill.items d' !! pk = Some it) /\
  (forall pk it, Fill.items d' !! pk = Some it ->
     Fill.items d !! pk = Some it \/
     (Fill.items d !! pk = None /\
      Fill.external_id it ∈ new_item_eids objects d)) /\
  Fill.users d' = Fill.users d /\ Fill.inventory d' = Fill.inventory d.
Proof.
  destruct (items_load_table cfg objects d)
    as (new_items & Hval & Hitems & Husers & Hinv & _).
  cbv zeta. split; [|split; [|by split]].
  - intros pk it. by apply (bulk_create_keeps _ _ _ _ _ _ Hitems).
  - intros pk it Hrow.
    apply (bulk_create_inv _ _ _ _ _ _ Hitems) in Hrow
      as [Hrow|[Hnone [pko Hrow]]]; [by left|].
    right. split; [done|].
    apply elem_of_new_instances in Hrow as [_ [x Hx]]. simpl in Hx.
    destruct (Hval _ _ Hx) as [-> Hnew]. done.
Qed.

(** X17.  An item load that goes through has written a row for every
    identifier of the load that no stored item had. *)
Theorem items_load_creates_each_item (cfg : Fill.config)
    (objects : list Fill.json_item) (d : Fill.db)
    (objs : list Fill.json_item) (x : string) :
  (Fill.fill_db_with_items cfg objects d).2 = Ok objs ->
  x ∈ new_item_eids objects d ->
  exists pk it,
    Fill.items d !! pk = None /\
    Fill.items (Fill.fill_db_with_items cfg objects d).1 !! pk = Some it /\
    Fill.external_id it = x.
Proof.
  intros Hok Hx.
  destruct (items_load_table cfg objects d)
    as (new_items & Hval & Hitems & _ & _ & Hdom).
  rewrite <- (Hdom _ Hok) in Hx. apply elem_of_dom in Hx as [it Hit].
  destruct (bulk_create_new _ _ _ _ None it Hitems)
    as (pk & Hfree & Hrow & _).
  - apply elem_of_new_instances. split; [done|]. by exists x.
  - exists pk, it. split; [done|]. split; [done|].
    by destruct (Hval _ _ Hit).
Qed.

Lemma items_load_creates_each_item_witness :
  exists pk it,
    Fill.items
      (Fill.fill_db_with_items small_cfg [item_with_genre] Fill.empty_db).1
      !! pk = Some it /\
    Fill.external_id it = "a".
Proof.
  destruct (items_load_creates_each_item small_cfg [item_with_genre]
              Fill.empty_db [item_with_genre] "a")
    as (pk & it & _ & Hrow & Heid).
  - by vm_compute.
  - apply (bool_decide_unpack _). by vm_compute.
  - by exists pk, it.
Defined.

(** ** FillTool.get_genres *)

Lemma index_by_lookup {A} (key : A -> string) (rows : list (Z * A)) acc n kr :
  Fill.index_by key rows acc !! n = Some kr ->
  (kr ∈ rows /\ key kr.2 = n) \/ acc !! n = Some kr.
Proof.
  intros H.
  destruct (fold_insert_lookup (fun kr : Z * A => key kr.2) (fun kr => kr)
              rows acc n kr H) as [(a & Ha & Hk & ->)|Hacc]; [left|right]; done.
Qed.

(** The names under which a query by name indexes the rows it finds. *)
Lemma dom_index_select {A} (key : A -> string) (p : string -> bool)
    (t : gmap Z A) acc x :
  x ∈ dom (Fill.index_by key (Db.select (fun _ r => p (key r)) t) acc) <->
  x ∈ dom acc \/ (p x = true /\ exists pk r, t !! pk = Some r /\ key r = x).
Proof.
  rewrite dom_index_by, elem_of_union, elem_of_list_to_set, list_elem_of_fmap.
  split.
  - intros [H|(r & -> & ([pk r'] & -> & Hin)%list_elem_of_fmap)]; [by left|].
    apply select_spec in Hin as [Hpk Hp]. right. split; [done|].
    by exists pk, r'.
  - intros [H|(Hp & pk & r & Hpk & <-)]; [by left|]. right.
    exists r. split; [done|]. apply list_elem_of_fmap. exists (pk, r).
    split; [done|]. by apply select_spec.
Qed.

Lemma new_genres_fold (known : gset string) (l : list string)
    (acc : gmap string Fill.Genre) :
  (forall x,
     x ∈ dom (fold_left
                (fun d genre_name =>
                   if bool_decide (genre_name ∈ known) then d
                   else <[genre_name := {| Fill.genre_name := genre_name |}]> d)
                l acc) <->
     x ∈ dom acc \/ (x ∈ l /\ x ∉ known)) /\
  (forall x g,
     fold_left
       (fun d genre_name =>
          if bool_decide (genre_name ∈ known) then d
          else <[genre_name := {| Fill.genre_name := genre_name |}]> d)
       l acc !! x = Some g ->
     acc !! x = Some g \/ g = {| Fill.genre_name := x |}).
Proof.
  revert acc. induction l as [|n l IH]; intros acc; simpl.
  - split; [|by left]. intros x. split; [by left|].
    intros [H|[H _]]; [done|]. by apply elem_of_nil in H.
  - destruct (IH (if bool_decide (n ∈ known) then acc
                  else <[n := {| Fill.genre_name := n |}]> acc))
      as [Hdom Hval]. split.
    + intros x. rewrite Hdom, elem_of_cons. case_bool_decide as Hn.
      * split; [intros [H|[H1 H2]]; [by left | right; split; [by right|done]]|].
        intros [H|[[->|H1] H2]]; [by left | done | by right].
      * rewrite dom_insert_L, elem_of_union, elem_of_singleton.
        split; [intros [[->|H]|[H1 H2]]|intros [H|[[->|H1] H2]]]; eauto.
    + intros x g [Hx|Hx]%Hval; [|by right].
      case_bool_decide; [by left|].
      destruct (decide (n = x)) as [<-|Hne].
      * rewrite lookup_insert_eq in Hx. injection Hx as <-. by right.
      * rewrite lookup_insert_ne in Hx by done. by left.
Qed.

(** X18.  [get_genres] never raises and returns a genre for exactly the names
    it is given: every entry is a row of the table afterwards, with the name
    it is filed under; the stored genres are left as they are, and a row is
    written only for a name that is asked for and that no stored genre has. *)
Theorem get_genres_complete (cfg : Fill.config) (names : gset string)
    (d : Fill.db) :
  let r := Fill.get_genres cfg names d in
  exists m,
    r.2 = Ok m /\ dom m = names /\
    (forall n pk g, m !! n = Some (pk, g) ->
       Fill.genres r.1 !! pk = Some g /\ Fill.genre_name g = n) /\
    (forall pk g, Fill.genres d !! pk = Some g ->
                  Fill.genres r.1 !! pk = Some g) /\
    (forall pk g, Fill.genres r.1 !! pk = Some g ->
       Fill.genres d !! pk = Some g \/
       (Fill.genres d !! pk = None /\ Fill.genre_name g ∈ names /\
        forall pk0 g0, Fill.genres d !! pk0 = Some g0 ->
                       Fill.genre_name g0 ≠ Fill.genre_name g)).
Proof.
  unfold Fill.get_genres. rewrite bind_filter.
  set (g0 := Fill.index_by Fill.genre_name _ ∅).
  assert (Hg0 : forall x, x ∈ dom g0 <->
            x ∈ names /\ exists pk g, Fill.genres d !! pk = Some g /\
                                      Fill.genre_name g = x).
  { intros x. unfold g0.
    pose proof (dom_index_select Fill.genre_name
                  (fun s => bool_decide (s ∈ names)) (Fill.genres d) ∅ x) as H.
    simpl in H. rewrite H, dom_empty_L, bool_decide_eq_true.
    pose proof (not_elem_of_empty (C := gset string) x). tauto. }
  assert (Hg0rows : forall n pk g, g0 !! n = Some (pk, g) ->
            Fill.genres d !! pk = Some g /\ Fill.genre_name g = n).
  { intros n pk g [[Hin Hk]|H]%index_by_lookup;
      [|by rewrite lookup_empty in H].
    by apply select_spec in Hin as [Hpk _]. }
  case_bool_decide as Hsize.
  - set (new := fold_left _ (elements names) ∅).
    destruct (new_genres_fold (dom g0) (elements names) ∅) as [Hdom Hval].
    fold new in Hdom, Hval.
    assert (Hnew : forall x, x ∈ dom new <-> x ∈ names /\ x ∉ dom g0).
    { intros x. rewrite Hdom, dom_empty_L, elem_of_elements.
      pose proof (not_elem_of_empty (C := gset string) x). tauto. }
    assert (Hnewval : forall x g, new !! x = Some g ->
                        g = {| Fill.genre_name := x |}).
    { intros x g [H|H]%Hval; [by rewrite lookup_empty in H | done]. }
    destruct (bulk_create_new_instances new (Fill.genres d)) as [t' Hdb].
    destruct (bulk_create_by_vendor_run cfg Fill.Genre_
                (Fill.new_instances new) d t') as (d2 & Hrun & Htab);
      [done | done | apply new_instances_keyless | exact Hdb |].
    rewrite (bind_run _ _ _ _ _ Hrun), bind_filter. simpl in Htab |- *.
    rewrite <- Htab in Hdb.
    set (m := Fill.index_by Fill.genre_name _ g0).
    assert (Hm : forall x, x ∈ dom m <->
              x ∈ dom g0 \/
              (x ∈ dom new /\ exists pk g, Fill.genres d2 !! pk = Some g /\
                                           Fill.genre_name g = x)).
    { intros x. unfold m.
      pose proof (dom_index_select Fill.genre_name
                    (fun s => bool_decide (s ∈ dom new)) (Fill.genres d2)
                    g0 x) as H.
      simpl in H. by rewrite H, bool_decide_eq_true. }
    exists m. split; [done|]. split; [|split; [|split]].
    + apply set_eq. intros x. rewrite Hm. split.
      * intros [H|[H _]]; [by apply Hg0 in H as [? _] | by apply Hnew in H as [? _]].
      * intros Hx. destruct (decide (x ∈ dom g0)) as [|Hn]; [by left|].
        right. assert (Hxn : x ∈ dom new) by (by apply Hnew).
        split; [done|]. apply elem_of_dom in Hxn as [g Hg].
        destruct (bulk_create_new _ _ _ _ None g Hdb)
          as (pk & _ & Hrow & _).
        -- apply elem_of_new_instances. split; [done|]. by exists x.
        -- exists pk, g. split; [done|].
           by rewrite (Hnewval _ _ Hg).
    + intros n pk g [[Hin Hk]|H]%index_by_lookup.
      * by apply select_spec in Hin as [Hpk _].
      * destruct (Hg0rows _ _ _ H) as [Hpk Hn]. split; [|done].
        by apply (bulk_create_keeps _ _ _ _ _ _ Hdb).
    + intros pk g Hpk. by apply (bulk_create_keeps _ _ _ _ _ _ Hdb).
    + intros pk g Hrow.
      apply (bulk_create_inv _ _ _ _ _ _ Hdb) in Hrow
        as [Hrow|[Hnone [pko Hrow]]].
      * by left.
      * right. split; [done|].
        apply elem_of_new_instances in Hrow as [_ [x Hx]]. simpl in Hx.
        assert (Hxn : x ∈ dom new) by (apply elem_of_dom; by exists g).
        apply Hnew in Hxn as [Hnames Hnot].
        rewrite (Hnewval _ _ Hx). simpl. split; [done|].
        intros pk0 g1 Hpk0 Heq. apply Hnot, Hg0. split; [done|].
        by exists pk0, g1.
  - exists g0. split; [done|]. split; [|split; [|split]].
    + apply set_subseteq_size_eq.
      * intros x Hx. by apply Hg0 in Hx as [? _].
      * rewrite size_dom. lia.
    + exact Hg0rows.
    + done.
    + intros pk g Hpk. by left.
Qed.

(** ** FillTool.get_locales *)





(** ** The locale caches: removals, users, and the initial load *)

Lemma cache_bind_raise {A B} (m : Language.cacheM A)
    (f : A -> Language.cacheM B) c c' e :
  m c = (c', Raise e) -> (m ≫= f) c = (c', Raise e).
Proof. intros H. unfold mbind, Language.cacheM_bind. by rewrite H. Qed.

Lemma cache_bind_run {A B} (m : Language.cacheM A)
    (f : A -> Language.cacheM B) c c' a :
  m c = (c', Ok a) -> (m ≫= f) c = f a c'.
Proof. intros H. unfold mbind, Language.cacheM_bind. by rewrite H. Qed.

(** X10.  A remove signal for at least one item never goes through: the
    handler takes the locale out of the first item's entry of [item_locales]
    and then raises [AttributeError] on [Locale.items_by_locales], leaving
    [items_by_locale] and the entries of the other items as they were. *)
Theorem item_remove_raises (pk i : Z) (rest : list Z) (c : Language.caches) :
  let r := Language.add_item_locale_to_cache
             (signal pk "post_remove" (i :: rest)) c in
  r.2 = Raise (AttributeError "items_by_locales") /\
  Language.item_locales r.1
  = <[i := Language.get (Language.item_locales c) i ∅ ∖ {[pk]}]>
      (Language.item_locales c) /\
  Language.items_by_locale r.1 = Language.items_by_locale c.
Proof. by repeat split. Qed.

(** X11.  A signal for at least one user never goes through, whether it adds
    or removes: the handler writes the first user's entry of [user_locales]
    (on [post_save] the entry the user had, or the set of the one locale when
    the user had none; on [post_remove] the entry without the locale) and then
    raises [AttributeError] on [Locale.users_by_locales]; [users_by_locale],
    the entries of the other users and the item caches are as they were. *)
Theorem user_signal_raises (pk u : Z) (rest : list Z) (a : string)
    (c : Language.caches) :
  a = "post_save" \/ a = "post_remove" ->
  let r := Language.add_user_locale_to_cache (signal pk a (u :: rest)) c in
  r.2 = Raise (AttributeError "users_by_locales") /\
  Language.user_locales r.1
  = <[u := if String.eqb a "post_save"
           then Language.get (Language.user_locales c) u
                  ((∅ : gset Z) ∪ {[pk]})
           else Language.get (Language.user_locales c) u ∅ ∖ {[pk]}]>
      (Language.user_locales c) /\
  Language.users_by_locale r.1 = Language.users_by_locale c /\
  (forall u', u' ≠ u ->
     Language.user_locales r.1 !! u' = Language.user_locales c !! u') /\
  Language.item_locales r.1 = Language.item_locales c /\
  Language.items_by_locale r.1 = Language.items_by_locale c.
Proof.
  intros [-> | ->]; simpl; (split; [done|]); (split; [done|]);
    (split; [done|]); (split; [|done]); intros u' Hne;
    by rewrite lookup_insert_ne.
Qed.

Lemma user_signal_raises_witness :
  (Language.add_user_locale_to_cache (signal 7 "post_save" [1])
                                     Language.no_caches).2
  = Raise (AttributeError "users_by_locales").
Proof.
  destruct (user_signal_raises 7 1 [] "post_save" Language.no_caches)
    as [H _]; [by left|]. exact H.
Defined.

Lemma load_items_ok (pk : Z) (items : list Z) (c : Language.caches) :
  exists c',
    Language.for_pks (fun i =>
      il ← Language.getattr "item_locales";
      Language.setitem "item_locales" i
        (Language.get il i ((∅ : gset Z) ∪ {[pk]})) ≫= fun _ =>
      ibl ← Language.getattr "items_by_locale";
      Language.setitem "items_by_locale" pk
        (Language.get ibl pk ∅ ∪ {[i]})) items c = (c', Ok tt).
Proof.
  revert c. induction items as [|i items IH]; intros c; [by exists c|].
  simpl. unfold mbind at 1. unfold Language.cacheM_bind at 1. simpl.
  apply IH.
Qed.

(** X12.  [load_locale] goes through exactly when no stored locale has a user:
    at the first user of a locale it raises [AttributeError] on
    [Locale.users_by_locales]. *)
Theorem load_locale_needs_no_users (all : list Language.stored_locale)
    (c : Language.caches) :
  (Forall (fun l => Language.locale_users l = []) all ->
   (Language.load_locale all c).2 = Ok tt) /\
  (Exists (fun l => Language.locale_users l ≠ []) all ->
   (Language.load_locale all c).2 = Raise (AttributeError "users_by_locales")).
Proof.
  unfold Language.load_locale. revert c.
  induction all as [|l all IH]; intros c.
  - split; [done|]. intros H. by apply Exists_nil in H.
  - destruct (load_items_ok (Language.locale_pk l) (Language.locale_items l) c)
      as [c1 Hitems].
    cbn [Language.for_locales].
    destruct (Language.locale_users l) as [|u us] eqn:Hus.
    + rewrite (cache_bind_run _ _ c c1 tt).
      2:{ rewrite (cache_bind_run _ _ c c1 tt Hitems). done. }
      destruct (IH c1) as [IH1 IH2]. split.
      * intros Hall. apply IH1. by apply Forall_cons in Hall as [_ ?].
      * intros [Hl|Hex]%Exists_cons; [done | by apply IH2].
    + rewrite (cache_bind_raise _ _ c
                 (Language.setitem "user_locales" u
                    (Language.get (Language.user_locales c1) u
                       ((∅ : gset Z) ∪ {[Language.locale_pk l]})) c1).1
                 (AttributeError "users_by_locales")).
      2:{ rewrite (cache_bind_run _ _ c c1 tt Hitems). done. }
      split; [|done]. intros Hall. apply Forall_cons in Hall as [Hl _].
      congruence.
Qed.

(** ** Linking items when there is nothing to link *)

Lemma for__skip {A S} (body : S -> A -> Fill.fillM S) xs st d :
  (forall x, x ∈ xs -> body st x d = (d, Ok st)) ->
  Fill.for_ body xs st d = (d, Ok st).
Proof.
  induction xs as [|x xs IH]; intros Hbody; [done|].
  rewrite for__cons, Hbody by (by left). apply IH.
  intros y Hy. apply Hbody. by right.
Qed.

(** The query [Q()] selects every row, and the first of them is not in the
    empty dictionary. *)
Lemma drop_existing_all {A} (M : Fill.model A) (key : A -> Z * Z)
    (d : Fill.db) :
  Fill.table M d ≠ ∅ ->
  Fill.drop_existing M key [] ∅ d = (d, Raise KeyError).
Proof.
  intros Hne. unfold Fill.drop_existing. rewrite bind_filter.
  unfold Fill.pure. f_equal. unfold Db.select, Db.rows.
  destruct (map_to_list (Fill.table M d)) as [|kr l] eqn:Hl.
  - by apply map_to_list_empty_iff in Hl.
  - done.
Qed.

(** X21.  When no item of the load lists a genre and the table of item genres
    is not empty, [fill_item_genre] raises [KeyError] and writes nothing: the
    query is still the empty [Q()], which returns every stored row, and the
    row's pair is deleted from a dictionary that does not hold it. *)
Theorem item_genres_nothing_to_link (cfg : Fill.config)
    (objects : list Fill.json_item) (items : gmap string (Z * Fill.Item))
    (genres : gmap string (Z * Fill.Genre)) (d : Fill.db) :
  (forall o, o ∈ objects ->
     Fill.iterate (Fill.or_unit (Fill.get (Fill.json_genres o))) = Ok []) ->
  Fill.item_genres d ≠ ∅ ->
  Fill.fill_item_genre cfg objects items genres d = (d, Raise KeyError).
Proof.
  intros Hnone Hrows. unfold Fill.fill_item_genre.
  destruct (Fill.sqlite cfg).
  - rewrite (bind_run _ _ d d ([], ∅, O)).
    + cbv beta iota.
      by rewrite (bind_raise _ _ d d KeyError
                    (drop_existing_all Fill.ItemGenre_ Fill.ig_key d Hrows)).
    + apply for__skip. intros o Ho. by rewrite (Hnone o Ho).
  - rewrite (bind_run _ _ d d ([], ∅)).
    + cbv beta iota.
      by rewrite (bind_raise _ _ d d KeyError
                    (drop_existing_all Fill.ItemGenre_ Fill.ig_key d Hrows)).
    + apply for__skip. intros o Ho. by rewrite (Hnone o Ho).
Qed.

Definition item_no_genres : Fill.json_item :=
  {| Fill.is_item := true; Fill.item_eid := "a";
     Fill.json_name := Some (Fill.NameStr "A");
     Fill.default_locale := None;
     Fill.json_genres := Fill.Many [];
     Fill.json_locales := Fill.Many [] |}.

Definition one_link_db : Fill.db :=
  Fill.set_table Fill.ItemLocale_
    {[1 := {| Fill.il_locale_id := 2; Fill.il_item_id := 3 |}]} []
    (Fill.set_table Fill.ItemGenre_
       {[1 := {| Fill.ig_item_id := 3; Fill.ig_type_id := 4 |}]} []
       Fill.empty_db).

Lemma item_genres_nothing_to_link_witness :
  Fill.fill_item_genre small_cfg [item_no_genres] ∅ ∅ one_link_db
  = (one_link_db, Raise KeyError).
Proof.
  apply (item_genres_nothing_to_link small_cfg [item_no_genres] ∅ ∅
           one_link_db).
  - intros o Ho%list_elem_of_singleton. by subst o.
  - intros H. apply (f_equal (fun m => m !! 1)) in H. by vm_compute in H.
Defined.

(** X22.  The same for locales: when every locale that the items list is
    unknown and the table of item locales is not empty, [fill_item_locale]
    raises [KeyError] and writes nothing. *)
Theorem item_locales_nothing_to_link (cfg : Fill.config)
    (objects : list Fill.json_item) (items : gmap string (Z * Fill.Item))
    (locales : gmap string (Z * Language.Locale)) (d : Fill.db) :
  (forall o l n, o ∈ objects ->
     Fill.iterate (Fill.or_unit (Fill.get (Fill.json_locales o))) = Ok l ->
     n ∈ l -> locales !! n = None) ->
  Fill.item_locales d ≠ ∅ ->
  Fill.fill_item_locale cfg objects items locales d = (d, Raise KeyError).
Proof.
  intros Hnone Hrows. unfold Fill.fill_item_locale.
  destruct (Fill.sqlite cfg).
  - rewrite (bind_run _ _ d d ([], ∅, O)).
    + cbv beta iota.
      by rewrite (bind_raise _ _ d d KeyError
                    (drop_existing_all Fill.ItemLocale_ Fill.il_key d Hrows)).
    + apply for__skip. intros o Ho.
      destruct (Fill.iterate (Fill.or_unit (Fill.get (Fill.json_locales o))))
        as [l|e] eqn:Hl.
      * rewrite (bind_run (Fill.pure (Ok l)) _ d d l eq_refl).
        apply for__skip. intros n Hn. cbv beta iota.
        by rewrite (Hnone o l n Ho Hl Hn).
      * by destruct (Fill.json_locales o) as [| |s|[|x xs]];
          try destruct s.
  - rewrite (bind_run _ _ d d ([], ∅)).
    + cbv beta iota.
      by rewrite (bind_raise _ _ d d KeyError
                    (drop_existing_all Fill.ItemLocale_ Fill.il_key d Hrows)).
    + apply for__skip. intros o Ho.
      destruct (Fill.iterate (Fill.or_unit (Fill.get (Fill.json_locales o))))
        as [l|e] eqn:Hl.
      * rewrite (bind_run (Fill.pure (Ok l)) _ d d l eq_refl).
        apply for__skip. intros n Hn. cbv beta iota.
        by rewrite (Hnone o l n Ho Hl Hn).
      * by destruct (Fill.json_locales o) as [| |s|[|x xs]];
          try destruct s.
Qed.

Lemma item_locales_nothing_to_link_witness :
  Fill.fill_item_locale small_cfg [item_no_genres] ∅ ∅ one_link_db
  = (one_link_db, Raise KeyError).
Proof.
  apply (item_locales_nothing_to_link small_cfg [item_no_genres] ∅ ∅
           one_link_db).
  - intros o l n Ho%list_elem_of_singleton Hl Hn. subst o.
    injection Hl as <-. by apply elem_of_nil in Hn.
  - intros H. apply (f_equal (fun m => m !! 1)) in H. by vm_compute in H.
Defined.

(** ** The module name and the class name of a path *)

Lemma join_split (sep : ascii) (s : string) :
  PyStr.join (String sep "") (PyStr.split sep s) = s.
Proof.
  unfold PyStr.join. induction s as [|c s IH]; [done|]. simpl.
  pose proof (split_nonempty sep s) as Hne.
  destruct (PyStr.split sep s) as [|h t] eqn:Hs; [done|].
  destruct (Ascii.eqb_spec c sep) as [->|_].
  - change (String.concat (String sep "") ("" :: h :: t))
      with (String sep (String.concat (String sep "") (h :: t))).
    by rewrite IH.
  - destruct t as [|h' t].
    + simpl in *. by rewrite IH.
    + change (String.concat (String sep "") (String c h :: h' :: t))
        with (String c (String.concat (String sep "") (h :: h' :: t))).
      by rewrite IH.
Qed.

Lemma string_app_assoc (a b c : string) :
  ((a ++ b) ++ c)%string = (a ++ (b ++ c))%string.
Proof.
  induction a as [|x a IH]; [done|].
  change (String x ((a ++ b) ++ c)%string = String x (a ++ (b ++ c))%string).
  by rewrite IH.
Qed.

Lemma join_snoc (sep : string) (parts : list string) (x : string) :
  parts ≠ [] ->
  PyStr.join sep (parts ++ [x]) = (PyStr.join sep parts ++ sep ++ x)%string.
Proof.
  unfold PyStr.join. induction parts as [|p parts IH]; [done|]. intros _.
  destruct parts as [|p' parts]; [done|].
  change (String.concat sep ((p :: p' :: parts) ++ [x]))
    with (p ++ sep ++ String.concat sep ((p' :: parts) ++ [x]))%string.
  rewrite IH by done.
  change (String.concat sep (p :: p' :: parts))
    with (p ++ sep ++ String.concat sep (p' :: parts))%string.
  by rewrite !string_app_assoc.
Qed.

Lemma init_last (l : list string) (x : string) :
  last l = Some x -> l = Frappe.init l ++ [x].
Proof.
  unfold Frappe.init. induction l as [|a l IH]; [done|].
  destruct l as [|b l]; [by intros [= ->]|].
  intros Hl. change (a :: b :: l = a :: (removelast (b :: l) ++ [x])).
  f_equal. by apply IH.
Qed.

(** X3.  The two names [get_class] and [check_predictor] take from a path with
    at least one dot, the module name [".".join(parts[:-1])] and the class
    name [parts[-1]], put together with a dot give back the path. *)
Theorem get_class_names_recompose (path cls : string) :
  last (PyStr.split "." path) = Some cls ->
  Frappe.init (PyStr.split "." path) ≠ [] ->
  (PyStr.join "." (Frappe.init (PyStr.split "." path)) ++ "." ++ cls)%string
  = path.
Proof.
  intros Hlast Hinit.
  pose proof (join_split "." path) as Hj.
  rewrite (init_last _ _ Hlast) in Hj.
  by rewrite join_snoc in Hj.
Qed.

Lemma get_class_names_recompose_witness :
  (PyStr.join "." (Frappe.init (PyStr.split "." tensor_path))
   ++ "." ++ "TensorCoFi")%string = tensor_path.
Proof.
  apply (get_class_names_recompose tensor_path "TensorCoFi"); by vm_compute.
Defined.

(** ** FillTool.fill_db_with_users: the whole load *)





Lemma dict_of_values {A} (key : A -> string) (objs : list A) k o :
  Fill.dict_of key objs !! k = Some o -> o ∈ objs /\ key o = k.
Proof.
  unfold Fill.dict_of. intros H.
  destruct (fold_insert_lookup key (fun o => o) objs ∅ k o H)
    as [(a & Ha & Hk & ->)|Hacc]; [done|].
  by rewrite lookup_empty in Hacc.
Qed.











(** ** FillTool.fill_item_locale for a vendor other than sqlite *)

Lemma iterate_or_unit (f : Fill.field) :
  exists l, Fill.iterate (Fill.or_unit (Fill.get f)) = Ok l.
Proof.
  destruct f as [| |s|l]; simpl; eauto.
  - unfold Fill.or_unit. simpl. destruct (negb (String.eqb s "")); eauto.
  - unfold Fill.or_unit. simpl. destruct (negb (bool_decide (l = []))); eauto.
Qed.

(** The pair [k] of a locale key and an item key is listed by the load: an
    item object lists the name of a known locale. *)
Definition locale_listed (objects : list Fill.json_item)
    (items : gmap string (Z * Fill.Item))
    (locales : gmap string (Z * Language.Locale)) (k : Z * Z) : Prop :=
  exists o l n loc item,
    o ∈ objects /\
    Fill.iterate (Fill.or_unit (Fill.get (Fill.json_locales o))) = Ok l /\
    n ∈ l /\ locales !! n = Some loc /\
    items !! Fill.item_eid o = Some item /\ k = (loc.1, item.1).

(** No two rows of the table are for one (locale, item) pair. *)
Definition links_unique (t : gmap Z Fill.ItemLocale) : Prop :=
  forall pk1 pk2 r1 r2,
    t !! pk1 = Some r1 -> t !! pk2 = Some r2 ->
    Fill.il_key r1 = Fill.il_key r2 -> pk1 = pk2.

(** Deleting the pairs of rows with distinct pairs, all in the dictionary. *)
Lemma for_each_del {A} (key : A -> Z * Z) (rows : list (Z * A))
    (dict : gmap (Z * Z) A) :
  NoDup ((fun kr : Z * A => key kr.2) <$> rows) ->
  (forall kr, kr ∈ rows -> is_Some (dict !! key kr.2)) ->
  exists dict',
    for_each (fun d (kr : Z * A) => Fill.del (key kr.2) d) rows dict
      = Ok dict' /\
    forall k, dict' !! k =
      if bool_decide (k ∈ (fun kr : Z * A => key kr.2) <$> rows) then None
      else dict !! k.
Proof.
  revert dict. induction rows as [|kr rows IH]; intros dict Hnd Hin.
  - exists dict. split; [done|]. intros k. by rewrite bool_decide_eq_false_2
      by (intros H; by apply elem_of_nil in H).
  - simpl in Hnd. apply NoDup_cons in Hnd as [Hkr Hnd].
    destruct (Hin kr) as [v Hv]; [by left|].
    destruct (IH (delete (key kr.2) dict) Hnd) as (dict' & Hrun & Hlook).
    { intros kr' Hkr'. rewrite lookup_delete_ne.
      - apply Hin. by right.
      - intros Heq. apply Hkr. rewrite Heq.
        apply list_elem_of_fmap. by exists kr'. }
    exists dict'. split.
    + cbn [for_each].
      assert (Hdel : Fill.del (key kr.2) dict = Ok (delete (key kr.2) dict))
        by (unfold Fill.del; by rewrite Hv).
      by rewrite Hdel, bind_Ok.
    + intros k. rewrite Hlook. simpl.
      destruct (decide (k = key kr.2)) as [->|Hne].
      * rewrite (bool_decide_eq_true_2 (key kr.2 ∈ key kr.2 :: _))
          by (by left).
        case_bool_decide; [done|]. by rewrite lookup_delete_eq.
      * rewrite lookup_delete_ne by done.
        case_bool_decide as H1; case_bool_decide as H2; try done.
        -- exfalso. apply H2. by right.
        -- exfalso. apply elem_of_cons in H2 as [?|?]; done.
Qed.

(** What the loops of [fill_item_locale] keep true after the item objects
    [seen]: the query names the pairs of the dictionary, and the dictionary
    holds an instance for every pair listed so far. *)
Definition links_read (d0 : Fill.db) (objects : list Fill.json_item)
    (items : gmap string (Z * Fill.Item))
    (locales : gmap string (Z * Language.Locale))
    (extra : Z * Z -> Prop) (seen : list Fill.json_item)
    (st : list (Z * Z) * gmap (Z * Z) Fill.ItemLocale) (d : Fill.db) : Prop :=
  d = d0 /\
  (forall k, k ∈ st.1 <-> is_Some (st.2 !! k)) /\
  (forall k v, st.2 !! k = Some v ->
     Fill.il_key v = k /\ locale_listed objects items locales k) /\
  (forall k, locale_listed seen items locales k \/ extra k ->
             is_Some (st.2 !! k)).

Lemma collect_locale_links (objects : list Fill.json_item)
    (items : gmap string (Z * Fill.Item))
    (locales : gmap string (Z * Language.Locale)) (d : Fill.db) :
  (forall o l n, o ∈ objects ->
     Fill.iterate (Fill.or_unit (Fill.get (Fill.json_locales o))) = Ok l ->
     n ∈ l -> is_Some (locales !! n) ->
     is_Some (items !! Fill.item_eid o)) ->
  exists st,
    Fill.for_ (fun st json_item =>
                 json_locales ←
                   Fill.pure (Fill.iterate
                     (Fill.or_unit (Fill.get (Fill.json_locales json_item))));
                 Fill.for_
                   (fun (st : list (Z * Z) * gmap (Z * Z) Fill.ItemLocale)
                        locale =>
                      match locales !! locale with
                      | None => mret st
                      | Some loc =>
                          item ← Fill.pure
                                   (lookup_or KeyError
                                      (items !! Fill.item_eid json_item));
                          mret (Fill.or_q st.1 (loc.1, item.1),
                                <[(loc.1, item.1) :=
                                    {| Fill.il_locale_id := loc.1;
                                       Fill.il_item_id := item.1 |}]> st.2)
                      end)
                   json_locales st)
              objects ([], ∅) d = (d, Ok st) /\
    links_read d objects items locales (fun _ => False) objects st d.
Proof.
  intros Hok.
  edestruct (for__invariant
    (fun st json_item =>
       json_locales ←
         Fill.pure (Fill.iterate
           (Fill.or_unit (Fill.get (Fill.json_locales json_item))));
       Fill.for_
         (fun (st : list (Z * Z) * gmap (Z * Z) Fill.ItemLocale) locale =>
            match locales !! locale with
            | None => mret st
            | Some loc =>
                item ← Fill.pure
                         (lookup_or KeyError
                            (items !! Fill.item_eid json_item));
                mret (Fill.or_q st.1 (loc.1, item.1),
                      <[(loc.1, item.1) :=
                          {| Fill.il_locale_id := loc.1;
                             Fill.il_item_id := item.1 |}]> st.2)
            end)
         json_locales st)
    (links_read d objects items locales (fun _ => False)) objects)
    with (seen := @nil Fill.json_item)
         (st := (@nil (Z * Z), (∅ : gmap (Z * Z) Fill.ItemLocale)))
         (d := d) as (st & d' & Hrun & Hinv).
  - intros seen o st d0 (-> & Hq & Hent & Hseen) Ho.
    destruct (iterate_or_unit (Fill.json_locales o)) as [l Hl].
    rewrite Hl, (bind_run (Fill.pure (Ok l)) _ d d l eq_refl).
    destruct (for__invariant
      (fun (st : list (Z * Z) * gmap (Z * Z) Fill.ItemLocale) locale =>
         match locales !! locale with
         | None => mret st
         | Some loc =>
             item ← Fill.pure
                      (lookup_or KeyError (items !! Fill.item_eid o));
             mret (Fill.or_q st.1 (loc.1, item.1),
                   <[(loc.1, item.1) :=
                       {| Fill.il_locale_id := loc.1;
                          Fill.il_item_id := item.1 |}]> st.2)
         end)
      (fun seenn st d' =>
         links_read d objects items locales
           (fun k => exists n loc item,
              n ∈ seenn /\ locales !! n = Some loc /\
              items !! Fill.item_eid o = Some item /\ k = (loc.1, item.1))
           seen st d') l) with (seen := @nil string) (st := st) (d := d)
      as (st' & d' & Hrun & (-> & Hq' & Hent' & Hseen')).
    + intros seenn n st1 d1 (-> & Hq1 & Hent1 & Hseen1) Hn.
      destruct (locales !! n) as [loc|] eqn:Hloc.
      * destruct (Hok o l n Ho Hl Hn) as [item Hitem]; [by eexists|].
        rewrite Hitem. eexists _, d. split; [reflexivity|].
        split; [done|]. simpl. split; [|split].
        -- intros k. unfold Fill.or_q. rewrite elem_of_app, Hq1.
           rewrite list_elem_of_singleton.
           destruct (decide ((loc.1, item.1) = k)) as [<-|Hne].
           ++ rewrite lookup_insert_eq. split; [by eexists | by right].
           ++ rewrite lookup_insert_ne by done.
              split; [intros [?|?]; done | by left].
        -- intros k v. destruct (decide ((loc.1, item.1) = k)) as [<-|Hne].
           ++ rewrite lookup_insert_eq. intros [= <-]. split; [done|].
              by exists o, l, n, loc, item.
           ++ rewrite lookup_insert_ne by done. apply Hent1.
        -- intros k Hk.
           destruct (decide ((loc.1, item.1) = k)) as [<-|Hne];
             [rewrite lookup_insert_eq; by eexists|].
           rewrite lookup_insert_ne by done. apply Hseen1.
           destruct Hk as [Hk|(n' & loc' & item' & Hn' & Hloc' & Hitem' & ->)];
             [by left|].
           apply elem_of_app in Hn' as [Hn'|Hn'%list_elem_of_singleton].
           ++ right. exists n', loc', item'. by rewrite Hitem.
           ++ subst n'. congruence.
      * exists st1, d. split; [done|]. split; [done|]. split; [done|].
        split; [done|]. intros k Hk. apply Hseen1.
        destruct Hk as [Hk|(n' & loc' & item' & Hn' & Hloc' & Hitem' & ->)];
          [by left|].
        apply elem_of_app in Hn' as [Hn'|Hn'%list_elem_of_singleton].
        -- right. by exists n', loc', item'.
        -- subst n'. congruence.
    + split; [done|]. split; [done|]. split; [done|].
      intros k [Hk|(n & _ & _ & Hn & _)]; [apply Hseen; by left|].
      by apply elem_of_nil in Hn.
    + exists st', d. split; [exact Hrun|]. split; [done|]. split; [done|].
      split; [done|]. intros k [Hk|[]].
      destruct Hk as (o' & l' & n & loc & item & Ho' & Hl' & Hn & Hloc
                      & Hitem & ->).
      apply Hseen'.
      apply elem_of_app in Ho' as [Ho'|Ho'%list_elem_of_singleton].
      * left. by exists o', l', n, loc, item.
      * subst o'. right. exists n, loc, item.
        assert (l' = l) as -> by congruence. done.
  - split; [done|]. split; [|split].
    + intros k. simpl. rewrite lookup_empty. split.
      * intros H. by apply elem_of_nil in H.
      * by intros [? ?].
    + intros k v H. simpl in H. by rewrite lookup_empty in H.
    + intros k [(o & _ & _ & _ & _ & Ho & _)|[]]. by apply elem_of_nil in Ho.
  - destruct Hinv as (-> & Hinv). exists st. split; [exact Hrun|]. done.
Qed.

(** X28.  For a vendor other than sqlite, when the item of every object that
    lists a known locale is among the items handed over, the table has at
    most one row per (locale, item) pair, and the table is empty or some
    pair is listed, [fill_item_locale] goes through: afterwards every listed
    pair has a row, the stored rows are as they were, and a row is written
    only for a listed pair that had none. *)
Theorem item_locale_links (cfg : Fill.config) (objects : list Fill.json_item)
    (items : gmap string (Z * Fill.Item))
    (locales : gmap string (Z * Language.Locale)) (d : Fill.db) :
  Fill.sqlite cfg = false ->
  (forall o l n, o ∈ objects ->
     Fill.iterate (Fill.or_unit (Fill.get (Fill.json_locales o))) = Ok l ->
     n ∈ l -> is_Some (locales !! n) ->
     is_Some (items !! Fill.item_eid o)) ->
  links_unique (Fill.item_locales d) ->
  (Fill.item_locales d = ∅ \/
   exists k, locale_listed objects items locales k) ->
  exists d',
    Fill.fill_item_locale cfg objects items locales d = (d', Ok tt) /\
    (forall k, locale_listed objects items locales k ->
       exists pk row, Fill.item_locales d' !! pk = Some row /\
                      Fill.il_key row = k) /\
    (forall pk row, Fill.item_locales d !! pk = Some row ->
                    Fill.item_locales d' !! pk = Some row) /\
    (forall pk row, Fill.item_locales d' !! pk = Some row ->
       Fill.item_locales d !! pk = Some row \/
       (Fill.item_locales d !! pk = None /\
        locale_listed objects items locales (Fill.il_key row) /\
        forall pk0 r0, Fill.item_locales d !! pk0 = Some r0 ->
                       Fill.il_key r0 ≠ Fill.il_key row)).
Proof.
  intros Hsq Hok Huniq Hsome. unfold Fill.fill_item_locale. rewrite Hsq.
  destruct (collect_locale_links objects items locales d Hok)
    as ([q il] & Hrun & (_ & Hq & Hent & Hseen)).
  simpl in Hq, Hent, Hseen.
  rewrite (bind_run _ _ _ _ _ Hrun). cbv beta iota.
  set (rows := Db.select (fun _ r => Fill.q_match q (Fill.il_key r))
                         (Fill.item_locales d)).
  assert (Hrows : forall pk r, (pk, r) ∈ rows <->
            Fill.item_locales d !! pk = Some r /\ Fill.il_key r ∈ q).
  { intros pk r. unfold rows. rewrite select_spec. split.
    - intros [Hpk Hm]. split; [done|]. destruct q as [|a q'].
      + exfalso. destruct Hsome as [Hempty|[k Hk]].
        * by rewrite Hempty, lookup_empty in Hpk.
        * assert (His : is_Some (il !! k)) by (apply Hseen; by left).
          apply Hq in His. by apply elem_of_nil in His.
      + by apply bool_decide_eq_true in Hm.
    - intros [Hpk Hin]. split; [done|]. by apply q_match_elem. }
  destruct (for_each_del Fill.il_key rows il) as (il' & Hdel & Hlook).
  { apply NoDup_fmap_2_strong; [|apply select_NoDup].
    intros [k1 r1] [k2 r2] [H1 _]%Hrows [H2 _]%Hrows Heq. simpl in Heq.
    assert (k1 = k2) as -> by (by eapply Huniq). congruence. }
  { intros [pk r] [_ Hin]%Hrows. by apply Hq. }
  assert (Hdrop : Fill.drop_existing Fill.ItemLocale_ Fill.il_key q il d
                  = (d, Ok il')).
  { unfold Fill.drop_existing. rewrite bind_filter. unfold Fill.pure.
    f_equal. exact Hdel. }
  rewrite (bind_run _ _ _ _ _ Hdrop).
  destruct (bulk_create_new_instances il' (Fill.item_locales d))
    as [t' Hdb].
  rewrite (fill_bulk_create_Ok Fill.ItemLocale_ _ _ t') by exact Hdb.
  eexists. split; [reflexivity|]. simpl.
  assert (Hkeys : forall k,
            k ∈ (fun kr : Z * Fill.ItemLocale => Fill.il_key kr.2) <$> rows <->
            k ∈ q /\ exists pk r, Fill.item_locales d !! pk = Some r /\
                                  Fill.il_key r = k).
  { intros k. rewrite list_elem_of_fmap. split.
    - intros ([pk r] & -> & [Hpk Hin]%Hrows). split; [done|]. by exists pk, r.
    - intros (Hin & pk & r & Hpk & <-). exists (pk, r). split; [done|].
      by apply Hrows. }
  split; [|split].
  - intros k Hk. destruct (Hseen k) as [v Hv]; [by left|].
    specialize (Hlook k). case_bool_decide as Hin.
    + apply Hkeys in Hin as (_ & pk & r & Hpk & Hkey). exists pk, r.
      split; [|done]. by apply (bulk_create_keeps _ _ _ _ _ _ Hdb).
    + rewrite Hv in Hlook.
      destruct (bulk_create_new _ _ _ _ None v Hdb) as (pk & _ & Hrow & _).
      * apply elem_of_new_instances. split; [done|]. by exists k.
      * exists pk, v. split; [done|]. by destruct (Hent _ _ Hv).
  - intros pk row. by apply (bulk_create_keeps _ _ _ _ _ _ Hdb).
  - intros pk row Hrow.
    apply (bulk_create_inv _ _ _ _ _ _ Hdb) in Hrow
      as [Hrow|[Hnone [pko Hrow]]].
    + by left.
    + right. split; [done|].
      apply elem_of_new_instances in Hrow as [_ [k Hk]]. simpl in Hk.
      specialize (Hlook k). rewrite Hk in Hlook.
      case_bool_decide as Hin; [done|]. symmetry in Hlook.
      destruct (Hent _ _ Hlook) as [Hkey Hlisted]. rewrite Hkey.
      split; [done|]. intros pk0 r0 Hpk0 Heq. apply Hin, Hkeys.
      split; [apply Hq; by eexists|]. by exists pk0, r0.
Qed.

Definition stored_en : gmap string (Z * Language.Locale) :=
  {["en" := (2, en_locale)]}.

Lemma item_locale_links_witness :
  exists d' pk row,
    Fill.fill_item_locale (other_vendor small_cfg) [item_with_genre]
                          stored_a stored_en Fill.empty_db = (d', Ok tt) /\
    Fill.item_locales d' !! pk = Some row /\ Fill.il_key row = (2, 1).
Proof.
  destruct (item_locale_links (other_vendor small_cfg) [item_with_genre]
              stored_a stored_en Fill.empty_db)
    as (d' & Hrun & Hlinks & _).
  - reflexivity.
  - intros o l n Ho%list_elem_of_singleton _ _ _. subst o. by eexists.
  - intros pk1 pk2 r1 r2 H1. simpl in H1. by rewrite lookup_empty in H1.
  - by left.
  - destruct (Hlinks (2, 1)) as (pk & row & Hrow & Hkey).
    { exists item_with_genre, ["en"], "en", (2, en_locale),
        (1, {| Fill.external_id := "a"; Fill.name := Fill.NameStr "A" |}).
      split; [by left|]. split; [reflexivity|]. split; [by left|].
      split; [reflexivity|]. split; reflexivity. }
    by exists d', pk, row.
Defined.
